(** * Video dubbing service: a shallow embedding of the generation pipeline

    The development follows the Python sources file by file:
    - [services/download.py]        : [Download.download_file]
    - [services/video.py]           : [Video.check_videos_compatible],
                                      [Video.concatenate_videos] and its two methods
    - [services/tts.py]             : [Tts.generate_speech]
    - [services/storage_service.py] : [Storage.upload_file]
    - [services/generator.py]       : [Generator.parse_blocks], the stages of the
                                      pipeline, [Generator.generate_final_video]
                                      and [Generator.generate_all]

    External capabilities (HTTP, ffmpeg and ffprobe, the speech backend, the
    bucket) are the fields of an environment record [Env]; the local file
    system and the chronological list of external calls form the mutable
    [World] that the code threads through.  Python exceptions are the
    [Raise] outcome of the monad [M].  The coroutines of the rendering
    stage are run in the order given by a schedule, and the properties of
    that stage hold for every schedule. *)

From Stdlib Require Import Floats Ascii.
From stdpp Require Import gmap strings list fin_maps pretty.

Set Warnings "-register-all,-inexact-float,-clear-no-such-hyp".

(** ** Python values *)

(** The body of the request is decoded JSON: [Dict[Any, Any]] in [routes.py]. *)
Inductive json : Type :=
  | JNull
  | JBool (b : bool)
  | JNum (z : Z)
  | JFloat (f : float)
  | JStr (s : string)
  | JList (l : list json)
  | JObj (m : gmap string json).

(** [pathlib.Path] values and file contents are byte strings. *)
Definition Path : Type := string.
Definition bytes : Type := string.

(** [temp_dir / name] *)
Definition path_join (dir : Path) (name : string) : Path := dir +:+ "/" +:+ name.

(** [f"{family}{i}"] : the dynamically indexed request keys. *)
Definition indexed_key (family : string) (i : nat) : string := family +:+ pretty i.

(** Exceptions, with [str_exn] the text [str(e)] stored in [results["error"]]. *)
Inductive exn : Type :=
  | ValueError (msg : string)
  | KeyError (key : string)
  | TypeError (msg : string)
  | OSError (msg : string)
  | Exception (msg : string).

Definition str_exn (e : exn) : string :=
  match e with
  | ValueError msg | TypeError msg | OSError msg | Exception msg => msg
  | KeyError key => "'" +:+ key +:+ "'"
  end.

(** [value[key]] on a decoded JSON value. *)
Definition subscript (value : json) (key : string) : exn + json :=
  match value with
  | JObj m =>
      match m !! key with
      | Some v => inr v
      | None => inl (KeyError key)
      end
  | JList _ => inl (TypeError "list indices must be integers or slices, not str")
  | JStr _ => inl (TypeError "string indices must be integers, not 'str'")
  | JNull => inl (TypeError "'NoneType' object is not subscriptable")
  | JBool _ => inl (TypeError "'bool' object is not subscriptable")
  | JNum _ => inl (TypeError "'int' object is not subscriptable")
  | JFloat _ => inl (TypeError "'float' object is not subscriptable")
  end.

(** ** The world outside the interpreter *)

(** What [ffprobe] reports for a file, as [get_video_info] keeps it.
    [None] stands for the empty dictionary returned when probing failed. *)
Record stream_info : Type := StreamInfo {
  video_codec : option string;
  width : option Z;
  height : option Z;
  fps : float;
}.
Definition video_info : Type := option stream_info.

(** Outcome of one [ffmpeg] run: whether [subprocess.run(..., check=True)]
    returned normally, and the output file it left behind, if any. *)
Record ffres : Type := FfRes {
  exit_ok : bool;
  produced : option bytes;
}.

(** Outcome of [session.get]: a transport error (time-outs included), or a
    response whose body may still fail to be read. *)
Inductive http_result : Type :=
  | HttpError
  | HttpResponse (status : Z) (body : option bytes).

(** The calls that leave the interpreter, in the order they are made. *)
Inductive event : Type :=
  | EvHttpGet (url : json) (timeout : Z)
  | EvFfprobe (p : Path)
  | EvCopy (src dst : Path)
  | EvDemuxer (inputs : list Path) (out : Path)
  | EvFilter (inputs : list Path) (target_width target_height : option Z) (out : Path)
  | EvTts (text : json) (voice_id : string) (out : Path)
  | EvSilence (out : Path) (seconds : Z)
  | EvMix (background voice out : Path)
  | EvRender (video audio out : Path)
  | EvUpload (local : Path) (blob : string)
  | EvMkdtemp (dir : Path)
  | EvRmtree (dir : Path)
  | EvUnlink (p : Path)
  | EvProgress (completed total : nat).

(** What the outside answers to each call.
    - [http_get url timeout]: [session.get];
    - [open_wb_ok dest]: whether [aiofiles.open(dest, 'wb')] succeeds;
    - [ffprobe p]: the dictionary [get_video_info] builds for [p];
    - [copy2_ok src dst]: whether [shutil.copy2] succeeds;
    - [ffmpeg_demuxer], [ffmpeg_filter], [ffmpeg_mix], [ffmpeg_render]: the
      four [ffmpeg] command lines run with [check=True];
    - [silence_error p]: the exception [subprocess.run] raises when the
      [anullsrc] command that writes [p] cannot be started ([ffmpeg] is
      not installed, say), [None] when the command runs; this call is in
      no [try] block;
    - [ffmpeg_silence p]: the file left by the [anullsrc] command once it
      has run, if any (its exit status is not checked);
    - [tts_client]: whether an API key was configured;
    - [tts_voices]: the name-to-id dictionary of [voices.get_all()], in
      insertion order, [None] when the call raises;
    - [tts_convert text voice_id p]: the audio streamed by
      [text_to_speech.convert] and written to [p], [None] when that raises;
    - [tts_partial text voice_id p]: what such a failed conversion has
      left in [p], [None] when it failed before [p] was opened;
    - [gcs_upload_ok local blob]: whether [upload_from_filename] succeeds;
    - [mkdtemp_name prefix]: the directory [tempfile.mkdtemp] creates. *)
Record Env : Type := {
  http_get : json → Z → http_result;
  open_wb_ok : Path → bool;
  ffprobe : Path → video_info;
  copy2_ok : Path → Path → bool;
  ffmpeg_demuxer : list Path → Path → ffres;
  ffmpeg_filter : list Path → option Z → option Z → Path → ffres;
  tts_client : bool;
  tts_voices : option (list (string * string));
  tts_convert : json → string → Path → option bytes;
  tts_partial : json → string → Path → option bytes;
  silence_error : Path → option exn;
  ffmpeg_silence : Path → option bytes;
  ffmpeg_mix : Path → Path → Path → ffres;
  ffmpeg_render : Path → Path → Path → ffres;
  gcs_upload_ok : Path → string → bool;
  mkdtemp_name : string → Path;
}.

(** [settings.py] *)
Record Settings : Type := {
  max_concurrent_jobs : Z;
  download_timeout : Z;
  background_audio_volume : float;
  voice_audio_volume : float;
  gcs_bucket_name : string;
}.

(** The local files with their contents, the directories made by
    [mkdtemp], and the calls made so far. *)
Record World : Type := {
  files : gmap Path bytes;
  dirs : gset Path;
  trace : list event;
}.

Definition log (e : event) (w : World) : World :=
  {| files := files w; dirs := dirs w; trace := trace w ++ [e] |}.

Definition write_file (p : Path) (content : bytes) (w : World) : World :=
  {| files := <[p := content]> (files w); dirs := dirs w; trace := trace w |}.

Definition remove_file (p : Path) (w : World) : World :=
  {| files := delete p (files w); dirs := dirs w; trace := trace w |}.

(** [p.exists()] for the paths the pipeline tests, which name files;
    [dirs] only holds the directories made by [mkdtemp]. *)
Definition path_exists (w : World) (p : Path) : bool :=
  bool_decide (is_Some (files w !! p)).

(** Leave behind what a tool produced, if anything. *)
Definition keep_output (out : Path) (o : option bytes) (w : World) : World :=
  match o with
  | Some content => write_file out content w
  | None => w
  end.

(** [p] lies under the directory [dir]. *)
Definition under (dir : Path) (p : Path) : bool := String.prefix (dir +:+ "/") p.

(** ** The monad of the embedding: state and exceptions *)

Inductive res (A : Type) : Type :=
  | Ok (a : A)
  | Raise (e : exn).
Arguments Ok {A} a.
Arguments Raise {A} e.

Definition M (A : Type) : Type := World → res A * World.

Definition ret {A} (a : A) : M A := λ w, (Ok a, w).
Definition raise {A} (e : exn) : M A := λ w, (Raise e, w).
Definition bind {A B} (m : M A) (f : A → M B) : M B :=
  λ w, match m w with
       | (Ok a, w') => f a w'
       | (Raise e, w') => (Raise e, w')
       end.
Definition emit (e : event) : M unit := λ w, (Ok tt, log e w).
Definition modify (f : World → World) : M unit := λ w, (Ok tt, f w).
Definition gets {A} (f : World → A) : M A := λ w, (Ok (f w), w).
Definition lift_exn {A} (x : exn + A) : M A :=
  match x with
  | inl e => raise e
  | inr a => ret a
  end.

Declare Scope m_scope.
Delimit Scope m_scope with M.
Notation "x <- m ;; k" := (bind m (λ x, k))
  (at level 100, m at next level, right associativity) : m_scope.
Notation "m ;;; k" := (bind m (λ _, k))
  (at level 100, right associativity) : m_scope.
Open Scope m_scope.

(** [for idx, x in enumerate(xs): acc = body(idx, x, acc)] *)
Fixpoint for_enumerate {A St} (body : nat → A → St → M St)
    (idx : nat) (xs : list A) (acc : St) : M St :=
  match xs with
  | [] => ret acc
  | x :: xs' => acc' <- body idx x acc ;; for_enumerate body (S idx) xs' acc'
  end.

(** ** services/download.py *)

Module Download.
Section download.
Context (env : Env).

(** [download_file]: the whole body sits in [try ... except Exception],
    so every failure is the result [False].  [aiofiles.open(dest, 'wb')]
    truncates the destination before the body is read. *)
Definition download_file (url : json) (dest_path : Path) (timeout : Z) : M bool :=
  emit (EvHttpGet url timeout) ;;;
  match http_get env url timeout with
  | HttpError => ret false
  | HttpResponse status body =>
      if bool_decide (status = 200%Z) then
        if open_wb_ok env dest_path then
          modify (write_file dest_path "") ;;;
          match body with
          | Some content => modify (write_file dest_path content) ;;; ret true
          | None => ret false
          end
        else ret false
      else ret false
  end.
End download.
End Download.

(** ** services/video.py *)

Module Video.
Section video.
Context (env : Env).

(** [get_video_info]: one [ffprobe] run; [{}] when it fails. *)
Definition get_video_info (video_path : Path) : M video_info :=
  emit (EvFfprobe video_path) ;;; ret (ffprobe env video_path).

(** [info.get('video_codec')], [info.get('width')], [info.get('height')],
    [info.get('fps', 0)] *)
Definition get_codec (info : video_info) : option string := info ≫= video_codec.
Definition get_width (info : video_info) : option Z := info ≫= width.
Definition get_height (info : video_info) : option Z := info ≫= height.
Definition get_fps (info : video_info) : float := from_option fps 0%float info.

(** [abs(a - b) > 0.01] on binary64 floats. *)
Definition fps_differs (a b : float) : bool :=
  PrimFloat.ltb 0.01%float (PrimFloat.abs (PrimFloat.sub a b)).

(** The loop [for i, info in enumerate(infos[1:], 1)] with its three
    early [return False]. *)
Fixpoint compare_with_first (first : video_info) (rest : list video_info) : bool :=
  match rest with
  | [] => true
  | info :: rest' =>
      if bool_decide (get_codec info ≠ get_codec first) then false
      else if bool_decide (get_width info ≠ get_width first)
              || bool_decide (get_height info ≠ get_height first) then false
      else if fps_differs (get_fps info) (get_fps first) then false
      else compare_with_first first rest'
  end.

(** [[get_video_info(vp) for vp in video_paths]] *)
Fixpoint probe_all (video_paths : list Path) : M (list video_info) :=
  match video_paths with
  | [] => ret []
  | vp :: rest =>
      info <- get_video_info vp ;;
      infos <- probe_all rest ;;
      ret (info :: infos)
  end.

Definition check_videos_compatible (video_paths : list Path) : M bool :=
  if bool_decide (length video_paths < 2) then ret true
  else
    infos <- probe_all video_paths ;;
    match infos with
    | [] => raise (Exception "list index out of range")
    | first :: rest => ret (compare_with_first first rest)
    end.

(** [concatenate_with_demuxer]: stream copy through the concat demuxer.
    [exit_ok] is false for [CalledProcessError] and for any other
    exception of the [try] block. *)
Definition concatenate_with_demuxer (video_paths : list Path) (output_path : Path) : M bool :=
  emit (EvDemuxer video_paths output_path) ;;;
  let r := ffmpeg_demuxer env video_paths output_path in
  modify (keep_output output_path (produced r)) ;;;
  if exit_ok r then
    present <- gets (λ w, path_exists w output_path) ;;
    if present then
      _ <- get_video_info output_path ;; ret true
    else ret false
  else ret false.

(** [first_info.get('width', 1080)]: the default only applies to [{}]. *)
Definition target_width (first_info : video_info) : option Z :=
  match first_info with
  | Some i => width i
  | None => Some 1080%Z
  end.
Definition target_height (first_info : video_info) : option Z :=
  match first_info with
  | Some i => height i
  | None => Some 1920%Z
  end.

(** [concatenate_with_filter]: re-encode through [filter_complex], every
    input scaled and padded to the first input's resolution. *)
Definition concatenate_with_filter (video_paths : list Path) (output_path : Path) : M bool :=
  match video_paths with
  | [] => ret false
  | first :: _ =>
      first_info <- get_video_info first ;;
      let tw := target_width first_info in
      let th := target_height first_info in
      emit (EvFilter video_paths tw th output_path) ;;;
      let r := ffmpeg_filter env video_paths tw th output_path in
      modify (keep_output output_path (produced r)) ;;;
      if exit_ok r then
        present <- gets (λ w, path_exists w output_path) ;;
        if present then
          _ <- get_video_info output_path ;;
          _ <- probe_all video_paths ;;
          ret true
        else ret false
      else ret false
  end.

(** [shutil.copy2(src, dst)]; it is not guarded by any [try]. *)
Definition copy2 (src dst : Path) : M unit :=
  emit (EvCopy src dst) ;;;
  content <- gets (λ w, files w !! src) ;;
  match content with
  | Some c =>
      if copy2_ok env src dst then modify (write_file dst c)
      else raise (OSError "copy2 failed")
  | None => raise (OSError "No such file or directory")
  end.

Definition concatenate_videos (video_paths : list Path) (output_path : Path) : M bool :=
  match video_paths with
  | [] => ret false
  | first :: others =>
      all_exist <- gets (λ w, forallb (path_exists w) video_paths) ;;
      if negb all_exist then ret false
      else
        match others with
        | [] => copy2 first output_path ;;; ret true
        | _ :: _ =>
            compatible <- check_videos_compatible video_paths ;;
            if compatible then
              done <- concatenate_with_demuxer video_paths output_path ;;
              if done then ret true
              else concatenate_with_filter video_paths output_path
            else concatenate_with_filter video_paths output_path
        end
  end.
End video.
End Video.

(** ** services/tts.py *)

Module Tts.
Section tts.
Context (env : Env).

(** [get_available_voices]: the name-to-id dictionary, in insertion
    order; empty without a client or when the listing call fails.  The
    listing call [client.voices.get_all()] is not among the events of the
    trace: [EvTts] records the synthesis requests only.  Whether the
    backend is asked at all is decided by [self._voices_cache], which
    [TTSService.get_available_voices] below spells out. *)
Definition get_available_voices : list (string * string) :=
  if tts_client env then default [] (tts_voices env) else [].

Fixpoint dict_get (voices : list (string * string)) (name : string) : option string :=
  match voices with
  | [] => None
  | (k, v) :: rest => if bool_decide (k = name) then Some v else dict_get rest name
  end.

(** [voices.get(voice_name)]: a list or an object is unhashable. *)
Definition voices_get (voices : list (string * string)) (voice_name : json)
    : exn + option string :=
  match voice_name with
  | JStr s => inr (dict_get voices s)
  | JList _ => inl (TypeError "unhashable type: 'list'")
  | JObj _ => inl (TypeError "unhashable type: 'dict'")
  | _ => inr None
  end.

(** [if not voice_id]: [None] and the empty string are both falsy. *)
Definition falsy (o : option string) : bool :=
  match o with
  | None => true
  | Some s => bool_decide (s = "")
  end.

Definition get_voice_id (voice_name : json) : exn + option string :=
  match get_available_voices with
  | [] => inr None
  | ((_, first_id) :: _) as voices =>
      match voices_get voices voice_name with
      | inl e => inl e
      | inr voice_id => inr (if falsy voice_id then Some first_id else voice_id)
      end
  end.

Definition generate_speech (text voice : json) (output_path : Path) : M bool :=
  if negb (tts_client env) then ret false
  else
    voice_id <- lift_exn (get_voice_id voice) ;;
    match voice_id with
    | None => ret false
    | Some vid =>
        if bool_decide (vid = "") then ret false
        else
          emit (EvTts text vid output_path) ;;;
          match tts_convert env text vid output_path with
          | Some audio => modify (write_file output_path audio) ;;; ret true
          | None =>
              modify (keep_output output_path (tts_partial env text vid output_path)) ;;;
              ret false
          end
    end.
End tts.
End Tts.

(** ** services/storage_service.py *)

Module Storage.
Section storage.
Context (env : Env) (cfg : Settings).

(** [upload_file]: the public URL, or [None] when the upload raised. *)
Definition upload_file (local_path : Path) (destination_blob_name : string)
    (w : World) : option string * World :=
  let w := log (EvUpload local_path destination_blob_name) w in
  if gcs_upload_ok env local_path destination_blob_name then
    (Some ("https://storage.googleapis.com/" +:+ gcs_bucket_name cfg
           +:+ "/" +:+ destination_blob_name), w)
  else (None, w).
End storage.
End Storage.

(** ** services/generator.py *)

Module Generator.

(** [while f"{family}{i}" in data: acc = body(data[f"{family}{i}"], acc); i += 1].
    A dictionary is finite, so the loop leaves through a missing key after
    at most [size data] rounds; [fuel] only makes the recursion structural. *)
Fixpoint while_key {A} (family : string) (data : gmap string json)
    (body : json → A → A) (fuel i : nat) (acc : A) : A :=
  match fuel with
  | 0 => acc
  | S fuel' =>
      match data !! indexed_key family i with
      | Some v => while_key family data body fuel' (S i) (body v acc)
      | None => acc
      end
  end.

(** [if isinstance(block, list) and block: video_blocks.append(block)] *)
Definition keep_block (block : json) (video_blocks : list (list json)) : list (list json) :=
  match block with
  | JList (x :: l) => video_blocks ++ [x :: l]
  | _ => video_blocks
  end.

(** [if isinstance(xs, list): acc.extend(xs)] *)
Definition extend_list (xs : json) (acc : list json) : list json :=
  match xs with
  | JList l => acc ++ l
  | _ => acc
  end.

Definition parse_blocks (data : gmap string json)
    : list (list json) * list json * list json :=
  let video_blocks := while_key "block" data keep_block (S (size data)) 1 [] in
  let audio_urls := while_key "audio" data extend_list (S (size data)) 1 [] in
  let voice_configs := while_key "voice" data extend_list (S (size data)) 1 [] in
  (video_blocks, audio_urls, voice_configs).

(** The [results] dictionary; a record [{f"{variant_id}_url": url}] of
    [successful] is the pair of its key and its value. *)
Record Results : Type := {
  successful : list (string * string);
  failed : list string;
  total : nat;
  urls : list string;
  error : option string;
}.

Definition with_total (n : nat) (r : Results) : Results :=
  {| successful := successful r; failed := failed r; total := n;
     urls := urls r; error := error r |}.
Definition with_error (e : exn) (r : Results) : Results :=
  {| successful := successful r; failed := failed r; total := total r;
     urls := urls r; error := Some (str_exn e) |}.
Definition add_successful (entry : string * string) (r : Results) : Results :=
  {| successful := successful r ++ [entry]; failed := failed r; total := total r;
     urls := urls r; error := error r |}.
Definition add_failed (variant : string) (r : Results) : Results :=
  {| successful := successful r; failed := failed r ++ [variant]; total := total r;
     urls := urls r; error := error r |}.

(** One scheduled call of [generate_final_video]. *)
Record task : Type := Task {
  block_name : string;
  base_video : Path;
  mixed_audio : Path;
  variant_num : nat;
}.

(** Where a [generate_final_video] coroutine is suspended. *)
Inductive phase : Type :=
  | Waiting      (* on [async with semaphore] *)
  | Rendering    (* on the executor running [add_audio_to_video] *)
  | Uploading    (* on the executor running [upload_file] *)
  | Finished.

Global Instance phase_eq_dec : EqDecision phase.
Proof. solve_decision. Defined.

(** The variables shared by the coroutines of the rendering stage. *)
Record rstate : Type := RState {
  phases : list phase;
  sem_value : nat;
  results : Results;
  completed : nat;
  world : World;
}.

(** The locals of [generate_all] when the rendering stage begins. *)
Record prep : Type := Prep {
  temp_dir : Path;
  base_videos : list (string * Path);
  audio_files : list Path;
  tts_files : list Path;
  mixed_audio_files : list Path;
}.

Definition lift_total {A} (f : World → A * World) : M A :=
  λ w, let '(a, w') := f w in (Ok a, w').

(** [path.unlink()] and [path.unlink(missing_ok=True)] *)
Definition unlink (p : Path) : M unit :=
  emit (EvUnlink p) ;;;
  present <- gets (λ w, path_exists w p) ;;
  if present then modify (remove_file p)
  else raise (OSError "No such file or directory").
Definition unlink_missing_ok (p : Path) (w : World) : World :=
  remove_file p (log (EvUnlink p) w).

(** [shutil.rmtree(temp_dir, ignore_errors=True)] *)
Definition rmtree (dir : Path) (w : World) : World :=
  {| files := filter (λ kv, negb (under dir (fst kv))) (files w);
     dirs := dirs w ∖ {[dir]};
     trace := trace w ++ [EvRmtree dir] |}.

(** [Path(tempfile.mkdtemp(prefix=...))] *)
Definition mkdtemp (env : Env) (prefix : string) : M Path :=
  let d := mkdtemp_name env prefix in
  emit (EvMkdtemp d) ;;;
  modify (λ w, {| files := files w; dirs := {[d]} ∪ dirs w; trace := trace w |}) ;;;
  ret d.

Section generator.
Context (env : Env) (cfg : Settings).

Definition process_video_block (video_urls : list json) (block_name : string)
    (temp_dir : Path) : M Path :=
  downloaded_videos <-
    for_enumerate (λ idx url downloaded_videos,
      let video_path :=
        path_join temp_dir (block_name +:+ "_video_" +:+ pretty idx +:+ ".mp4") in
      ok <- Download.download_file env url video_path (download_timeout cfg) ;;
      if ok then ret (downloaded_videos ++ [video_path])
      else raise (Exception ("Failed to download " +:+ block_name
                             +:+ " video " +:+ pretty idx)))
      0 video_urls [] ;;
  let concatenated_path := path_join temp_dir (block_name +:+ "_concatenated.mp4") in
  ok <- Video.concatenate_videos env downloaded_videos concatenated_path ;;
  if ok then
    for_enumerate (λ _ video_path _, unlink video_path) 0 downloaded_videos tt ;;;
    ret concatenated_path
  else raise (Exception (block_name +:+ ": Concatenation failed")).

(** The silent second written by [ffmpeg -f lavfi -i anullsrc ... -t 1].
    [subprocess.run] is called without [check=True], so the exit status
    of the command is ignored; and outside any [try], so the exception it
    raises when the command cannot be started leaves [generate_all_tts]. *)
Definition silent_audio (voice_path : Path) : M unit :=
  emit (EvSilence voice_path 1) ;;;
  match silence_error env voice_path with
  | Some e => raise e
  | None => modify (keep_output voice_path (ffmpeg_silence env voice_path))
  end.

Definition tts_path (temp_dir : Path) (idx : nat) : Path :=
  path_join temp_dir ("tts_" +:+ pretty idx +:+ ".mp3").

Definition generate_all_tts (voice_configs : list json) (temp_dir : Path)
    : M (list Path) :=
  for_enumerate (λ idx voice_config tts_files,
    let voice_path := tts_path temp_dir idx in
    text <- lift_exn (subscript voice_config "text") ;;
    voice <- lift_exn (subscript voice_config "voice") ;;
    success <- Tts.generate_speech env text voice voice_path ;;
    (if negb success then silent_audio voice_path else ret tt) ;;;
    ret (tts_files ++ [voice_path]))
    0 voice_configs [].

Definition download_all_audio (audio_urls : list json) (temp_dir : Path)
    : M (list Path) :=
  for_enumerate (λ idx url audio_files,
    let audio_path := path_join temp_dir ("audio_" +:+ pretty idx +:+ ".mp3") in
    ok <- Download.download_file env url audio_path (download_timeout cfg) ;;
    if ok then ret (audio_files ++ [audio_path])
    else raise (Exception ("Failed to download audio " +:+ pretty idx)))
    0 audio_urls [].

(** [mix_audio_tracks]: [True] unless [ffmpeg] (run with [check=True])
    or anything else in the [try] block raised. *)
Definition mix_audio_tracks (background_audio voice_audio output_path : Path)
    (w : World) : bool * World :=
  let r := ffmpeg_mix env background_audio voice_audio output_path in
  (exit_ok r,
   keep_output output_path (produced r)
     (log (EvMix background_audio voice_audio output_path) w)).

Definition mixed_path (temp_dir : Path) (idx : nat) : Path :=
  path_join temp_dir ("mixed_" +:+ pretty idx +:+ ".mp3").

(** [list(product(audio_files, tts_files))] *)
Definition product (audio_files tts_files : list Path) : list (Path * Path) :=
  audio ← audio_files; (λ tts, (audio, tts)) <$> tts_files.

Definition create_audio_mixes (audio_files tts_files : list Path) (temp_dir : Path)
    : M (list Path) :=
  let combinations := product audio_files tts_files in
  for_enumerate (λ idx '(audio, tts) mixed_audio_files,
    let mixed_path := mixed_path temp_dir idx in
    success <- lift_total (mix_audio_tracks audio tts mixed_path) ;;
    if success then ret (mixed_audio_files ++ [mixed_path])
    else ret mixed_audio_files)
    0 combinations [].

(** [add_audio_to_video]: same shape as [mix_audio_tracks]. *)
Definition add_audio_to_video (video_path audio_path output_path : Path)
    (w : World) : bool * World :=
  let r := ffmpeg_render env video_path audio_path output_path in
  (exit_ok r,
   keep_output output_path (produced r)
     (log (EvRender video_path audio_path output_path) w)).

(** Steps 1 to 4 of [generate_all], in the task directory. *)
Definition stages (video_blocks : list (list json)) (audio_urls voice_configs : list json)
    (temp_dir : Path) : M prep :=
  base_videos <-
    for_enumerate (λ idx video_urls base_videos,
      let block_name := "block" +:+ pretty (idx + 1) in
      concatenated <- process_video_block video_urls block_name temp_dir ;;
      ret (base_videos ++ [(block_name, concatenated)]))
      0 video_blocks [] ;;
  audio_files <- download_all_audio audio_urls temp_dir ;;
  tts_files <- generate_all_tts voice_configs temp_dir ;;
  mixed_audio_files <- create_audio_mixes audio_files tts_files temp_dir ;;
  ret (Prep temp_dir base_videos audio_files tts_files mixed_audio_files).

(** The [try] block of [generate_all] up to and including step 4. *)
Definition prepare (task_id : string) (data : gmap string json) : M prep :=
  let '(video_blocks, audio_urls, voice_configs) := parse_blocks data in
  if bool_decide (video_blocks = []) then raise (ValueError "No video blocks found")
  else if bool_decide (audio_urls = []) then raise (ValueError "No audio URLs found")
  else if bool_decide (voice_configs = []) then raise (ValueError "No voice configs found")
  else
    temp_dir <- mkdtemp env ("task_" +:+ task_id +:+ "_") ;;
    stages video_blocks audio_urls voice_configs temp_dir.

(** The two nested loops that create the coroutines, with their shared
    [variant_counter]. *)
Fixpoint schedule_mixes (block_name : string) (base_video : Path)
    (mixed_audio_files : list Path) (variant_counter : nat) : list task * nat :=
  match mixed_audio_files with
  | [] => ([], variant_counter)
  | mixed_audio :: rest =>
      let variant_counter := variant_counter + 1 in
      let '(tasks, final) := schedule_mixes block_name base_video rest variant_counter in
      (Task block_name base_video mixed_audio variant_counter :: tasks, final)
  end.

Fixpoint schedule_blocks (base_videos : list (string * Path))
    (mixed_audio_files : list Path) (variant_counter : nat) : list task * nat :=
  match base_videos with
  | [] => ([], variant_counter)
  | (block_name, base_video) :: rest =>
      let '(tasks, variant_counter) :=
        schedule_mixes block_name base_video mixed_audio_files variant_counter in
      let '(tasks', final) := schedule_blocks rest mixed_audio_files variant_counter in
      (tasks ++ tasks', final)
  end.

Definition make_tasks (p : prep) : list task :=
  fst (schedule_blocks (base_videos p) (mixed_audio_files p) 0).

Definition variant_id (task_id : string) (t : task) : string :=
  task_id +:+ "_" +:+ block_name t +:+ "_v" +:+ pretty (variant_num t).

(** [if progress_callback: await progress_callback(completed, total)] *)
Definition report_progress (progress_callback : bool) (completed total : nat)
    (w : World) : World :=
  if progress_callback then log (EvProgress completed total) w else w.

(** *** The coroutines of the rendering stage

    [asyncio] runs the coroutines on one thread: what a coroutine does
    between two suspension points is atomic.  [generate_final_video i s]
    is the segment of the coroutine of task [i] that runs when the event
    loop resumes it in state [s]; it is [None] when the coroutine cannot
    be resumed (it waits on a locked semaphore, or it has returned).  The
    effects of an executor job are accounted for when the job completes.
    Any coroutine waiting on the semaphore may be admitted when a permit
    is free, which covers the first-come order of [asyncio.Semaphore].
    The progress callback of [routes.py] does not suspend, so counting,
    reporting and leaving [async with semaphore] form one segment. *)
Section render.
Context (task_id : string) (p : prep) (progress_callback : bool).

Definition total_variants : nat :=
  length (base_videos p) * length (mixed_audio_files p).

(** The end of [generate_final_video]: count, report, leave
    [async with semaphore]. *)
Definition finish_unit (i : nat) (r : Results) (w : World) (s : rstate) : rstate :=
  let completed := completed s + 1 in
  {| phases := <[i := Finished]> (phases s);
     sem_value := sem_value s + 1;
     results := r;
     completed := completed;
     world := report_progress progress_callback completed total_variants w |}.

Definition generate_final_video (i : nat) (s : rstate) : option rstate :=
  match make_tasks p !! i, phases s !! i with
  | Some t, Some ph =>
      let variant_id := variant_id task_id t in
      let local_output_path := path_join (temp_dir p) (variant_id +:+ ".mp4") in
      match ph with
      | Waiting =>
          match sem_value s with
          | 0 => None
          | S value =>
              Some {| phases := <[i := Rendering]> (phases s);
                      sem_value := value;
                      results := results s;
                      completed := completed s;
                      world := world s |}
          end
      | Rendering =>
          let '(success, w) :=
            add_audio_to_video (base_video t) (mixed_audio t)
              local_output_path (world s) in
          if success then
            Some {| phases := <[i := Uploading]> (phases s);
                    sem_value := sem_value s;
                    results := results s;
                    completed := completed s;
                    world := w |}
          else
            Some (finish_unit i (add_failed variant_id (results s)) w s)
      | Uploading =>
          let gcs_path := task_id +:+ "/" +:+ variant_id +:+ ".mp4" in
          let '(url, w) :=
            Storage.upload_file env cfg local_output_path gcs_path (world s) in
          let r :=
            match url with
            | Some u =>
                if bool_decide (u = "") then add_failed variant_id (results s)
                else add_successful (variant_id +:+ "_url", u) (results s)
            | None => add_failed variant_id (results s)
            end in
          Some (finish_unit i r (unlink_missing_ok local_output_path w) s)
      | Finished => None
      end
  | _, _ => None
  end.

(** The event loop resuming coroutines in the order [sched]; an entry
    naming a coroutine that cannot run is skipped. *)
Fixpoint run_schedule (sched : list nat) (s : rstate) : rstate :=
  match sched with
  | [] => s
  | i :: rest => run_schedule rest (default s (generate_final_video i s))
  end.

(** [asyncio.gather] returns once every coroutine has. *)
Definition all_finished (s : rstate) : bool :=
  forallb (λ ph, bool_decide (ph = Finished)) (phases s).

Definition start_render (r : Results) (w : World) : rstate :=
  {| phases := replicate (length (make_tasks p)) Waiting;
     sem_value := Z.to_nat (max_concurrent_jobs cfg);
     results := r;
     completed := 0;
     world := w |}.
End render.

Definition empty_results : Results :=
  {| successful := []; failed := []; total := 0; urls := []; error := None |}.

(** [generate_all], for the order [sched] in which the event loop resumes
    the rendering coroutines.  [None]: [sched] ends while
    [asyncio.gather] is still waiting. *)
Definition generate_all (sched : list nat) (task_id : string)
    (data : gmap string json) (progress_callback : bool) (w0 : World)
    : option (Results * World) :=
  match prepare task_id data w0 with
  | (Raise e, w) => Some (with_error e empty_results, w)
  | (Ok p, w) =>
      let total_variants := total_variants p in
      let results := with_total total_variants empty_results in
      let w := report_progress progress_callback 0 total_variants w in
      if bool_decide (max_concurrent_jobs cfg < 0)%Z then
        Some (with_error (ValueError "Semaphore initial value must be >= 0") results, w)
      else
        let s := run_schedule task_id p progress_callback sched
                   (start_render p results w) in
        if all_finished s then
          Some (Generator.results s, rmtree (temp_dir p) (world s))
        else None
  end.

(** Resuming the coroutines one after the other, each until it returns. *)
Definition sequential_schedule (n : nat) : list nat :=
  i ← seq 0 n; [i; i; i].
End generator.
End Generator.

(** ** Concrete worlds and environments used in examples *)

Definition empty_world : World := {| files := ∅; dirs := ∅; trace := [] |}.

(** A server that answers every request with the same status and body. *)
Definition constant_server (status : Z) (content : bytes) : Env := {|
  http_get := λ _ _, HttpResponse status (Some content);
  open_wb_ok := λ _, true;
  ffprobe := λ _, None;
  copy2_ok := λ _ _, true;
  ffmpeg_demuxer := λ _ _, FfRes true (Some "");
  ffmpeg_filter := λ _ _ _ _, FfRes true (Some "");
  tts_client := false;
  tts_voices := None;
  tts_convert := λ _ _ _, None;
  tts_partial := λ _ _ _, None;
  silence_error := λ _, None;
  ffmpeg_silence := λ _, Some "";
  ffmpeg_mix := λ _ _ _, FfRes true (Some "");
  ffmpeg_render := λ _ _ _, FfRes true (Some "");
  gcs_upload_ok := λ _ _, true;
  mkdtemp_name := λ prefix, "/tmp/" +:+ prefix;
|}.

(** The same environment with another [ffprobe]. *)
Definition with_ffprobe (probe : Path → video_info) (env : Env) : Env := {|
  http_get := http_get env;
  open_wb_ok := open_wb_ok env;
  ffprobe := probe;
  copy2_ok := copy2_ok env;
  ffmpeg_demuxer := ffmpeg_demuxer env;
  ffmpeg_filter := ffmpeg_filter env;
  tts_client := tts_client env;
  tts_voices := tts_voices env;
  tts_convert := tts_convert env;
  tts_partial := tts_partial env;
  silence_error := silence_error env;
  ffmpeg_silence := ffmpeg_silence env;
  ffmpeg_mix := ffmpeg_mix env;
  ffmpeg_render := ffmpeg_render env;
  gcs_upload_ok := gcs_upload_ok env;
  mkdtemp_name := mkdtemp_name env;
|}.

Definition h264_30fps (w h : Z) : video_info :=
  Some (StreamInfo (Some "h264") (Some w) (Some h) 30%float).

(** A landscape clip ["/clips/a.mp4"]; everything else is portrait. *)
Definition mixed_resolutions : Env :=
  with_ffprobe
    (λ p, if bool_decide (p = "/clips/a.mp4") then h264_30fps 1920 1080
          else h264_30fps 1080 1920)
    (constant_server 200 "").

Definition two_clips : World :=
  {| files := <["/clips/a.mp4" := "A"]> (<["/clips/b.mp4" := "B"]> ∅);
     dirs := {["/clips"]};
     trace := [] |}.

(** ** Vocabulary of the statements *)

(** A file matches the first one: same codec, same width and height, and
    frame rates not more than 0.01 apart. *)
Definition matches_first (first info : video_info) : Prop :=
  Video.get_codec info = Video.get_codec first ∧
  Video.get_width info = Video.get_width first ∧
  Video.get_height info = Video.get_height first ∧
  Video.fps_differs (Video.get_fps info) (Video.get_fps first) = false.


(** [vs] are the entries of [family] at the indices 1, 2, ... up to, and
    not including, the first index whose key is missing from [data]. *)
Definition scanned (family : string) (data : gmap string json) (vs : list json) : Prop :=
  (∀ j, j < length vs → data !! indexed_key family (1 + j) = vs !! j) ∧
  data !! indexed_key family (1 + length vs) = None.

(** What an entry contributes: a block when it is a non-empty list, and
    its items when it is a list. *)
Definition nonempty_list (v : json) : option (list json) :=
  match v with
  | JList (x :: l) => Some (x :: l)
  | _ => None
  end.
Definition list_items (v : json) : list json :=
  match v with
  | JList l => l
  | _ => []
  end.

(** A request whose first block is empty and whose second is not. *)
Definition empty_then_full : gmap string json :=
  <["block1" := JList []]> (<["block2" := JList [JStr "http://host/u.mp4"]]> ∅).

(** A voice line as [schemas.VoiceConfig] has it: an object with a string
    under ["text"] and a string under ["voice"]. *)
Definition voice_line (voice_config : json) : Prop :=
  ∃ m text voice, voice_config = JObj m ∧
    m !! "text" = Some (JStr text) ∧ m !! "voice" = Some (JStr voice).

(** The same environment with another speech backend and another outcome
    of the silent-audio command. *)
Definition with_speech (client : bool) (voices : option (list (string * string)))
    (convert : json → string → Path → option bytes)
    (silence : Path → option bytes) (env : Env) : Env := {|
  http_get := http_get env;
  open_wb_ok := open_wb_ok env;
  ffprobe := ffprobe env;
  copy2_ok := copy2_ok env;
  ffmpeg_demuxer := ffmpeg_demuxer env;
  ffmpeg_filter := ffmpeg_filter env;
  tts_client := client;
  tts_voices := voices;
  tts_convert := convert;
  tts_partial := tts_partial env;
  silence_error := silence_error env;
  ffmpeg_silence := silence;
  ffmpeg_mix := ffmpeg_mix env;
  ffmpeg_render := ffmpeg_render env;
  gcs_upload_ok := gcs_upload_ok env;
  mkdtemp_name := mkdtemp_name env;
|}.

(** [enumerate(xs, start)] *)
Definition enumerate_from {A} (start : nat) (xs : list A) : list (nat * A) :=
  zip (seq start (length xs)) xs.

(** The pairings [create_audio_mixes] attempts, each with its index, and
    whether the mix of a pairing succeeds. *)
Definition pairings (audio_files tts_files : list Path) : list (nat * (Path * Path)) :=
  enumerate_from 0 (Generator.product audio_files tts_files).
Definition mix_succeeds (env : Env) (temp_dir : Path) (pairing : nat * (Path * Path)) : bool :=
  exit_ok (ffmpeg_mix env pairing.2.1 pairing.2.2 (Generator.mixed_path temp_dir pairing.1)).

(** The [(completed, total)] pairs passed to the progress callback, and
    the directories [rmtree] was called on. *)
Definition progress_of (e : event) : option (nat * nat) :=
  match e with EvProgress c t => Some (c, t) | _ => None end.
Definition rmtree_of (e : event) : option Path :=
  match e with EvRmtree dir => Some dir | _ => None end.
Definition progress_log (tr : list event) : list (nat * nat) := omap progress_of tr.
Definition rmtree_log (tr : list event) : list Path := omap rmtree_of tr.

(** The events of the pipeline stages, as opposed to the two that
    [generate_all] issues itself, and the observations that ignore them. *)
Definition pipeline_event (e : event) : bool :=
  match e with EvProgress _ _ | EvRmtree _ => false | _ => true end.
Definition blind_to_pipeline {B} (f : event → option B) : Prop :=
  ∀ e, pipeline_event e = true → f e = None.

(** A computation that [f] cannot observe and that removes no directory. *)
Definition silent {A B} (f : event → option B) (m : M A) : Prop :=
  ∀ w, omap f (trace (m w).2) = omap f (trace w) ∧ dirs w ⊆ dirs (m w).2.

(** The voice id and the audio of a synthesis that succeeds: there is a
    client, the voice resolves to an id that is not empty, and the
    conversion streams to its end. *)
Definition synthesis (env : Env) (text : json) (voice : string) (output_path : Path)
    : option (string * bytes) :=
  if tts_client env then
    match Tts.get_voice_id env (JStr voice) with
    | inr (Some voice_id) =>
        if bool_decide (voice_id = "") then None
        else (λ audio, (voice_id, audio)) <$> tts_convert env text voice_id output_path
    | _ => None
    end
  else None.

(** Voice line [idx] of [voice_configs] is well formed, with these
    strings under ["text"] and ["voice"]. *)
Definition voice_line_at (voice_configs : list json) (idx : nat) (text voice : string)
    : Prop :=
  ∃ m, voice_configs !! idx = Some (JObj m) ∧
       m !! "text" = Some (JStr text) ∧ m !! "voice" = Some (JStr voice).

(** Whenever the synthesis of a line of [voice_configs] fails, the
    command that writes the silent clip in its place can be started. *)
Definition silence_can_start (env : Env) (temp_dir : Path) (voice_configs : list json)
    : Prop :=
  ∀ idx text voice,
    voice_line_at voice_configs idx text voice →
    synthesis env (JStr text) voice (Generator.tts_path temp_dir idx) = None →
    silence_error env (Generator.tts_path temp_dir idx) = None.

(** What the synthesis stage has done for the voice line [idx]: either
    its speech was synthesised, once, into its file and no silence was
    asked for; or one second of silence was asked for at its path, and
    the file holds the clip whenever the command left one. *)
Definition voice_line_served (env : Env) (temp_dir : Path) (evs : list event)
    (w : World) (idx : nat) (text voice : string) : Prop :=
  let voice_path := Generator.tts_path temp_dir idx in
  match synthesis env (JStr text) voice voice_path with
  | Some (voice_id, audio) =>
      EvTts (JStr text) voice_id voice_path ∈ evs ∧
      (∀ seconds, EvSilence voice_path seconds ∉ evs) ∧
      files w !! voice_path = Some audio
  | None =>
      EvSilence voice_path 1 ∈ evs ∧
      (∀ seconds, EvSilence voice_path seconds ∈ evs → seconds = 1%Z) ∧
      ∀ clip, ffmpeg_silence env voice_path = Some clip →
              files w !! voice_path = Some clip
  end.

(** The synthesis requests among the calls of a trace: text, voice id
    and output file of each [text_to_speech.convert]. *)
Definition tts_of (e : event) : option (json * string * Path) :=
  match e with EvTts text voice_id out => Some (text, voice_id, out) | _ => None end.
Definition synthesis_requests (tr : list event) : list (json * string * Path) :=
  omap tts_of tr.

(** One round of the loop of [generate_all_tts]. *)
Definition voice_round (env : Env) (temp_dir : Path) (idx : nat) (voice_config : json)
    (tts_files : list Path) : M (list Path) :=
  let voice_path := Generator.tts_path temp_dir idx in
  text <- lift_exn (subscript voice_config "text") ;;
  voice <- lift_exn (subscript voice_config "voice") ;;
  success <- Tts.generate_speech env text voice voice_path ;;
  (if negb success then Generator.silent_audio env voice_path else ret tt) ;;;
  ret (tts_files ++ [voice_path]).

(** The events of the synthesis stage that concern the voice line [idx]. *)
Definition voice_event (temp_dir : Path) (idx : nat) (e : event) : Prop :=
  (∃ text voice_id, e = EvTts text voice_id (Generator.tts_path temp_dir idx))
  ∨ e = EvSilence (Generator.tts_path temp_dir idx) 1.

(** Two well-formed voice lines in one request, and a speech backend that
    always fails. *)
Definition voice_hi : json :=
  JObj (<["text" := JStr "hi"]> (<["voice" := JStr "X"]> ∅)).
Definition voice_bye : json :=
  JObj (<["text" := JStr "bye"]> (<["voice" := JStr "Y"]> ∅)).
Definition small_request : gmap string json :=
  <["block1" := JList [JStr "http://host/v1.mp4"; JStr "http://host/v2.mp4"]]>
  (<["audio1" := JList [JStr "http://host/a1.mp3"]]>
  (<["voice1" := JList [voice_hi; voice_bye]]> ∅)).
Definition default_settings : Settings := {|
  max_concurrent_jobs := 3;
  download_timeout := 300;
  background_audio_volume := 0.2%float;
  voice_audio_volume := 0.8%float;
  gcs_bucket_name := "bucket";
|}.

(** ** Vocabulary of the rendering stage *)

(** Sum of a weight over the coroutines. *)
Definition tally (weight : Generator.phase → nat) (phs : list Generator.phase) : nat :=
  sum_list_with weight phs.

Definition is_finished (ph : Generator.phase) : nat :=
  match ph with Generator.Finished => 1 | _ => 0 end.
Definition holds_permit (ph : Generator.phase) : nat :=
  match ph with Generator.Rendering | Generator.Uploading => 1 | _ => 0 end.
(** Number of times a coroutine in this phase can still be resumed. *)
Definition resumptions_left (ph : Generator.phase) : nat :=
  match ph with
  | Generator.Waiting => 3
  | Generator.Rendering => 2
  | Generator.Uploading => 1
  | Generator.Finished => 0
  end.

(** The render units that have returned. *)
Definition finished_tasks (tasks : list Generator.task) (phs : list Generator.phase)
    : list Generator.task :=
  fst <$> filter (λ tp, tp.2 = Generator.Finished) (zip tasks phs).

(** The key under which a variant's URL is recorded. *)
Definition url_key (variant : string) : string := variant +:+ "_url".

Section render_steps.
Context (env : Env) (cfg : Settings) (task_id : string) (p : Generator.prep)
  (progress_callback : bool).

(** The three kinds of segment a [generate_final_video] coroutine runs:
    it is admitted by the semaphore, it goes from rendering to
    uploading, or it records its outcome and returns. *)
Inductive unit_step (i : nat) (s : Generator.rstate) : Generator.rstate → Prop :=
  | step_admitted t value :
      Generator.make_tasks p !! i = Some t →
      Generator.phases s !! i = Some Generator.Waiting →
      Generator.sem_value s = S value →
      unit_step i s
        {| Generator.phases := <[i := Generator.Rendering]> (Generator.phases s);
           Generator.sem_value := value;
           Generator.results := Generator.results s;
           Generator.completed := Generator.completed s;
           Generator.world := Generator.world s |}
  | step_rendered t w :
      Generator.make_tasks p !! i = Some t →
      Generator.phases s !! i = Some Generator.Rendering →
      progress_log (trace w) = progress_log (trace (Generator.world s)) →
      unit_step i s
        {| Generator.phases := <[i := Generator.Uploading]> (Generator.phases s);
           Generator.sem_value := Generator.sem_value s;
           Generator.results := Generator.results s;
           Generator.completed := Generator.completed s;
           Generator.world := w |}
  | step_returned t ph r w :
      Generator.make_tasks p !! i = Some t →
      Generator.phases s !! i = Some ph →
      ph = Generator.Rendering ∨ ph = Generator.Uploading →
      r = Generator.add_failed (Generator.variant_id task_id t) (Generator.results s)
      ∨ (∃ url, r = Generator.add_successful
                      (url_key (Generator.variant_id task_id t), url)
                      (Generator.results s)) →
      progress_log (trace w) = progress_log (trace (Generator.world s)) →
      unit_step i s (Generator.finish_unit p progress_callback i r w s).

(** What holds of the shared variables whenever the event loop is in
    control, for a rendering stage started with results [r0] in world [w0]. *)
Record render_inv (r0 : Generator.Results) (w0 : World) (s : Generator.rstate)
    : Prop := {
  inv_length : length (Generator.phases s) = length (Generator.make_tasks p);
  inv_completed : Generator.completed s = tally is_finished (Generator.phases s);
  inv_semaphore :
    Generator.sem_value s + tally holds_permit (Generator.phases s)
    = Z.to_nat (max_concurrent_jobs cfg);
  inv_entries :
    (fst <$> Generator.successful (Generator.results s))
      ++ (url_key <$> Generator.failed (Generator.results s))
    ≡ₚ (fst <$> Generator.successful r0) ++ (url_key <$> Generator.failed r0)
       ++ ((λ t, url_key (Generator.variant_id task_id t))
           <$> finished_tasks (Generator.make_tasks p) (Generator.phases s));
  inv_total : Generator.total (Generator.results s) = Generator.total r0;
  inv_error : Generator.error (Generator.results s) = Generator.error r0;
  inv_progress :
    progress_log (trace (Generator.world s))
    = progress_log (trace w0)
      ++ (if progress_callback
          then (λ c, (c, Generator.total_variants p))
               <$> seq 1 (Generator.completed s)
          else []);
}.
End render_steps.

(** A request without any [audio{i}] key. *)
Definition no_audio_request : gmap string json :=
  <["block1" := JList [JStr "http://host/v1.mp4"]]>
  (<["voice1" := JList [voice_hi]]> ∅).

(** The same environment with another network. *)
Definition with_http (get : json → Z → http_result) (env : Env) : Env := {|
  http_get := get;
  open_wb_ok := open_wb_ok env;
  ffprobe := ffprobe env;
  copy2_ok := copy2_ok env;
  ffmpeg_demuxer := ffmpeg_demuxer env;
  ffmpeg_filter := ffmpeg_filter env;
  tts_client := tts_client env;
  tts_voices := tts_voices env;
  tts_convert := tts_convert env;
  tts_partial := tts_partial env;
  silence_error := silence_error env;
  ffmpeg_silence := ffmpeg_silence env;
  ffmpeg_mix := ffmpeg_mix env;
  ffmpeg_render := ffmpeg_render env;
  gcs_upload_ok := gcs_upload_ok env;
  mkdtemp_name := mkdtemp_name env;
|}.

(** No host can be reached. *)
Definition offline : Env := with_http (λ _ _, HttpError) (constant_server 200 "clip").

(** The rendering stage of [small_request] when everything succeeds except
    speech synthesis: one block, one audio file, two voice files. *)
Definition small_prep : Generator.prep := {|
  Generator.temp_dir := "/tmp/task_t1_";
  Generator.base_videos := [("block1", "/tmp/task_t1_/block1_concatenated.mp4")];
  Generator.audio_files := ["/tmp/task_t1_/audio_0.mp3"];
  Generator.tts_files := ["/tmp/task_t1_/tts_0.mp3"; "/tmp/task_t1_/tts_1.mp3"];
  Generator.mixed_audio_files :=
    ["/tmp/task_t1_/mixed_0.mp3"; "/tmp/task_t1_/mixed_1.mp3"];
|}.
Definition small_world : World :=
  Eval vm_compute in
    (Generator.prepare (constant_server 200 "clip") default_settings "t1"
       small_request empty_world).2.

Definition small_result : Generator.Results * World :=
  Eval vm_compute in
    default (Generator.empty_results, empty_world)
      (Generator.generate_all (constant_server 200 "clip") default_settings
         (Generator.sequential_schedule 2) "t1" small_request true empty_world).

(** Later entries are not smaller than earlier ones. *)
Definition non_decreasing (l : list nat) : Prop :=
  ∀ i j a b, i ≤ j → l !! i = Some a → l !! j = Some b → a ≤ b.

(** The same environment with another outcome of the final render. *)
Definition with_render (render : Path → Path → Path → ffres) (env : Env) : Env := {|
  http_get := http_get env;
  open_wb_ok := open_wb_ok env;
  ffprobe := ffprobe env;
  copy2_ok := copy2_ok env;
  ffmpeg_demuxer := ffmpeg_demuxer env;
  ffmpeg_filter := ffmpeg_filter env;
  tts_client := tts_client env;
  tts_voices := tts_voices env;
  tts_convert := tts_convert env;
  tts_partial := tts_partial env;
  silence_error := silence_error env;
  ffmpeg_silence := ffmpeg_silence env;
  ffmpeg_mix := ffmpeg_mix env;
  ffmpeg_render := render;
  gcs_upload_ok := gcs_upload_ok env;
  mkdtemp_name := mkdtemp_name env;
|}.

(** Rendering fails for the first mix and succeeds for the others. *)
Definition first_mix_unusable : Env :=
  with_render
    (λ _ audio _, if bool_decide (audio = "/tmp/task_t1_/mixed_0.mp3")
                  then FfRes false None else FfRes true (Some "video"))
    (constant_server 200 "clip").


(** ** Vocabulary of the further properties *)

(** Whether [out] is on disk once a tool that answered [r] has run. *)
Definition output_present (out : Path) (r : ffres) (w : World) : bool :=
  path_exists (keep_output out (produced r) w) out.

(** Two clips with the same properties, and a stream copy that fails. *)
Definition same_properties : Env :=
  with_ffprobe (λ _, h264_30fps 1920 1080) (constant_server 200 "").
Definition with_demuxer (demuxer : list Path → Path → ffres) (env : Env) : Env := {|
  http_get := http_get env;
  open_wb_ok := open_wb_ok env;
  ffprobe := ffprobe env;
  copy2_ok := copy2_ok env;
  ffmpeg_demuxer := demuxer;
  ffmpeg_filter := ffmpeg_filter env;
  tts_client := tts_client env;
  tts_voices := tts_voices env;
  tts_convert := tts_convert env;
  tts_partial := tts_partial env;
  silence_error := silence_error env;
  ffmpeg_silence := ffmpeg_silence env;
  ffmpeg_mix := ffmpeg_mix env;
  ffmpeg_render := ffmpeg_render env;
  gcs_upload_ok := gcs_upload_ok env;
  mkdtemp_name := mkdtemp_name env;
|}.
Definition broken_demuxer : Env :=
  with_demuxer (λ _ _, FfRes false None) same_properties.

(** Whether [download_file] brings [url] to [dest]: the answer has status
    200, [dest] can be opened for writing and the body can be read. *)
Definition fetched (env : Env) (url : json) (dest : Path) (timeout : Z) : bool :=
  match http_get env url timeout with
  | HttpResponse status (Some _) => bool_decide (status = 200%Z) && open_wb_ok env dest
  | _ => false
  end.

(** The paths [process_video_block] and [download_all_audio] work on. *)
Definition video_path (temp_dir : Path) (block_name : string) (idx : nat) : Path :=
  path_join temp_dir (block_name +:+ "_video_" +:+ pretty idx +:+ ".mp4").
Definition concatenated_path (temp_dir : Path) (block_name : string) : Path :=
  path_join temp_dir (block_name +:+ "_concatenated.mp4").
Definition audio_path (temp_dir : Path) (idx : nat) : Path :=
  path_join temp_dir ("audio_" +:+ pretty idx +:+ ".mp3").

(** The body shared by the download loops of [process_video_block] and
    [download_all_audio]: item [idx] goes to [name idx], and a failed
    download raises [failure idx]. *)
Definition download_each (env : Env) (timeout : Z) (name : nat → Path)
    (failure : nat → exn) (idx : nat) (url : json) (acc : list Path)
    : M (list Path) :=
  ok <- Download.download_file env url (name idx) timeout ;;
  if ok then ret (acc ++ [name idx]) else raise (failure idx).

(** One [session.get] per URL. *)
Definition requests (timeout : Z) (urls : list json) : list event :=
  (λ url, EvHttpGet url timeout) <$> urls.

(** The world after a block of two clips has been processed. *)
Definition two_urls : list json := [JStr "http://host/v1.mp4"; JStr "http://host/v2.mp4"].
Definition block_processed : res Path * World :=
  Eval vm_compute in
    Generator.process_video_block (constant_server 200 "clip") default_settings
      two_urls "block1" "/tmp/t" empty_world.

(** The second URL of every list cannot be fetched. *)
Definition second_unreachable : Env :=
  with_http (λ url _, match url with
                      | JStr "http://host/v2.mp4" => HttpResponse 404 (Some "")
                      | _ => HttpResponse 200 (Some "clip")
                      end)
    (constant_server 200 "clip").

(** A speech backend that knows two voices and always answers. *)
Definition two_voices : Env :=
  with_speech true (Some [("Rachel", "id-rachel"); ("Adam", "id-adam")])
    (λ _ _ _, Some "speech") (λ _, Some "") (constant_server 200 "clip").

(** A voice line without its ["text"]. *)
Definition voice_without_text : json := JObj (<["voice" := JStr "X"]> ∅).

(** ** Vocabulary of the outcome of a render unit *)

Section outcome.
Context (env : Env) (cfg : Settings) (task_id : string) (p : Generator.prep).

(** The file a unit renders to, the blob it is uploaded as and the URL
    recorded for it. *)
Definition local_output_path (t : Generator.task) : Path :=
  path_join (Generator.temp_dir p) (Generator.variant_id task_id t +:+ ".mp4").
Definition gcs_path (t : Generator.task) : string :=
  task_id +:+ "/" +:+ Generator.variant_id task_id t +:+ ".mp4".
Definition public_url (t : Generator.task) : string :=
  "https://storage.googleapis.com/" +:+ gcs_bucket_name cfg +:+ "/" +:+ gcs_path t.

(** The render of a unit succeeds, and so does its upload. *)
Definition rendered (t : Generator.task) : bool :=
  exit_ok (ffmpeg_render env (Generator.base_video t) (Generator.mixed_audio t)
             (local_output_path t)).
Definition delivered (t : Generator.task) : bool :=
  rendered t && gcs_upload_ok env (local_output_path t) (gcs_path t).

(** The entries of [successful] and [failed] owed to the units [ts]. *)
Definition successful_entries (ts : list Generator.task) : list (string * string) :=
  (λ t, (url_key (Generator.variant_id task_id t), public_url t))
  <$> filter (λ t, delivered t = true) ts.
Definition failed_entries (ts : list Generator.task) : list string :=
  Generator.variant_id task_id <$> filter (λ t, delivered t = false) ts.

(** What the two result lists hold while the rendering stage, started
    with results [r0], is under way. *)
Definition outcome_inv (r0 : Generator.Results) (s : Generator.rstate) : Prop :=
  Generator.successful (Generator.results s)
  ≡ₚ Generator.successful r0
     ++ successful_entries (finished_tasks (Generator.make_tasks p) (Generator.phases s))
  ∧ Generator.failed (Generator.results s)
    ≡ₚ Generator.failed r0
       ++ failed_entries (finished_tasks (Generator.make_tasks p) (Generator.phases s))
  ∧ ∀ i t, Generator.make_tasks p !! i = Some t →
           Generator.phases s !! i = Some Generator.Uploading → rendered t = true.
End outcome.

(** Uploads fail for the second variant. *)
Definition with_upload (upload : Path → string → bool) (env : Env) : Env := {|
  http_get := http_get env;
  open_wb_ok := open_wb_ok env;
  ffprobe := ffprobe env;
  copy2_ok := copy2_ok env;
  ffmpeg_demuxer := ffmpeg_demuxer env;
  ffmpeg_filter := ffmpeg_filter env;
  tts_client := tts_client env;
  tts_voices := tts_voices env;
  tts_convert := tts_convert env;
  tts_partial := tts_partial env;
  silence_error := silence_error env;
  ffmpeg_silence := ffmpeg_silence env;
  ffmpeg_mix := ffmpeg_mix env;
  ffmpeg_render := ffmpeg_render env;
  gcs_upload_ok := upload;
  mkdtemp_name := mkdtemp_name env;
|}.
Definition second_upload_fails : Env :=
  with_upload (λ _ blob, negb (bool_decide (blob = "t1/t1_block1_v2.mp4")))
    (constant_server 200 "clip").

(** The run of [small_request] when the second upload fails. *)
Definition second_upload_result : Generator.Results * World :=
  Eval vm_compute in
    default (Generator.empty_results, empty_world)
      (Generator.generate_all second_upload_fails default_settings
         (Generator.sequential_schedule 2) "t1" small_request true empty_world).

(** Settings that allow no render at all, and a mixer that always fails. *)
Definition zero_jobs : Settings := {|
  max_concurrent_jobs := 0;
  download_timeout := 300;
  background_audio_volume := 0.2%float;
  voice_audio_volume := 0.8%float;
  gcs_bucket_name := "bucket";
|}.
Definition no_mixer : Env := {|
  http_get := λ _ _, HttpResponse 200 (Some "clip");
  open_wb_ok := λ _, true;
  ffprobe := λ _, None;
  copy2_ok := λ _ _, true;
  ffmpeg_demuxer := λ _ _, FfRes true (Some "");
  ffmpeg_filter := λ _ _ _ _, FfRes true (Some "");
  tts_client := false;
  tts_voices := None;
  tts_convert := λ _ _ _, None;
  tts_partial := λ _ _ _, None;
  silence_error := λ _, None;
  ffmpeg_silence := λ _, Some "";
  ffmpeg_mix := λ _ _ _, FfRes false None;
  ffmpeg_render := λ _ _ _, FfRes true (Some "");
  gcs_upload_ok := λ _ _, true;
  mkdtemp_name := λ prefix, "/tmp/" +:+ prefix;
|}.

(** The [ffmpeg] call [create_audio_mixes] makes for a pairing. *)
Definition mix_call (temp_dir : Path) (pairing : nat * (Path * Path)) : event :=
  EvMix pairing.2.1 pairing.2.2 (Generator.mixed_path temp_dir pairing.1).

(** The mixer fails on the second voice file. *)
Definition second_voice_unmixable : Env := {|
  http_get := λ _ _, HttpResponse 200 (Some "clip");
  open_wb_ok := λ _, true;
  ffprobe := λ _, None;
  copy2_ok := λ _ _, true;
  ffmpeg_demuxer := λ _ _, FfRes true (Some "");
  ffmpeg_filter := λ _ _ _ _, FfRes true (Some "");
  tts_client := false;
  tts_voices := None;
  tts_convert := λ _ _ _, None;
  tts_partial := λ _ _ _, None;
  silence_error := λ _, None;
  ffmpeg_silence := λ _, Some "";
  ffmpeg_mix := λ _ voice _, if bool_decide (voice = "/tmp/t/tts_1.mp3")
                             then FfRes false None else FfRes true (Some "mix");
  ffmpeg_render := λ _ _ _, FfRes true (Some "");
  gcs_upload_ok := λ _ _, true;
  mkdtemp_name := λ prefix, "/tmp/" +:+ prefix;
|}.

(** ** services/tts.py: the voices cache

    [TTSService.get_available_voices] with [self._voices_cache] made
    explicit.  [get_all] is what [client.voices.get_all()] answers if it
    is called now ([None]: it raises); the result is the dictionary
    returned, the new cache, and whether the backend was called. *)
Module TTSService.
Definition voices : Type := list (string * string).

(** [if self._voices_cache]: neither [None] nor empty. *)
Definition truthy (cache : option voices) : bool :=
  match cache with
  | Some (_ :: _) => true
  | _ => false
  end.

Definition get_available_voices (client : bool) (get_all : option voices)
    (_voices_cache : option voices) : voices * option voices * bool :=
  if truthy _voices_cache then (default [] _voices_cache, _voices_cache, false)
  else if negb client then ([], _voices_cache, false)
  else
    match get_all with
    | Some voices => (voices, Some voices, true)
    | None => ([], _voices_cache, true)
    end.

(** The cache after [n] calls that all get the same answer [get_all]. *)
Definition cache_after (client : bool) (get_all : option voices) (n : nat)
    : option voices :=
  Nat.iter n (λ cache, (get_available_voices client get_all cache).1.2) None.
End TTSService.

(** A request whose first block has two clips, the second out of reach. *)
Definition unreachable_clip_request : gmap string json :=
  <["block1" := JList [JStr "http://host/v1.mp4"; JStr "http://host/v2.mp4";
                       JStr "http://host/v3.mp4"]]>
  (<["audio1" := JList [JStr "http://host/a1.mp3"]]>
  (<["voice1" := JList [voice_hi]]> ∅)).

(** ** Environments and requests of the examples on failing tools *)

(** The same environment with another mixer. *)
Definition with_mix (mix : Path → Path → Path → ffres) (env : Env) : Env := {|
  http_get := http_get env;
  open_wb_ok := open_wb_ok env;
  ffprobe := ffprobe env;
  copy2_ok := copy2_ok env;
  ffmpeg_demuxer := ffmpeg_demuxer env;
  ffmpeg_filter := ffmpeg_filter env;
  tts_client := tts_client env;
  tts_voices := tts_voices env;
  tts_convert := tts_convert env;
  tts_partial := tts_partial env;
  silence_error := silence_error env;
  ffmpeg_silence := ffmpeg_silence env;
  ffmpeg_mix := mix;
  ffmpeg_render := ffmpeg_render env;
  gcs_upload_ok := gcs_upload_ok env;
  mkdtemp_name := mkdtemp_name env;
|}.

(** The mix with the second voice file of task ["t1"] fails. *)
Definition second_mix_fails : Env :=
  with_mix (λ _ voice _, if bool_decide (voice = "/tmp/task_t1_/tts_1.mp3")
                         then FfRes false None else FfRes true (Some "mix"))
    (constant_server 200 "clip").

(** [small_request] prepared with that mixer: two pairings, one mix. *)
Definition one_mix_prep : Generator.prep := {|
  Generator.temp_dir := "/tmp/task_t1_";
  Generator.base_videos := [("block1", "/tmp/task_t1_/block1_concatenated.mp4")];
  Generator.audio_files := ["/tmp/task_t1_/audio_0.mp3"];
  Generator.tts_files := ["/tmp/task_t1_/tts_0.mp3"; "/tmp/task_t1_/tts_1.mp3"];
  Generator.mixed_audio_files := ["/tmp/task_t1_/mixed_0.mp3"];
|}.
Definition one_mix_world : World :=
  Eval vm_compute in
    (Generator.prepare second_mix_fails default_settings "t1" small_request
       empty_world).2.
Definition one_mix_result : Generator.Results * World :=
  Eval vm_compute in
    default (Generator.empty_results, empty_world)
      (Generator.generate_all second_mix_fails default_settings
         (Generator.sequential_schedule 1) "t1" small_request true empty_world).





(** * Properties *)

(** ** Running monadic code *)

Lemma bind_ok {A B} (m : M A) (f : A → M B) w a w' :
  m w = (Ok a, w') → bind m f w = f a w'.
Proof. unfold bind. by intros ->. Qed.

Lemma bind_ok_inv {A B} (m : M A) (f : A → M B) w b w' :
  bind m f w = (Ok b, w') → ∃ a w1, m w = (Ok a, w1) ∧ f a w1 = (Ok b, w').
Proof.
  unfold bind. destruct (m w) as [[a|e] w1]; [eauto | discriminate].
Qed.

Lemma bind_raise {A B} (m : M A) (f : A → M B) w e w' :
  m w = (Raise e, w') → bind m f w = (Raise e, w').
Proof. unfold bind. by intros ->. Qed.

Lemma files_keep_output_ne out o w p :
  p ≠ out → files (keep_output out o w) !! p = files w !! p.
Proof. intros Hne. destruct o; simpl; [by rewrite lookup_insert_ne|done]. Qed.

(** ** services/download.py *)



(** ** services/video.py *)

Lemma trace_log e w : trace (log e w) = trace w ++ [e].
Proof. done. Qed.

Lemma trace_keep_output out o w : trace (keep_output out o w) = trace w.
Proof. by destruct o. Qed.

Lemma probe_all_run env video_paths w :
  Video.probe_all env video_paths w
  = (Ok (ffprobe env <$> video_paths),
     {| files := files w; dirs := dirs w;
        trace := trace w ++ (EvFfprobe <$> video_paths) |}).
Proof.
  revert w. induction video_paths as [|vp rest IH]; intros w; simpl.
  - unfold ret. rewrite app_nil_r. by destruct w.
  - unfold bind, Video.get_video_info, bind, emit, ret. rewrite IH. simpl.
    by rewrite <-app_assoc.
Qed.

Lemma compare_with_first_spec first rest :
  Video.compare_with_first first rest = true ↔ Forall (matches_first first) rest.
Proof.
  induction rest as [|info rest IH]; simpl.
  - split; [constructor | done].
  - rewrite Forall_cons. unfold matches_first at 1.
    repeat case_bool_decide; simpl; try (split; [done | naive_solver]).
    destruct (Video.fps_differs _ _) eqn:Hfps.
    + split; [done | naive_solver].
    + rewrite IH. split; [|naive_solver]. intros ?. split_and!; try done.
      all: match goal with |- ?a = ?b => by destruct (decide (a = b)) end.
Qed.

(** NTSC 29.97 fps against 30 fps is a mismatch; 30 against 30.005 is not. *)
Example fps_ntsc_differs :
  Video.fps_differs (30000 / 1001)%float 30%float = true.
Proof. reflexivity. Qed.

Example fps_close_enough :
  Video.fps_differs 30%float (6001 / 200)%float = false.
Proof. reflexivity. Qed.

Lemma check_videos_compatible_run env first second others w :
  Video.check_videos_compatible env (first :: second :: others) w
  = (Ok (Video.compare_with_first (ffprobe env first)
           (ffprobe env <$> second :: others)),
     {| files := files w; dirs := dirs w;
        trace := trace w ++ (EvFfprobe <$> first :: second :: others) |}).
Proof.
  unfold Video.check_videos_compatible.
  rewrite bool_decide_eq_false_2 by (simpl; lia).
  unfold bind. by rewrite probe_all_run.
Qed.


Lemma concatenate_videos_guard env video_paths output_path w :
  forallb (path_exists w) video_paths = false →
  Video.concatenate_videos env video_paths output_path w = (Ok false, w).
Proof.
  intros Hmissing. destruct video_paths as [|first others]; [done|].
  unfold Video.concatenate_videos, bind, gets. by rewrite Hmissing.
Qed.

(** C10: an empty list, or a list naming a file that is not on disk, makes
    [concatenate_videos] return [False] without raising and without
    touching the world: no probe, no copy, no fast path, no safe path. *)
Theorem concatenate_videos_rejects_missing (env : Env) (video_paths : list Path)
    (output_path : Path) (w : World) :
  video_paths = [] ∨ (∃ vp, vp ∈ video_paths ∧ path_exists w vp = false) →
  Video.concatenate_videos env video_paths output_path w = (Ok false, w).
Proof.
  intros [->|(vp & Hin & Hmissing)]; [done|].
  apply concatenate_videos_guard, not_true_iff_false. intros Hall.
  rewrite forallb_forall in Hall. apply list_elem_of_In, Hall in Hin. congruence.
Qed.

Lemma concatenate_videos_rejects_missing_witness :
  Video.concatenate_videos mixed_resolutions
    ["/clips/a.mp4"; "/clips/c.mp4"] "/clips/out.mp4" two_clips
  = (Ok false, two_clips).
Proof.
  apply concatenate_videos_rejects_missing. right. exists "/clips/c.mp4".
  split; [|reflexivity]. apply list_elem_of_In. simpl. tauto.
Defined.



(** ** services/generator.py: [parse_blocks] *)

Lemma indexed_key_inj family : Inj (=) (=) (indexed_key family).
Proof.
  intros i j Heq. unfold indexed_key in Heq.
  by apply (inj (String.app family)), (inj pretty) in Heq.
Qed.

(** A run of present keys cannot be longer than the dictionary. *)
Lemma present_run_bounded family (data : gmap string json) i n :
  (∀ j, j < n → is_Some (data !! indexed_key family (i + j))) → n ≤ size data.
Proof.
  intros Hpresent.
  set (keys := (λ j, indexed_key family (i + j)) <$> seq 0 n).
  assert (NoDup keys) as Hnodup.
  { apply NoDup_fmap_2; [|apply NoDup_seq].
    intros j1 j2 Heq. apply indexed_key_inj in Heq. lia. }
  assert (list_to_set keys ⊆ dom data) as Hsub.
  { intros k. rewrite elem_of_list_to_set. unfold keys.
    rewrite list_elem_of_fmap. intros (j & -> & Hj%elem_of_seq).
    apply elem_of_dom, Hpresent. lia. }
  apply subseteq_size in Hsub.
  rewrite size_list_to_set, size_dom in Hsub by done.
  unfold keys in Hsub. by rewrite length_fmap, length_seq in Hsub.
Qed.

Lemma while_key_run {A} family data (body : json → A → A) fuel i acc :
  ∃ vs,
    (∀ j, j < length vs → data !! indexed_key family (i + j) = vs !! j) ∧
    length vs ≤ fuel ∧
    (length vs < fuel → data !! indexed_key family (i + length vs) = None) ∧
    Generator.while_key family data body fuel i acc = foldl (λ a v, body v a) acc vs.
Proof.
  revert i acc. induction fuel as [|fuel IH]; intros i acc; simpl.
  { exists []. simpl. split_and!; [lia | lia | lia | done]. }
  destruct (data !! indexed_key family i) as [v|] eqn:Hkey.
  - destruct (IH (S i) (body v acc)) as (vs & Hvs & Hlen & Hstop & Hrun).
    exists (v :: vs). simpl. split_and!.
    + intros [|j] Hj; simpl.
      * by rewrite Nat.add_0_r.
      * rewrite <-Hvs by lia. f_equal. f_equal. lia.
    + lia.
    + intros Hlt. rewrite <-Hstop by lia. f_equal. f_equal. lia.
    + done.
  - exists []. simpl. split_and!; [lia | lia | | done].
    intros _. by rewrite Nat.add_0_r.
Qed.

(** With [S (size data)] rounds the loop always leaves through a missing key. *)
Lemma while_key_scanned {A} family data (body : json → A → A) acc :
  ∃ vs, scanned family data vs ∧
        Generator.while_key family data body (S (size data)) 1 acc
        = foldl (λ a v, body v a) acc vs.
Proof.
  destruct (while_key_run family data body (S (size data)) 1 acc)
    as (vs & Hvs & Hlen & Hstop & Hrun).
  exists vs. split; [|done]. split; [done|]. apply Hstop.
  assert (length vs ≤ size data); [|lia].
  apply (present_run_bounded family data 1). intros j Hj.
  rewrite Hvs by done. by apply lookup_lt_is_Some.
Qed.

Lemma foldl_keep_block vs acc :
  foldl (λ a v, Generator.keep_block v a) acc vs = acc ++ omap nonempty_list vs.
Proof.
  revert acc. induction vs as [|v vs IH]; intros acc; simpl.
  - by rewrite app_nil_r.
  - rewrite IH. destruct v as [| | | | |[|x l]|]; simpl; try done.
    by rewrite <-app_assoc.
Qed.

Lemma foldl_extend_list vs acc :
  foldl (λ a v, Generator.extend_list v a) acc vs = acc ++ mjoin (list_items <$> vs).
Proof.
  revert acc. induction vs as [|v vs IH]; intros acc; simpl.
  - by rewrite app_nil_r.
  - rewrite IH. destruct v; simpl; try done. by rewrite <-app_assoc.
Qed.

Example parse_small_request :
  Generator.parse_blocks small_request
  = ([[JStr "http://host/v1.mp4"; JStr "http://host/v2.mp4"]],
     [JStr "http://host/a1.mp3"],
     [voice_hi; voice_bye]).
Proof. reflexivity. Qed.

(** C6, as stated, fails: [block1] is an empty list, scanning goes on, and
    [block2], which comes after it, is retained. *)
Lemma parse_blocks_keeps_block_after_empty :
  empty_then_full !! indexed_key "block" 1 = Some (JList []) ∧
  empty_then_full !! indexed_key "block" 2 = Some (JList [JStr "http://host/u.mp4"]) ∧
  (Generator.parse_blocks empty_then_full).1.1 = [[JStr "http://host/u.mp4"]].
Proof. split_and!; reflexivity. Qed.

(** C6 (amended): each family is scanned at the indices 1, 2, ... and the
    scan stops at the first index whose key is missing, and only there; an
    entry that is an empty list, or not a list, contributes nothing and
    does not stop the scan.  The blocks are the non-empty lists among the
    scanned [block{i}] entries, the audio URLs and the voice lines are the
    items of the scanned [audio{i}] and [voice{i}] lists, in index order. *)
Theorem parse_blocks_scans_to_first_missing (data : gmap string json) :
  ∃ blocks audios voices,
    scanned "block" data blocks ∧
    scanned "audio" data audios ∧
    scanned "voice" data voices ∧
    Generator.parse_blocks data
    = (omap nonempty_list blocks,
       mjoin (list_items <$> audios),
       mjoin (list_items <$> voices)).
Proof.
  unfold Generator.parse_blocks.
  destruct (while_key_scanned "block" data Generator.keep_block [])
    as (blocks & Hblocks & ->).
  destruct (while_key_scanned "audio" data Generator.extend_list [])
    as (audios & Haudios & ->).
  destruct (while_key_scanned "voice" data Generator.extend_list [])
    as (voices & Hvoices & ->).
  exists blocks, audios, voices. split_and!; try done.
  by rewrite foldl_keep_block, !foldl_extend_list.
Qed.

(** ** The pipeline stages neither report progress nor clean up *)

Lemma progress_log_app tr1 tr2 :
  progress_log (tr1 ++ tr2) = progress_log tr1 ++ progress_log tr2.
Proof. apply omap_app. Qed.

Lemma blind_progress_of : blind_to_pipeline progress_of.
Proof. by intros []. Qed.

Lemma blind_rmtree_of : blind_to_pipeline rmtree_of.
Proof. by intros []. Qed.

Lemma dirs_keep_output out o w : dirs (keep_output out o w) = dirs w.
Proof. by destruct o. Qed.

Section pipeline_stages.
Context {B : Type} (f : event → option B) (Hblind : blind_to_pipeline f).

Lemma silent_ret {A} (a : A) : silent f (ret a).
Proof. done. Qed.

Lemma silent_raise {A} e : silent f (@raise A e).
Proof. done. Qed.

Lemma silent_gets {A} (g : World → A) : silent f (gets g).
Proof. done. Qed.

Lemma silent_lift_exn {A} (x : exn + A) : silent f (lift_exn x).
Proof. by destruct x. Qed.

Lemma silent_bind {A A'} (m : M A) (k : A → M A') :
  silent f m → (∀ a, silent f (k a)) → silent f (bind m k).
Proof.
  intros Hm Hk w. unfold bind. destruct (Hm w) as [Htrace Hdirs].
  destruct (m w) as [[a|e] w1]; simpl in *; [|done].
  destruct (Hk a w1) as [Htrace' Hdirs']. split; [congruence | set_solver].
Qed.

Lemma silent_modify (g : World → World) :
  (∀ w, trace (g w) = trace w ∧ dirs w ⊆ dirs (g w)) → silent f (modify g).
Proof. intros Hg w. simpl. destruct (Hg w) as [-> ?]. done. Qed.

Lemma silent_emit e : pipeline_event e = true → silent f (emit e).
Proof.
  intros He w. simpl. rewrite omap_app. simpl. rewrite (Hblind e He).
  by rewrite app_nil_r.
Qed.

Lemma silent_for_enumerate {A St} (body : nat → A → St → M St) idx xs acc :
  (∀ i x a, silent f (body i x a)) → silent f (for_enumerate body idx xs acc).
Proof.
  intros Hbody. revert idx acc.
  induction xs as [|x xs IH]; intros idx acc; simpl.
  - apply silent_ret.
  - by apply silent_bind.
Qed.

Lemma silent_lift_total {A} (g : World → A * World) :
  (∀ w, omap f (trace (g w).2) = omap f (trace w) ∧ dirs w ⊆ dirs (g w).2) →
  silent f (Generator.lift_total g).
Proof.
  intros Hg w. unfold Generator.lift_total. specialize (Hg w).
  by destruct (g w).
Qed.

Create HintDb silent discriminated.
#[local] Hint Resolve silent_ret silent_raise silent_gets silent_lift_exn : silent.

(** Walks through a computation built from [bind], tests and the basic
    commands. *)
Ltac silent_step :=
  match goal with
  | |- silent _ (bind _ _) => apply silent_bind; [|intros]
  | |- silent _ (emit _) => apply silent_emit; reflexivity
  | |- silent _ (modify _) =>
      apply silent_modify; intros; split;
      [first [done | apply trace_keep_output]
      |first [done | by rewrite dirs_keep_output | set_solver]]
  | |- silent _ (for_enumerate _ _ _ _) => apply silent_for_enumerate; intros
  | |- silent _ (if ?b then _ else _) => destruct b
  | |- silent _ (match ?x with _ => _ end) => destruct x
  | |- silent _ _ => solve [auto with silent]
  end.
Ltac silent_auto := repeat silent_step.

Lemma silent_download_file env url dest_path timeout :
  silent f (Download.download_file env url dest_path timeout).
Proof. unfold Download.download_file. silent_auto. Qed.

Lemma silent_get_video_info env p : silent f (Video.get_video_info env p).
Proof. unfold Video.get_video_info. silent_auto. Qed.
#[local] Hint Resolve silent_download_file silent_get_video_info : silent.

Lemma silent_probe_all env video_paths : silent f (Video.probe_all env video_paths).
Proof. induction video_paths; simpl; silent_auto. Qed.
#[local] Hint Resolve silent_probe_all : silent.

Lemma silent_concatenate_videos env video_paths output_path :
  silent f (Video.concatenate_videos env video_paths output_path).
Proof.
  unfold Video.concatenate_videos, Video.check_videos_compatible,
    Video.concatenate_with_demuxer, Video.concatenate_with_filter, Video.copy2.
  silent_auto.
Qed.

Lemma silent_generate_speech env text voice output_path :
  silent f (Tts.generate_speech env text voice output_path).
Proof. unfold Tts.generate_speech. silent_auto. Qed.
#[local] Hint Resolve silent_concatenate_videos silent_generate_speech : silent.

Lemma silent_process_video_block env cfg video_urls block_name temp_dir :
  silent f (Generator.process_video_block env cfg video_urls block_name temp_dir).
Proof. unfold Generator.process_video_block, Generator.unlink. silent_auto. Qed.

Lemma silent_download_all_audio env cfg audio_urls temp_dir :
  silent f (Generator.download_all_audio env cfg audio_urls temp_dir).
Proof. unfold Generator.download_all_audio. silent_auto. Qed.

Lemma silent_generate_all_tts env voice_configs temp_dir :
  silent f (Generator.generate_all_tts env voice_configs temp_dir).
Proof.
  unfold Generator.generate_all_tts, Generator.silent_audio. silent_auto.
Qed.

Lemma silent_create_audio_mixes env audio_files tts_files temp_dir :
  silent f (Generator.create_audio_mixes env audio_files tts_files temp_dir).
Proof.
  unfold Generator.create_audio_mixes. apply silent_for_enumerate.
  intros i [audio tts] acc. apply silent_bind; [|intros []; apply silent_ret].
  apply silent_lift_total. intros w. unfold Generator.mix_audio_tracks. simpl.
  rewrite trace_keep_output, dirs_keep_output. simpl.
  rewrite omap_app. simpl.
  rewrite (Hblind (EvMix audio tts (Generator.mixed_path temp_dir i)) eq_refl).
  by rewrite app_nil_r.
Qed.
#[local] Hint Resolve silent_process_video_block silent_download_all_audio
  silent_generate_all_tts silent_create_audio_mixes : silent.

(** The stages after the creation of the task directory. *)
Lemma silent_stages env cfg video_blocks audio_urls voice_configs temp_dir :
  silent f (Generator.stages env cfg video_blocks audio_urls voice_configs temp_dir).
Proof. unfold Generator.stages. silent_auto. Qed.
#[local] Hint Resolve silent_stages : silent.

Lemma silent_prepare env cfg task_id data :
  silent f (Generator.prepare env cfg task_id data).
Proof.
  unfold Generator.prepare, Generator.mkdtemp.
  destruct (Generator.parse_blocks data) as [[video_blocks audio_urls] voice_configs].
  silent_auto.
Qed.
End pipeline_stages.

(** ** Loops that collect one item per round *)

(** A body that, on the inputs satisfying [P], never raises and appends
    [item idx]; [Q idx] speaks about the events of round [idx]. *)
Lemma for_enumerate_collect {A B} (body : nat → A → list B → M (list B))
    (item : nat → B) (P : A → Prop) (Q : nat → list event → Prop) xs :
  (∀ idx x acc w, P x →
     ∃ w' evs, body idx x acc w = (Ok (acc ++ [item idx]), w') ∧
               trace w' = trace w ++ evs ∧ Q idx evs) →
  (∀ idx pre evs post, Q idx evs → Q idx (pre ++ evs ++ post)) →
  Forall P xs →
  ∀ idx acc w,
    ∃ w' evs,
      for_enumerate body idx xs acc w
      = (Ok (acc ++ (item <$> seq idx (length xs))), w') ∧
      trace w' = trace w ++ evs ∧
      ∀ j, idx ≤ j < idx + length xs → Q j evs.
Proof.
  intros Hbody Hmono HP. induction HP as [|x xs Hx _ IH]; intros idx acc w.
  - exists w, []. simpl. rewrite !app_nil_r. split_and!; [done..|]. lia.
  - destruct (Hbody idx x acc w Hx) as (w1 & evs1 & Hrun1 & Htr1 & HQ1).
    destruct (IH (S idx) (acc ++ [item idx]) w1) as (w2 & evs2 & Hrun2 & Htr2 & HQ2).
    exists w2, (evs1 ++ evs2). simpl. split_and!.
    + rewrite (bind_ok _ _ _ _ _ Hrun1), Hrun2. by rewrite <-app_assoc.
    + by rewrite Htr2, Htr1, <-app_assoc.
    + intros j Hj. destruct (decide (j = idx)) as [->|Hne].
      * specialize (Hmono idx [] evs1 evs2 HQ1). done.
      * specialize (Hmono j evs1 evs2 [] (HQ2 j ltac:(lia))).
        by rewrite app_nil_r in Hmono.
Qed.

(** When each successful round appends exactly one item, a successful loop
    has appended one item per input. *)
Lemma for_enumerate_length {A B} (body : nat → A → list B → M (list B)) xs :
  (∀ idx x acc w acc' w', body idx x acc w = (Ok acc', w') →
     length acc' = S (length acc)) →
  ∀ idx acc w r w',
    for_enumerate body idx xs acc w = (Ok r, w') →
    length r = length acc + length xs.
Proof.
  intros Hbody. induction xs as [|x xs IH]; intros idx acc w r w' Hrun; simpl in *.
  - unfold ret in Hrun. simplify_eq. lia.
  - apply bind_ok_inv in Hrun as (acc1 & w1 & Hstep & Hrest).
    apply Hbody in Hstep. apply IH in Hrest. lia.
Qed.

(** ** services/generator.py: speech synthesis *)

Lemma chars_app s1 s2 :
  String.list_ascii_of_string (s1 +:+ s2)
  = String.list_ascii_of_string s1 ++ String.list_ascii_of_string s2.
Proof. induction s1 as [|c s1 IH]; simpl; [done|]. by rewrite IH. Qed.

Lemma chars_inj s1 s2 :
  String.list_ascii_of_string s1 = String.list_ascii_of_string s2 → s1 = s2.
Proof.
  intros Heq. rewrite <-(String.string_of_list_ascii_of_string s1),
    <-(String.string_of_list_ascii_of_string s2). by rewrite Heq.
Qed.

Lemma tts_path_inj temp_dir : Inj (=) (=) (Generator.tts_path temp_dir).
Proof.
  intros i j Heq. unfold Generator.tts_path, path_join in Heq.
  apply (f_equal String.list_ascii_of_string) in Heq. rewrite !chars_app in Heq.
  do 3 apply app_inv_head in Heq. apply app_inv_tail in Heq.
  by apply chars_inj, (inj pretty) in Heq.
Qed.

Lemma get_voice_id_string env voice :
  ∃ voice_id, Tts.get_voice_id env (JStr voice) = inr voice_id.
Proof.
  unfold Tts.get_voice_id.
  destruct (Tts.get_available_voices env) as [|[first_name first_id] voices];
    simpl; eauto.
Qed.

(** What [generate_speech] does for a voice given as a string. *)
Lemma generate_speech_outcome env text voice output_path w :
  ∃ w' evs,
    Tts.generate_speech env text (JStr voice) output_path w
    = (Ok (bool_decide (is_Some (synthesis env text voice output_path))), w') ∧
    trace w' = trace w ++ evs ∧
    (∀ e, e ∈ evs → ∃ voice_id, e = EvTts text voice_id output_path) ∧
    (∀ q, q ≠ output_path → files w' !! q = files w !! q) ∧
    (∀ voice_id audio,
       synthesis env text voice output_path = Some (voice_id, audio) →
       evs = [EvTts text voice_id output_path] ∧
       files w' = <[output_path := audio]> (files w)).
Proof.
  unfold Tts.generate_speech, synthesis.
  destruct (tts_client env); simpl.
  2: { exists w, []. rewrite app_nil_r. split_and!; try done.
       intros e He. by apply elem_of_nil in He. }
  destruct (get_voice_id_string env voice) as [[vid|] ->]; simpl.
  2: { exists w, []. rewrite app_nil_r. split_and!; try done.
       intros e He. by apply elem_of_nil in He. }
  unfold bind at 1. simpl. case_bool_decide as Hempty.
  { exists w, []. rewrite app_nil_r. split_and!; try done.
    intros e He. by apply elem_of_nil in He. }
  unfold bind, emit, modify, ret.
  destruct (tts_convert env text vid output_path) as [audio|] eqn:Hconvert; simpl.
  - eexists _, [EvTts text vid output_path]. split_and!; try done.
    + intros e ->%list_elem_of_singleton. eauto.
    + intros q Hq. simpl. by rewrite lookup_insert_ne.
    + by intros ?? [= <- <-].
  - eexists _, [EvTts text vid output_path]. split_and!; try done.
    + by rewrite trace_keep_output.
    + intros e ->%list_elem_of_singleton. eauto.
    + intros q Hq.
      destruct (tts_partial env text vid output_path); simpl; [|done].
      by rewrite lookup_insert_ne.
Qed.

Lemma voice_round_unfold env temp_dir idx m text voice acc w :
  m !! "text" = Some (JStr text) → m !! "voice" = Some (JStr voice) →
  voice_round env temp_dir idx (JObj m) acc w
  = bind (Tts.generate_speech env (JStr text) (JStr voice)
            (Generator.tts_path temp_dir idx))
      (λ success,
         (if negb success
          then Generator.silent_audio env (Generator.tts_path temp_dir idx)
          else ret tt) ;;;
         ret (acc ++ [Generator.tts_path temp_dir idx])) w.
Proof.
  intros Htext Hvoice. unfold voice_round. cbn [subscript].
  by rewrite Htext, Hvoice.
Qed.

(** One round of the loop, for a well-formed voice line. *)
Lemma voice_round_run env temp_dir idx m text voice acc w :
  m !! "text" = Some (JStr text) → m !! "voice" = Some (JStr voice) →
  let voice_path := Generator.tts_path temp_dir idx in
  ∃ w1 evs1,
    trace w1 = trace w ++ evs1 ∧
    (∀ e, e ∈ evs1 → voice_event temp_dir idx e) ∧
    (∀ q, q ≠ voice_path → files w1 !! q = files w !! q) ∧
    match synthesis env (JStr text) voice voice_path with
    | Some (voice_id, audio) =>
        voice_round env temp_dir idx (JObj m) acc w = (Ok (acc ++ [voice_path]), w1) ∧
        evs1 = [EvTts (JStr text) voice_id voice_path] ∧
        files w1 !! voice_path = Some audio
    | None =>
        match silence_error env voice_path with
        | None =>
            voice_round env temp_dir idx (JObj m) acc w
            = (Ok (acc ++ [voice_path]), w1) ∧
            EvSilence voice_path 1 ∈ evs1 ∧
            ∀ clip, ffmpeg_silence env voice_path = Some clip →
                    files w1 !! voice_path = Some clip
        | Some e => voice_round env temp_dir idx (JObj m) acc w = (Raise e, w1)
        end
    end.
Proof.
  intros Htext Hvoice voice_path.
  rewrite (voice_round_unfold env temp_dir idx m text voice acc w Htext Hvoice).
  fold voice_path.
  destruct (generate_speech_outcome env (JStr text) voice voice_path w)
    as (w1 & evs1 & Hspeech & Htrace & Hevents & Hframe & Hspoken).
  rewrite (bind_ok _ _ _ _ _ Hspeech).
  destruct (synthesis env (JStr text) voice voice_path) as [[voice_id audio]|]
    eqn:Hsynthesis.
  - rewrite bool_decide_eq_true_2 by done. cbn [negb].
    destruct (Hspoken voice_id audio eq_refl) as [-> Hfiles].
    exists w1, [EvTts (JStr text) voice_id voice_path]. split_and!; try done.
    + intros e ->%list_elem_of_singleton. left. eauto.
    + rewrite Hfiles. apply lookup_insert_eq.
  - rewrite bool_decide_eq_false_2 by (by intros [? ?]). cbn [negb].
    unfold Generator.silent_audio, bind, emit, modify, raise, ret.
    destruct (silence_error env voice_path) as [e|]; simpl.
    + exists (log (EvSilence voice_path 1) w1), (evs1 ++ [EvSilence voice_path 1]).
      split_and!; try done.
      * simpl. by rewrite Htrace, <-app_assoc.
      * intros e' [He'| ->%list_elem_of_singleton]%elem_of_app; [|by right].
        destruct (Hevents e' He') as [voice_id ->]. left. eauto.
    + exists (keep_output voice_path (ffmpeg_silence env voice_path)
                (log (EvSilence voice_path 1) w1)),
        (evs1 ++ [EvSilence voice_path 1]). split_and!.
      * rewrite trace_keep_output. simpl. by rewrite Htrace, <-app_assoc.
      * intros e' [He'| ->%list_elem_of_singleton]%elem_of_app; [|by right].
        destruct (Hevents e' He') as [voice_id ->]. left. eauto.
      * intros q Hq. rewrite files_keep_output_ne by done. by apply Hframe.
      * done.
      * rewrite elem_of_app, list_elem_of_singleton. by right.
      * intros clip ->. simpl. apply lookup_insert_eq.
Qed.

Lemma voice_line_at_cons line voice_configs k text voice :
  voice_line_at voice_configs k text voice →
  voice_line_at (line :: voice_configs) (S k) text voice.
Proof. intros (m & ? & ? & ?). by exists m. Qed.

(** A line that was served stays served when rounds for other lines are
    put before it. *)
Lemma voice_line_served_later env temp_dir evs1 evs2 w idx j text voice :
  (∀ e, e ∈ evs1 → voice_event temp_dir idx e) → idx ≠ j →
  voice_line_served env temp_dir evs2 w j text voice →
  voice_line_served env temp_dir (evs1 ++ evs2) w j text voice.
Proof.
  intros Hevs1 Hne. unfold voice_line_served.
  assert (∀ seconds,
            EvSilence (Generator.tts_path temp_dir j) seconds ∉ evs1) as Hquiet.
  { intros seconds Hin. destruct (Hevs1 _ Hin) as [(? & ? & ?)|Heq]; [done|].
    simplify_eq. destruct Hne. by eapply tts_path_inj. }
  destruct (synthesis _ _ _ _) as [[voice_id audio]|].
  - intros (Hin & Hno & Hfile). split_and!; [|intros seconds|done].
    + apply elem_of_app. by right.
    + rewrite elem_of_app. intros [?|?]; [by eapply Hquiet | by eapply Hno].
  - intros (Hin & Hone & Hfile). split_and!; [|intros seconds|done].
    + apply elem_of_app. by right.
    + rewrite elem_of_app. intros [?|?]; [by destruct (Hquiet seconds) | by apply Hone].
Qed.

(** The loop of [generate_all_tts] from index [idx0] on. *)
Lemma generate_all_tts_from env temp_dir voice_configs idx0 acc w :
  Forall voice_line voice_configs →
  (∀ k text voice,
     voice_line_at voice_configs k text voice →
     synthesis env (JStr text) voice (Generator.tts_path temp_dir (idx0 + k)) = None →
     silence_error env (Generator.tts_path temp_dir (idx0 + k)) = None) →
  ∃ w' evs,
    for_enumerate (voice_round env temp_dir) idx0 voice_configs acc w
    = (Ok (acc ++ (Generator.tts_path temp_dir <$> seq idx0 (length voice_configs))),
       w') ∧
    trace w' = trace w ++ evs ∧
    (∀ e, e ∈ evs → ∃ k, k < length voice_configs ∧ voice_event temp_dir (idx0 + k) e) ∧
    (∀ q, (∀ k, k < length voice_configs → q ≠ Generator.tts_path temp_dir (idx0 + k)) →
          files w' !! q = files w !! q) ∧
    (∀ k text voice,
       voice_line_at voice_configs k text voice →
       voice_line_served env temp_dir evs w' (idx0 + k) text voice).
Proof.
  intros Hwf. revert idx0 acc w.
  induction Hwf as [|line voice_configs (m & text & voice & -> & Htext & Hvoice) _ IH];
    intros idx0 acc w Hsilence.
  { exists w, []. simpl. unfold ret. rewrite !app_nil_r. split_and!; try done.
    - intros e He. by apply elem_of_nil in He.
    - intros k t v (m & Hk & _). done. }
  destruct (voice_round_run env temp_dir idx0 m text voice acc w Htext Hvoice)
    as (w1 & evs1 & Htrace1 & Hevents1 & Hframe1 & Hround).
  cbv zeta in Hround.
  assert (silence_error env (Generator.tts_path temp_dir idx0) = None
          ∨ is_Some (synthesis env (JStr text) voice (Generator.tts_path temp_dir idx0)))
    as Hstarts.
  { destruct (synthesis env (JStr text) voice (Generator.tts_path temp_dir idx0))
      eqn:Hsynthesis; [right; by eexists|left].
    specialize (Hsilence 0 text voice). rewrite Nat.add_0_r in Hsilence.
    apply Hsilence; [by exists m | done]. }
  destruct (IH (S idx0) (acc ++ [Generator.tts_path temp_dir idx0]) w1)
    as (w' & evs2 & Hrest & Htrace2 & Hevents2 & Hframe2 & Hserved2).
  { intros k t v Hk. replace (S idx0 + k) with (idx0 + S k) by lia.
    apply Hsilence. by apply voice_line_at_cons. }
  assert (voice_round env temp_dir idx0 (JObj m) acc w
          = (Ok (acc ++ [Generator.tts_path temp_dir idx0]), w1)) as Hstep.
  { destruct (synthesis env (JStr text) voice (Generator.tts_path temp_dir idx0))
      as [[voice_id audio]|]; [by destruct Hround|].
    destruct Hstarts as [Hnone|[? ?]]; [|done]. rewrite Hnone in Hround.
    by destruct Hround. }
  assert (∀ seconds, EvSilence (Generator.tts_path temp_dir idx0) seconds ∉ evs2)
    as Hquiet2.
  { intros seconds Hin. destruct (Hevents2 _ Hin) as (k & _ & [(? & ? & ?)|Heq]);
      [done|].
    simplify_eq. assert (idx0 = S idx0 + k) by (by eapply tts_path_inj). lia. }
  assert (files w' !! Generator.tts_path temp_dir idx0
          = files w1 !! Generator.tts_path temp_dir idx0) as Hkept.
  { apply Hframe2. intros k _ Heq.
    assert (idx0 = S idx0 + k) by (by eapply tts_path_inj). lia. }
  exists w', (evs1 ++ evs2). split_and!.
  - cbn [for_enumerate]. rewrite (bind_ok _ _ _ _ _ Hstep), Hrest.
    cbn [length seq fmap list_fmap]. by rewrite <-app_assoc.
  - by rewrite Htrace2, Htrace1, <-app_assoc.
  - intros e [He|He]%elem_of_app.
    + exists 0. rewrite Nat.add_0_r. split; [simpl; lia | by apply Hevents1].
    + destruct (Hevents2 e He) as (k & Hk & Hevent). exists (S k).
      replace (idx0 + S k) with (S idx0 + k) by lia. split; [simpl; lia | done].
  - intros q Hq. rewrite Hframe2.
    + apply Hframe1. specialize (Hq 0). rewrite Nat.add_0_r in Hq.
      apply Hq. simpl. lia.
    + intros k Hk. replace (S idx0 + k) with (idx0 + S k) by lia.
      apply Hq. simpl. lia.
  - intros [|k] t v (m' & Hk & Htext' & Hvoice').
    + simpl in Hk. simplify_eq. rewrite Nat.add_0_r. unfold voice_line_served.
      destruct (synthesis env (JStr text) voice (Generator.tts_path temp_dir idx0))
        as [[voice_id audio]|].
      * destruct Hround as (_ & -> & Hfile). split_and!.
        -- apply elem_of_app. left. by apply list_elem_of_singleton.
        -- intros seconds [Hin|Hin]%elem_of_app; [|by eapply Hquiet2].
           by apply list_elem_of_singleton in Hin.
        -- by rewrite Hkept.
      * destruct Hstarts as [Hnone|[? ?]]; [|done]. rewrite Hnone in Hround.
        destruct Hround as (_ & Hin & Hfile). split_and!.
        -- apply elem_of_app. by left.
        -- intros seconds [Hs|Hs]%elem_of_app; [|by destruct (Hquiet2 seconds)].
           destruct (Hevents1 _ Hs) as [(? & ? & ?)|?]; by simplify_eq.
        -- intros clip Hclip. rewrite Hkept. by apply Hfile.
    + replace (idx0 + S k) with (S idx0 + k) by lia.
      apply voice_line_served_later with (idx := idx0); [done | lia |].
      apply Hserved2. by exists m'.
Qed.

(** [generate_all_tts] on well-formed voice lines, when the silent clip
    can be asked for wherever it is needed. *)
Lemma generate_all_tts_served env voice_configs temp_dir w :
  Forall voice_line voice_configs →
  silence_can_start env temp_dir voice_configs →
  ∃ w' evs,
    Generator.generate_all_tts env voice_configs temp_dir w
    = (Ok (Generator.tts_path temp_dir <$> seq 0 (length voice_configs)), w') ∧
    trace w' = trace w ++ evs ∧
    (∀ e, e ∈ evs → ∃ k, k < length voice_configs ∧ voice_event temp_dir k e) ∧
    (∀ q, (∀ k, k < length voice_configs → q ≠ Generator.tts_path temp_dir k) →
          files w' !! q = files w !! q) ∧
    (∀ k text voice,
       voice_line_at voice_configs k text voice →
       voice_line_served env temp_dir evs w' k text voice).
Proof.
  intros Hwf Hsilence.
  exact (generate_all_tts_from env temp_dir voice_configs 0 [] w Hwf Hsilence).
Qed.

(** ** services/generator.py: the mix matrix *)

Lemma enumerate_from_cons {A} start (x : A) xs :
  enumerate_from start (x :: xs) = (start, x) :: enumerate_from (S start) xs.
Proof. done. Qed.

Lemma length_enumerate_from {A} start (xs : list A) :
  length (enumerate_from start xs) = length xs.
Proof.
  unfold enumerate_from. rewrite length_zip_with, length_seq. lia.
Qed.

Lemma length_product audio_files tts_files :
  length (Generator.product audio_files tts_files)
  = length audio_files * length tts_files.
Proof.
  unfold Generator.product. induction audio_files as [|a rest IH]; [done|].
  simpl. rewrite length_app, length_fmap. unfold mbind in IH. by rewrite IH.
Qed.

Lemma length_pairings audio_files tts_files :
  length (pairings audio_files tts_files) = length audio_files * length tts_files.
Proof. unfold pairings. by rewrite length_enumerate_from, length_product. Qed.

Lemma length_filter_eq_iff {A} (P : A → Prop) `{!∀ x, Decision (P x)} (l : list A) :
  length (filter P l) = length l ↔ Forall P l.
Proof.
  induction l as [|x l IH].
  - split; [constructor | done].
  - rewrite filter_cons, Forall_cons. pose proof (length_filter P l).
    case_decide; simpl; [rewrite <-IH|]; split; try lia; naive_solver lia.
Qed.

Lemma create_audio_mixes_from env temp_dir combinations idx acc w :
  ∃ w',
    for_enumerate (λ idx '(audio, tts) mixed_audio_files,
      let mixed_path := Generator.mixed_path temp_dir idx in
      success <- Generator.lift_total
                   (Generator.mix_audio_tracks env audio tts mixed_path) ;;
      if success then ret (mixed_audio_files ++ [mixed_path])
      else ret mixed_audio_files)
      idx combinations acc w
    = (Ok (acc ++ ((λ a, Generator.mixed_path temp_dir a.1)
                   <$> filter (mix_succeeds env temp_dir)
                         (enumerate_from idx combinations))), w').
Proof.
  revert idx acc w.
  induction combinations as [|[audio tts] rest IH]; intros idx acc w.
  - exists w. simpl. by rewrite app_nil_r.
  - rewrite enumerate_from_cons.
    cbn [for_enumerate]. unfold bind at 1, Generator.lift_total at 1.
    unfold Generator.mix_audio_tracks at 1.
    destruct (exit_ok (ffmpeg_mix env audio tts
                (Generator.mixed_path temp_dir idx))) eqn:Hmix;
      unfold bind, ret; simpl.
    + rewrite filter_cons_True by (unfold mix_succeeds; cbn; by rewrite Hmix).
      edestruct IH as (w' & ->). exists w'. simpl. by rewrite <-app_assoc.
    + rewrite filter_cons_False
        by (unfold mix_succeeds; cbn; rewrite Hmix; exact id).
      edestruct IH as (w' & ->). by exists w'.
Qed.

Lemma create_audio_mixes_run env audio_files tts_files temp_dir w :
  ∃ w',
    Generator.create_audio_mixes env audio_files tts_files temp_dir w
    = (Ok ((λ a, Generator.mixed_path temp_dir a.1)
           <$> filter (mix_succeeds env temp_dir) (pairings audio_files tts_files)),
       w').
Proof.
  unfold Generator.create_audio_mixes, pairings.
  destruct (create_audio_mixes_from env temp_dir
              (Generator.product audio_files tts_files) 0 [] w) as (w' & Hrun).
  by exists w'.
Qed.



(** ** The rendering stage: bookkeeping on the phases *)

Lemma tally_insert weight phs i ph ph' :
  phs !! i = Some ph →
  tally weight (<[i := ph']> phs) + weight ph = tally weight phs + weight ph'.
Proof.
  unfold tally. revert i. induction phs as [|ph0 phs IH]; intros [|i] Hi;
    simplify_eq/=; [lia|].
  specialize (IH i Hi). lia.
Qed.

Lemma tally_finished_le phs : tally is_finished phs ≤ length phs.
Proof.
  unfold tally. induction phs as [|[] phs IH]; simpl; lia.
Qed.

Lemma tally_finished_all phs :
  tally is_finished phs = length phs ↔ Forall (λ ph, ph = Generator.Finished) phs.
Proof.
  unfold tally. induction phs as [|ph phs IH]; simpl.
  - split; [constructor | done].
  - rewrite Forall_cons, <-IH. pose proof (tally_finished_le phs) as Hle.
    unfold tally in Hle. destruct ph; simpl; split; try lia; naive_solver lia.
Qed.

Lemma all_finished_Forall s :
  Generator.all_finished s = true
  ↔ Forall (λ ph, ph = Generator.Finished) (Generator.phases s).
Proof.
  unfold Generator.all_finished. rewrite forallb_forall, Forall_forall.
  split; intros H ph Hin.
  - apply list_elem_of_In, H in Hin. by apply bool_decide_eq_true in Hin.
  - apply bool_decide_eq_true, H. by apply list_elem_of_In.
Qed.

Lemma finished_tasks_cons t tasks ph phs :
  finished_tasks (t :: tasks) (ph :: phs)
  = if decide (ph = Generator.Finished) then t :: finished_tasks tasks phs
    else finished_tasks tasks phs.
Proof.
  unfold finished_tasks. simpl. rewrite filter_cons. simpl. by case_decide.
Qed.

Lemma finished_tasks_insert_finished tasks phs i t ph :
  tasks !! i = Some t → phs !! i = Some ph → ph ≠ Generator.Finished →
  finished_tasks tasks (<[i := Generator.Finished]> phs)
  ≡ₚ t :: finished_tasks tasks phs.
Proof.
  revert phs i. induction tasks as [|t0 tasks IH]; intros [|ph0 phs] [|i] Ht Hph Hne;
    simplify_eq/=.
  - rewrite !finished_tasks_cons. rewrite decide_True by done.
    by rewrite decide_False by done.
  - rewrite !finished_tasks_cons. case_decide.
    + rewrite (IH phs i) by done. apply Permutation_swap.
    + by apply IH.
Qed.

Lemma finished_tasks_insert_other tasks phs i ph ph' :
  phs !! i = Some ph → ph ≠ Generator.Finished → ph' ≠ Generator.Finished →
  finished_tasks tasks (<[i := ph']> phs) = finished_tasks tasks phs.
Proof.
  revert phs i. induction tasks as [|t0 tasks IH]; intros [|ph0 phs] [|i] Hph Hne Hne';
    simplify_eq/=; try done.
  - rewrite !finished_tasks_cons. by rewrite !decide_False by done.
  - rewrite !finished_tasks_cons. by rewrite (IH phs i).
Qed.

Lemma finished_tasks_all tasks phs :
  length phs = length tasks → Forall (λ ph, ph = Generator.Finished) phs →
  finished_tasks tasks phs = tasks.
Proof.
  revert phs. induction tasks as [|t tasks IH]; intros [|ph phs] Hlen Hall;
    simplify_eq/=; [done|].
  apply Forall_cons in Hall as [-> Hall].
  rewrite finished_tasks_cons, decide_True by done. f_equal. by apply IH.
Qed.

Lemma finished_tasks_none tasks n :
  finished_tasks tasks (replicate n Generator.Waiting) = [].
Proof.
  revert n. induction tasks as [|t tasks IH]; intros [|n]; simpl; try done.
  by rewrite finished_tasks_cons, decide_False.
Qed.

Lemma tally_replicate_waiting weight n :
  weight Generator.Waiting = 0 → tally weight (replicate n Generator.Waiting) = 0.
Proof.
  intros Hw. unfold tally. induction n as [|n IH]; simpl; [done|]. lia.
Qed.

(** ** The rendering stage: what a resumed coroutine does *)

Lemma resumed_unit_step env cfg task_id p progress_callback i s s' :
  Generator.generate_final_video env cfg task_id p progress_callback i s = Some s' →
  unit_step task_id p progress_callback i s s'.
Proof.
  unfold Generator.generate_final_video.
  destruct (Generator.make_tasks p !! i) as [t|] eqn:Ht; [|done].
  destruct (Generator.phases s !! i) as [[]|] eqn:Hph; try done.
  - destruct (Generator.sem_value s) as [|value] eqn:Hsem; [done|].
    intros [= <-]. by eapply step_admitted.
  - unfold Generator.add_audio_to_video.
    destruct (exit_ok _) eqn:Hok; intros [= <-].
    + eapply step_rendered; [done..|]. rewrite trace_keep_output. simpl.
      by rewrite progress_log_app, app_nil_r.
    + eapply step_returned; [done | done | by left | by left |].
      rewrite trace_keep_output. simpl. by rewrite progress_log_app, app_nil_r.
  - unfold Storage.upload_file.
    destruct (gcs_upload_ok _ _ _); [case_bool_decide|]; intros [= <-].
    all: eapply step_returned; [done | done | by right | |]; eauto.
    all: simpl; by rewrite !progress_log_app, !app_nil_r.
Qed.

(** ** The rendering stage: the invariant *)

Lemma start_render_inv cfg task_id p progress_callback r w :
  render_inv cfg task_id p progress_callback r w (Generator.start_render cfg p r w).
Proof.
  split; simpl.
  - apply length_replicate.
  - by rewrite tally_replicate_waiting.
  - rewrite tally_replicate_waiting by done. lia.
  - by rewrite finished_tasks_none, !app_nil_r.
  - done.
  - done.
  - destruct progress_callback; by rewrite app_nil_r.
Qed.

Lemma unit_step_inv cfg task_id p progress_callback r0 w0 i s s' :
  render_inv cfg task_id p progress_callback r0 w0 s →
  unit_step task_id p progress_callback i s s' →
  render_inv cfg task_id p progress_callback r0 w0 s'.
Proof.
  intros [Hlen Hcompleted Hsem Hentries Htotal Herror Hprogress] Hstep.
  destruct Hstep as [t value Ht Hph Hvalue | t w Ht Hph Hw | t ph r w Ht Hph Hin Hr Hw].
  - pose proof (tally_insert is_finished _ _ _ Generator.Rendering Hph).
    pose proof (tally_insert holds_permit _ _ _ Generator.Rendering Hph).
    split; simpl in *; try done.
    + by rewrite length_insert.
    + lia.
    + lia.
    + by rewrite (finished_tasks_insert_other _ _ _ Generator.Waiting).
  - pose proof (tally_insert is_finished _ _ _ Generator.Uploading Hph).
    pose proof (tally_insert holds_permit _ _ _ Generator.Uploading Hph).
    split; simpl in *; try done.
    + by rewrite length_insert.
    + lia.
    + lia.
    + by rewrite (finished_tasks_insert_other _ _ _ Generator.Rendering).
    + by rewrite Hw.
  - pose proof (tally_insert is_finished _ _ _ Generator.Finished Hph) as Hfin.
    pose proof (tally_insert holds_permit _ _ _ Generator.Finished Hph) as Hpermit.
    assert (ph ≠ Generator.Finished) as Hne by (by destruct Hin as [-> | ->]).
    assert (is_finished ph = 0 ∧ holds_permit ph = 1) as [Hf Hp]
      by (by destruct Hin as [-> | ->]).
    split; simpl in *.
    + by rewrite length_insert.
    + lia.
    + lia.
    + rewrite (finished_tasks_insert_finished _ _ _ t ph) by done.
      rewrite fmap_cons.
      destruct Hr as [-> | [url ->]]; simpl; rewrite fmap_app; simpl.
      * rewrite app_assoc, Hentries. by rewrite <-!Permutation_middle, !app_nil_r.
      * rewrite <-app_assoc. simpl. rewrite <-Permutation_middle, Hentries.
        by rewrite <-!Permutation_middle.
    + by destruct Hr as [-> | [url ->]].
    + by destruct Hr as [-> | [url ->]].
    + unfold Generator.report_progress. destruct progress_callback.
      * rewrite trace_log, progress_log_app, Hw, Hprogress. simpl.
        rewrite <-app_assoc. f_equal.
        replace (Generator.completed s + 1) with (S (Generator.completed s)) by lia.
        by rewrite seq_S, fmap_app.
      * by rewrite Hw.
Qed.

Lemma run_schedule_inv env cfg task_id p progress_callback r0 w0 sched s :
  render_inv cfg task_id p progress_callback r0 w0 s →
  render_inv cfg task_id p progress_callback r0 w0
    (Generator.run_schedule env cfg task_id p progress_callback sched s).
Proof.
  revert s. induction sched as [|i sched IH]; intros s Hinv; simpl; [done|].
  apply IH.
  destruct (Generator.generate_final_video env cfg task_id p progress_callback i s) as [s'|] eqn:Hfire;
    simpl; [|done].
  eapply unit_step_inv; [done|]. by eapply resumed_unit_step.
Qed.

Lemma run_schedule_app env cfg task_id p progress_callback sched1 sched2 s :
  Generator.run_schedule env cfg task_id p progress_callback (sched1 ++ sched2) s
  = Generator.run_schedule env cfg task_id p progress_callback sched2
      (Generator.run_schedule env cfg task_id p progress_callback sched1 s).
Proof.
  revert s. induction sched1 as [|i sched1 IH]; intros s; simpl; [done|]. apply IH.
Qed.

(** ** The rendering stage: no deadlock, no endless run *)

Lemma tally_pos weight phs :
  0 < tally weight phs → ∃ i ph, phs !! i = Some ph ∧ 0 < weight ph.
Proof.
  unfold tally. induction phs as [|ph phs IH]; simpl; [lia|]. intros Hpos.
  destruct (decide (0 < weight ph)).
  - by exists 0, ph.
  - destruct IH as (i & ph' & Hi & Hw); [lia|]. by exists (S i), ph'.
Qed.

Lemma tally_resumptions_zero phs :
  tally resumptions_left phs = 0 → Forall (λ ph, ph = Generator.Finished) phs.
Proof.
  unfold tally. induction phs as [|ph phs IH]; simpl; [constructor|].
  intros Hzero. constructor; [destruct ph; simpl in *; done || lia|].
  apply IH. lia.
Qed.

Lemma unit_step_decreases task_id p progress_callback i s s' :
  unit_step task_id p progress_callback i s s' →
  tally resumptions_left (Generator.phases s')
  < tally resumptions_left (Generator.phases s).
Proof.
  intros [t value Ht Hph Hvalue | t w Ht Hph Hw | t ph r w Ht Hph Hin Hr Hw]; simpl.
  - pose proof (tally_insert resumptions_left _ _ _ Generator.Rendering Hph).
    simpl in *. lia.
  - pose proof (tally_insert resumptions_left _ _ _ Generator.Uploading Hph).
    simpl in *. lia.
  - pose proof (tally_insert resumptions_left _ _ _ Generator.Finished Hph).
    destruct Hin as [-> | ->]; simpl in *; lia.
Qed.

Lemma resume_enabled env cfg task_id p progress_callback i s t ph :
  Generator.make_tasks p !! i = Some t →
  Generator.phases s !! i = Some ph →
  ph ≠ Generator.Finished →
  (ph = Generator.Waiting → 0 < Generator.sem_value s) →
  is_Some (Generator.generate_final_video env cfg task_id p progress_callback i s).
Proof.
  intros Ht Hph Hne Hsem. unfold Generator.generate_final_video. rewrite Ht, Hph.
  destruct ph; [| | |done].
  - destruct (Generator.sem_value s); [specialize (Hsem eq_refl); lia | eauto].
  - destruct (Generator.add_audio_to_video _ _ _ _ _) as [[] w]; eauto.
  - destruct (Storage.upload_file _ _ _ _ _) as [url w]; eauto.
Qed.

(** While some coroutine has not returned, one of them can be resumed. *)
Lemma render_not_stuck env cfg task_id p progress_callback r0 w0 s :
  (0 < max_concurrent_jobs cfg)%Z →
  render_inv cfg task_id p progress_callback r0 w0 s →
  Generator.all_finished s = false →
  ∃ i, is_Some (Generator.generate_final_video env cfg task_id p progress_callback i s).
Proof.
  intros HK Hinv Hnot.
  assert (∀ i ph, Generator.phases s !! i = Some ph →
                  ∃ t, Generator.make_tasks p !! i = Some t) as Htask.
  { intros i ph Hi. apply lookup_lt_is_Some. rewrite <-(inv_length _ _ _ _ _ _ _ Hinv).
    by eapply lookup_lt_Some. }
  destruct (decide (0 < tally holds_permit (Generator.phases s))) as [Hbusy|Hidle].
  - destruct (tally_pos _ _ Hbusy) as (i & ph & Hi & Hw).
    destruct (Htask i ph Hi) as [t Ht]. exists i.
    eapply resume_enabled; [done..| |];
      destruct ph; simpl in Hw; first [done | lia | intros; lia].
  - assert (0 < tally resumptions_left (Generator.phases s)) as Hleft.
    { destruct (decide (tally resumptions_left (Generator.phases s) = 0)) as [Hz|]; [|lia].
      apply tally_resumptions_zero, all_finished_Forall in Hz. congruence. }
    destruct (tally_pos _ _ Hleft) as (i & ph & Hi & Hw).
    destruct (Htask i ph Hi) as [t Ht]. exists i.
    eapply resume_enabled; [done..| |].
    + destruct ph; simpl in Hw; first [done | lia].
    + intros _. pose proof (inv_semaphore _ _ _ _ _ _ _ Hinv). lia.
Qed.

(** Every state of the rendering stage can be driven to the end, in at
    most as many resumptions as [resumptions_left] counts. *)
Lemma render_can_finish env cfg task_id p progress_callback r0 w0 s :
  (0 < max_concurrent_jobs cfg)%Z →
  render_inv cfg task_id p progress_callback r0 w0 s →
  ∃ sched,
    length sched ≤ tally resumptions_left (Generator.phases s) ∧
    Generator.all_finished
      (Generator.run_schedule env cfg task_id p progress_callback sched s) = true.
Proof.
  intros HK.
  remember (tally resumptions_left (Generator.phases s)) as n eqn:Hn.
  revert s Hn. induction (lt_wf n) as [n _ IH]. intros s -> Hinv.
  destruct (Generator.all_finished s) eqn:Hfin.
  { exists []. simpl. split; [lia | done]. }
  destruct (render_not_stuck env cfg task_id p progress_callback r0 w0 s HK Hinv Hfin)
    as (i & s' & Hfire).
  pose proof (resumed_unit_step _ _ _ _ _ _ _ _ Hfire) as Hstep.
  pose proof (unit_step_decreases _ _ _ _ _ _ Hstep) as Hdec.
  destruct (IH _ Hdec s' eq_refl (unit_step_inv _ _ _ _ _ _ _ _ _ Hinv Hstep))
    as (sched & Hlen & Hend).
  exists (i :: sched). simpl. rewrite Hfire. simpl. split; [lia | done].
Qed.

(** With a budget of 0 no coroutine is ever admitted: the hypothesis of
    [render_can_finish] cannot be dropped. *)
Lemma zero_budget_blocks env cfg task_id p progress_callback r w sched :
  max_concurrent_jobs cfg = 0%Z →
  Generator.run_schedule env cfg task_id p progress_callback sched
    (Generator.start_render cfg p r w)
  = Generator.start_render cfg p r w.
Proof.
  intros HK. induction sched as [|i sched IH]; simpl; [done|].
  assert (Generator.generate_final_video env cfg task_id p progress_callback i
            (Generator.start_render cfg p r w) = None) as ->; [|done].
  unfold Generator.generate_final_video. simpl. rewrite HK. simpl.
  destruct (Generator.make_tasks p !! i); [|done].
  destruct (replicate _ _ !! i) as [ph|] eqn:Hph; [|done].
  by apply lookup_replicate in Hph as [-> _].
Qed.

(** ** [generate_all] *)

Lemma generate_all_aborted env cfg sched task_id data progress_callback w0 e w :
  Generator.prepare env cfg task_id data w0 = (Raise e, w) →
  Generator.generate_all env cfg sched task_id data progress_callback w0
  = Some (Generator.with_error e Generator.empty_results, w).
Proof. unfold Generator.generate_all. by intros ->. Qed.

Lemma generate_all_rendering env cfg sched task_id data progress_callback w0 p w1 :
  Generator.prepare env cfg task_id data w0 = (Ok p, w1) →
  (0 ≤ max_concurrent_jobs cfg)%Z →
  Generator.generate_all env cfg sched task_id data progress_callback w0
  = let s := Generator.run_schedule env cfg task_id p progress_callback sched
               (Generator.start_render cfg p
                  (Generator.with_total (Generator.total_variants p)
                     Generator.empty_results)
                  (Generator.report_progress progress_callback 0
                     (Generator.total_variants p) w1)) in
    if Generator.all_finished s
    then Some (Generator.results s, Generator.rmtree (Generator.temp_dir p)
                                      (Generator.world s))
    else None.
Proof.
  unfold Generator.generate_all. intros -> HK.
  by rewrite bool_decide_eq_false_2 by lia.
Qed.

Lemma generate_all_can_return env cfg task_id data progress_callback w0 sched :
  max_concurrent_jobs cfg ≠ 0%Z →
  ∃ sched' out,
    Generator.generate_all env cfg (sched ++ sched') task_id data
      progress_callback w0 = Some out.
Proof.
  intros HK.
  destruct (Generator.prepare env cfg task_id data w0) as [[p|e] w1] eqn:Hprep.
  2: { exists [], (Generator.with_error e Generator.empty_results, w1).
       by apply generate_all_aborted. }
  destruct (decide (max_concurrent_jobs cfg < 0)%Z) as [Hneg|Hpos].
  { exists []. unfold Generator.generate_all. rewrite Hprep.
    rewrite bool_decide_eq_true_2 by done. eauto. }
  set (r0 := Generator.with_total (Generator.total_variants p) Generator.empty_results).
  set (w2 := Generator.report_progress progress_callback 0
               (Generator.total_variants p) w1).
  pose proof (run_schedule_inv env cfg task_id p progress_callback r0 w2 sched _
                (start_render_inv cfg task_id p progress_callback r0 w2)) as Hinv.
  destruct (render_can_finish env cfg task_id p progress_callback r0 w2 _
              ltac:(lia) Hinv) as (sched' & _ & Hend).
  exists sched'. eexists.
  rewrite (generate_all_rendering _ _ _ _ _ _ _ _ _ Hprep) by lia.
  cbv zeta. fold r0 w2. by rewrite run_schedule_app, Hend.
Qed.

Lemma prepare_validation env cfg task_id data w :
  let parsed := Generator.parse_blocks data in
  (parsed.1.1 = [] →
     Generator.prepare env cfg task_id data w
     = (Raise (ValueError "No video blocks found"), w)) ∧
  (parsed.1.1 ≠ [] → parsed.1.2 = [] →
     Generator.prepare env cfg task_id data w
     = (Raise (ValueError "No audio URLs found"), w)) ∧
  (parsed.1.1 ≠ [] → parsed.1.2 ≠ [] → parsed.2 = [] →
     Generator.prepare env cfg task_id data w
     = (Raise (ValueError "No voice configs found"), w)).
Proof.
  unfold Generator.prepare.
  destruct (Generator.parse_blocks data) as [[video_blocks audio_urls] voice_configs].
  simpl. split_and!; intros; by repeat case_bool_decide.
Qed.

Lemma prepare_creates_directory env cfg task_id data w0 res w1 :
  (Generator.parse_blocks data).1.1 ≠ [] →
  (Generator.parse_blocks data).1.2 ≠ [] →
  (Generator.parse_blocks data).2 ≠ [] →
  Generator.prepare env cfg task_id data w0 = (res, w1) →
  mkdtemp_name env ("task_" +:+ task_id +:+ "_") ∈ dirs w1 ∧
  rmtree_log (trace w1) = rmtree_log (trace w0).
Proof.
  unfold Generator.prepare.
  destruct (Generator.parse_blocks data) as [[video_blocks audio_urls] voice_configs].
  simpl. intros Hblocks Haudio Hvoices.
  rewrite !bool_decide_eq_false_2 by done.
  unfold bind at 1, Generator.mkdtemp, bind, emit, modify, ret. simpl. intros Hrun.
  match type of Hrun with Generator.stages _ _ _ _ _ ?d ?w = _ =>
    destruct (silent_stages rmtree_of blind_rmtree_of env cfg video_blocks
                audio_urls voice_configs d w) as [Htrace Hdirs]
  end.
  rewrite Hrun in Htrace, Hdirs. simpl in Htrace, Hdirs. split.
  - set_solver.
  - unfold rmtree_log. rewrite Htrace, omap_app. simpl. by rewrite app_nil_r.
Qed.

(** Every run that returns an error after validation leaves the task
    directory on disk and has not called [rmtree]. *)
Lemma failed_run_leaves_task_directory env cfg sched task_id data progress_callback
    w0 r w :
  (Generator.parse_blocks data).1.1 ≠ [] →
  (Generator.parse_blocks data).1.2 ≠ [] →
  (Generator.parse_blocks data).2 ≠ [] →
  Generator.generate_all env cfg sched task_id data progress_callback w0 = Some (r, w) →
  is_Some (Generator.error r) →
  mkdtemp_name env ("task_" +:+ task_id +:+ "_") ∈ dirs w ∧
  rmtree_log (trace w) = rmtree_log (trace w0).
Proof.
  intros Hblocks Haudio Hvoices Hrun [msg Herror].
  destruct (Generator.prepare env cfg task_id data w0) as [[p|e] w1] eqn:Hprep.
  2: { rewrite (generate_all_aborted _ _ _ _ _ _ _ _ _ Hprep) in Hrun. simplify_eq.
       by eapply prepare_creates_directory. }
  destruct (prepare_creates_directory _ _ _ _ _ _ _ Hblocks Haudio Hvoices Hprep)
    as [Hdir Hlog].
  unfold Generator.generate_all in Hrun. rewrite Hprep in Hrun.
  case_bool_decide.
  - simplify_eq. unfold Generator.report_progress.
    destruct progress_callback; simpl; [|done].
    split; [done|]. unfold rmtree_log in *. rewrite omap_app. simpl.
    by rewrite app_nil_r.
  - destruct (Generator.all_finished _) eqn:Hfin; [|done]. simplify_eq.
    match type of Herror with context [Generator.run_schedule _ _ _ _ _ _ ?s0] =>
      pose proof (run_schedule_inv env cfg task_id p progress_callback _ _ sched s0
                    (start_render_inv cfg task_id p progress_callback _ _)) as Hinv
    end.
    rewrite (inv_error _ _ _ _ _ _ _ Hinv) in Herror. done.
Qed.

(** C5 fails on the code: when the first video of [block1] cannot be
    fetched, [generate_all] returns the error and the task directory it
    created is still there, with no [rmtree] ever issued; the run of the
    same request that reaches the end of the [try] block does remove it. *)
Theorem temp_dir_survives_fetch_failure :
  (∃ r w,
     Generator.generate_all offline default_settings [] "t1" small_request true
       empty_world = Some (r, w) ∧
     Generator.error r = Some "Failed to download block1 video 0" ∧
     EvMkdtemp "/tmp/task_t1_" ∈ trace w ∧
     "/tmp/task_t1_" ∈ dirs w ∧
     (∀ dir, EvRmtree dir ∉ trace w))
  ∧ (∃ r w,
       Generator.generate_all (constant_server 200 "clip") default_settings
         (Generator.sequential_schedule 2) "t1" small_request true empty_world
       = Some (r, w) ∧
       Generator.error r = None ∧
       EvRmtree "/tmp/task_t1_" ∈ trace w ∧
       "/tmp/task_t1_" ∉ dirs w).
Proof.
  split.
  - eexists _, _. split; [vm_compute; reflexivity|]. split_and!.
    + reflexivity.
    + apply list_elem_of_In. simpl. tauto.
    + vm_compute. reflexivity.
    + intros dir. rewrite list_elem_of_In. simpl. intuition discriminate.
  - eexists _, _. split; [vm_compute; reflexivity|]. split_and!.
    + reflexivity.
    + apply list_elem_of_In. simpl. tauto.
    + vm_compute. discriminate.
Qed.

(** ** Variant identities are unique *)

Lemma url_key_inj : Inj (=) (=) url_key.
Proof.
  intros v1 v2 Heq. unfold url_key in Heq.
  apply (f_equal String.list_ascii_of_string) in Heq. rewrite !chars_app in Heq.
  by apply app_inv_tail, chars_inj in Heq.
Qed.

(** Two texts that agree, cut after their last occurrence of [x]. *)
Lemma split_at_last {A} (x : A) l1 l2 d1 d2 :
  x ∉ d1 → x ∉ d2 → l1 ++ x :: d1 = l2 ++ x :: d2 → d1 = d2.
Proof.
  intros H1 H2. revert l2. induction l1 as [|y l1 IH]; intros [|z l2] Heq;
    simplify_eq/=.
  - done.
  - destruct H1. apply elem_of_app. right. by left.
  - destruct H2. apply elem_of_app. right. by left.
  - by eapply IH.
Qed.

Lemma pretty_N_char_not_v x : pretty_N_char x ≠ "v"%char.
Proof. unfold pretty_N_char. by repeat case_match. Qed.

Lemma pretty_N_go_not_v x s :
  "v"%char ∉ String.list_ascii_of_string s →
  "v"%char ∉ String.list_ascii_of_string (pretty_N_go x s).
Proof.
  revert s. induction (N.lt_wf_0 x) as [x _ IH]; intros s Hs.
  destruct (decide (x = 0)%N) as [->|Hne]; [by rewrite pretty_N_go_0|].
  rewrite pretty_N_go_step by lia. apply IH.
  - apply N.div_lt; lia.
  - simpl. rewrite not_elem_of_cons. split; [|done].
    intros Heq. by eapply pretty_N_char_not_v.
Qed.

Lemma pretty_nat_not_v (n : nat) : "v"%char ∉ String.list_ascii_of_string (pretty n).
Proof.
  unfold pretty, pretty_nat, pretty, pretty_N. case_decide.
  - simpl. rewrite not_elem_of_cons. split; [done|]. apply not_elem_of_nil.
  - apply pretty_N_go_not_v. simpl. apply not_elem_of_nil.
Qed.

Lemma variant_id_inj task_id t1 t2 :
  Generator.variant_id task_id t1 = Generator.variant_id task_id t2 →
  Generator.variant_num t1 = Generator.variant_num t2.
Proof.
  unfold Generator.variant_id. intros Heq.
  apply (f_equal String.list_ascii_of_string) in Heq.
  rewrite !chars_app in Heq. simpl in Heq.
  apply (inj pretty), chars_inj.
  apply (split_at_last "v"%char
           (String.list_ascii_of_string task_id ++ "_"%char
              :: String.list_ascii_of_string (Generator.block_name t1) ++ ["_"%char])
           (String.list_ascii_of_string task_id ++ "_"%char
              :: String.list_ascii_of_string (Generator.block_name t2) ++ ["_"%char]));
    [apply pretty_nat_not_v..|].
  rewrite <-!app_assoc. simpl. rewrite <-!app_assoc. exact Heq.
Qed.

Lemma schedule_mixes_nums block_name base_video mixed counter :
  Generator.variant_num <$> (Generator.schedule_mixes block_name base_video mixed counter).1
  = seq (S counter) (length mixed)
  ∧ (Generator.schedule_mixes block_name base_video mixed counter).2
    = counter + length mixed.
Proof.
  revert counter. induction mixed as [|m mixed IH]; intros counter; simpl.
  - split; [done | lia].
  - specialize (IH (counter + 1)).
    destruct (Generator.schedule_mixes _ _ mixed (counter + 1)) as [tasks final].
    cbn [fst snd] in *. destruct IH as [IH ->]. rewrite fmap_cons, IH. simpl.
    replace (counter + 1) with (S counter) by lia. split; [done | lia].
Qed.

Lemma schedule_blocks_nums base_videos mixed counter :
  Generator.variant_num <$> (Generator.schedule_blocks base_videos mixed counter).1
  = seq (S counter) (length base_videos * length mixed)
  ∧ (Generator.schedule_blocks base_videos mixed counter).2
    = counter + length base_videos * length mixed.
Proof.
  revert counter.
  induction base_videos as [|[block_name base_video] rest IH]; intros counter; simpl.
  - split; [done | lia].
  - pose proof (schedule_mixes_nums block_name base_video mixed counter) as [Hm1 Hm2].
    destruct (Generator.schedule_mixes _ _ mixed counter) as [tasks c1].
    cbn [fst snd] in *. subst c1.
    specialize (IH (counter + length mixed)).
    destruct (Generator.schedule_blocks rest mixed _) as [tasks' final].
    cbn [fst snd] in *. destruct IH as [IH1 ->].
    rewrite fmap_app, Hm1, IH1, seq_app. split; [|lia].
    by replace (S counter + length mixed) with (S (counter + length mixed)) by lia.
Qed.

Lemma make_tasks_nums p :
  Generator.variant_num <$> Generator.make_tasks p
  = seq 1 (Generator.total_variants p).
Proof. apply schedule_blocks_nums. Qed.

Lemma length_make_tasks p :
  length (Generator.make_tasks p) = Generator.total_variants p.
Proof.
  by rewrite <-(length_fmap Generator.variant_num), make_tasks_nums, length_seq.
Qed.

(** C4: [generate_all] has no exceptional outcome: every exception of its
    body becomes the [error] field of the returned object.  Unless the
    concurrency budget is 0, every partial run of the rendering stage can
    be completed, so a result object is returned; with a budget of 0 and
    a variant to render, no coroutine passes the semaphore and nothing is
    ever returned.  When parsing yields no video block, no audio URL or
    no voice line, the result carries the error message of the first
    missing family (three different texts), and the world is untouched:
    no directory, no download, no synthesis, no mix, no render. *)
Theorem generate_all_returns_and_validates (env : Env) (cfg : Settings)
    (task_id : string) (data : gmap string json) (progress_callback : bool)
    (w0 : World) :
  let parsed := Generator.parse_blocks data in
  let rejected msg := ∀ sched,
    Generator.generate_all env cfg sched task_id data progress_callback w0
    = Some ({| Generator.successful := []; Generator.failed := [];
               Generator.total := 0; Generator.urls := [];
               Generator.error := Some msg |}, w0) in
  (max_concurrent_jobs cfg ≠ 0%Z →
     ∀ sched, ∃ sched' out,
       Generator.generate_all env cfg (sched ++ sched') task_id data
         progress_callback w0 = Some out) ∧
  (max_concurrent_jobs cfg = 0%Z →
     ∀ p w1, Generator.prepare env cfg task_id data w0 = (Ok p, w1) →
       (Generator.total_variants p ≠ 0 →
          ∀ sched, Generator.generate_all env cfg sched task_id data
                     progress_callback w0 = None) ∧
       (Generator.total_variants p = 0 →
          ∀ sched, is_Some (Generator.generate_all env cfg sched task_id data
                              progress_callback w0))) ∧
  (∀ e w1, Generator.prepare env cfg task_id data w0 = (Raise e, w1) →
     ∀ sched,
       Generator.generate_all env cfg sched task_id data progress_callback w0
       = Some (Generator.with_error e Generator.empty_results, w1)) ∧
  (parsed.1.1 = [] → rejected "No video blocks found") ∧
  (parsed.1.1 ≠ [] → parsed.1.2 = [] → rejected "No audio URLs found") ∧
  (parsed.1.1 ≠ [] → parsed.1.2 ≠ [] → parsed.2 = [] →
     rejected "No voice configs found") ∧
  "No video blocks found" ≠ "No audio URLs found" ∧
  "No video blocks found" ≠ "No voice configs found" ∧
  "No audio URLs found" ≠ "No voice configs found".
Proof.
  intros parsed rejected.
  destruct (prepare_validation env cfg task_id data w0) as (Hblocks & Haudio & Hvoice).
  split_and!; try done.
  - intros HK sched. by apply generate_all_can_return.
  - intros Hzero p w1 Hprep. split; intros Htotal sched.
    + rewrite (generate_all_rendering _ _ _ _ _ _ _ _ _ Hprep) by lia.
      cbv zeta. rewrite zero_budget_blocks by done.
      unfold Generator.all_finished, Generator.start_render. cbn [Generator.phases].
      rewrite length_make_tasks.
      by destruct (Generator.total_variants p).
    + rewrite (generate_all_rendering _ _ _ _ _ _ _ _ _ Hprep) by lia.
      cbv zeta. rewrite zero_budget_blocks by done.
      unfold Generator.all_finished, Generator.start_render. cbn [Generator.phases].
      rewrite length_make_tasks, Htotal. simpl. by eexists.
  - intros e w1 Hprep sched. by apply generate_all_aborted.
  - intros Hempty sched. by rewrite (generate_all_aborted _ _ _ _ _ _ _ _ _ (Hblocks Hempty)).
  - intros H1 H2 sched. by rewrite (generate_all_aborted _ _ _ _ _ _ _ _ _ (Haudio H1 H2)).
  - intros H1 H2 H3 sched.
    by rewrite (generate_all_aborted _ _ _ _ _ _ _ _ _ (Hvoice H1 H2 H3)).
Qed.

Lemma generate_all_returns_and_validates_witness :
  (∃ sched' out,
     Generator.generate_all (constant_server 200 "clip") default_settings
       ([0; 1] ++ sched') "t1" small_request true empty_world = Some out) ∧
  (∀ sched,
     Generator.generate_all (constant_server 200 "clip") default_settings
       sched "t1" no_audio_request true empty_world
     = Some ({| Generator.successful := []; Generator.failed := [];
                Generator.total := 0; Generator.urls := [];
                Generator.error := Some "No audio URLs found" |}, empty_world)).
Proof.
  split.
  - apply (generate_all_returns_and_validates (constant_server 200 "clip")
             default_settings "t1" small_request true empty_world).
    vm_compute. discriminate.
  - apply (generate_all_returns_and_validates (constant_server 200 "clip")
             default_settings "t1" no_audio_request true empty_world).
    + vm_compute. discriminate.
    + reflexivity.
Defined.

(** With [max_concurrent_jobs = 0], a value [settings.py] accepts, the
    request [small_request] is prepared without any failure and then
    waits on the semaphore for ever: whatever the order in which the
    event loop resumes the two render coroutines, nothing is returned. *)
Lemma generate_all_waits_forever_on_zero_budget :
  max_concurrent_jobs zero_jobs = 0%Z ∧
  Generator.prepare (constant_server 200 "clip") zero_jobs "t1" small_request
    empty_world = (Ok small_prep, small_world) ∧
  ∀ sched,
    Generator.generate_all (constant_server 200 "clip") zero_jobs sched "t1"
      small_request true empty_world = None.
Proof.
  assert (Generator.prepare (constant_server 200 "clip") zero_jobs "t1" small_request
            empty_world = (Ok small_prep, small_world)) as Hprep
    by (vm_compute; reflexivity).
  split; [done|]. split; [done|]. intros sched.
  rewrite (generate_all_rendering _ _ _ _ _ _ _ _ _ Hprep) by done.
  cbv zeta. by rewrite zero_budget_blocks.
Qed.

Lemma NoDup_variant_ids task_id p :
  NoDup (Generator.variant_id task_id <$> Generator.make_tasks p).
Proof.
  assert (NoDup (Generator.variant_num <$> Generator.make_tasks p)) as Hnums.
  { rewrite make_tasks_nums. apply NoDup_seq. }
  apply NoDup_fmap_2_strong; [|by eapply NoDup_fmap_1].
  intros t1 t2 Hin1 Hin2 Heq%variant_id_inj.
  apply list_elem_of_lookup in Hin1 as [i1 H1].
  apply list_elem_of_lookup in Hin2 as [i2 H2].
  assert (i1 = i2) as ->; [|congruence].
  eapply NoDup_lookup; [exact Hnums|..]; rewrite list_lookup_fmap.
  - by rewrite H1.
  - rewrite H2. simpl. by rewrite Heq.
Qed.

(** ** What [generate_all] knows when the rendering stage begins *)

Lemma prepare_reaches_rendering env cfg task_id data w0 p w1 :
  Generator.prepare env cfg task_id data w0 = (Ok p, w1) →
  length (Generator.base_videos p) = length (Generator.parse_blocks data).1.1 ∧
  length (Generator.audio_files p) = length (Generator.parse_blocks data).1.2 ∧
  length (Generator.tts_files p) = length (Generator.parse_blocks data).2 ∧
  Generator.mixed_audio_files p
  = (λ a, Generator.mixed_path (Generator.temp_dir p) a.1)
    <$> filter (mix_succeeds env (Generator.temp_dir p))
          (pairings (Generator.audio_files p) (Generator.tts_files p)).
Proof.
  unfold Generator.prepare.
  destruct (Generator.parse_blocks data) as [[video_blocks audio_urls] voice_configs].
  repeat case_bool_decide; try done. intros Hrun.
  apply bind_ok_inv in Hrun as (temp_dir & wa & _ & Hrun).
  apply bind_ok_inv in Hrun as (base_videos & wb & Hblocks & Hrun).
  apply bind_ok_inv in Hrun as (audio_files & wc & Haudio & Hrun).
  apply bind_ok_inv in Hrun as (tts_files & wd & Htts & Hrun).
  apply bind_ok_inv in Hrun as (mixed & we & Hmix & Hrun).
  unfold ret in Hrun. simplify_eq. simpl.
  destruct (create_audio_mixes_run env audio_files tts_files temp_dir wd)
    as (w' & Hmix').
  rewrite Hmix' in Hmix. simplify_eq. split_and!; [| | |done].
  - apply for_enumerate_length in Hblocks; [done|].
    intros idx x acc w acc' w' Hbody.
    apply bind_ok_inv in Hbody as (c & ? & _ & Hret). unfold ret in Hret.
    simplify_eq. rewrite length_app. simpl. lia.
  - apply for_enumerate_length in Haudio; [done|].
    intros idx x acc w acc' w' Hbody.
    apply bind_ok_inv in Hbody as ([] & ? & _ & Hret); [|done].
    unfold ret in Hret. simplify_eq. rewrite length_app. simpl. lia.
  - apply for_enumerate_length in Htts; [done|].
    intros idx x acc w acc' w' Hbody.
    apply bind_ok_inv in Hbody as (text & ? & _ & Hbody).
    apply bind_ok_inv in Hbody as (voice & ? & _ & Hbody).
    apply bind_ok_inv in Hbody as (success & ? & _ & Hbody).
    apply bind_ok_inv in Hbody as ([] & ? & _ & Hret).
    unfold ret in Hret. simplify_eq. rewrite length_app. simpl. lia.
Qed.

Lemma prepare_silent env cfg task_id data w0 r w1 :
  Generator.prepare env cfg task_id data w0 = (r, w1) →
  progress_log (trace w1) = progress_log (trace w0).
Proof.
  intros Hrun.
  destruct (silent_prepare progress_of blind_progress_of env cfg task_id data w0)
    as [Hsilent _].
  by rewrite Hrun in Hsilent.
Qed.

Lemma progress_log_rmtree dir w :
  progress_log (trace (Generator.rmtree dir w)) = progress_log (trace w).
Proof. simpl. by rewrite progress_log_app, app_nil_r. Qed.

Lemma progress_log_first_report progress_callback total w :
  progress_log (trace (Generator.report_progress progress_callback 0 total w))
  = progress_log (trace w) ++ (if progress_callback then [(0, total)] else []).
Proof.
  destruct progress_callback; simpl; [|by rewrite app_nil_r].
  by rewrite progress_log_app.
Qed.

(** A run that went through the rendering stage and came back. *)
Lemma generate_all_completed env cfg sched task_id data progress_callback w0 p w1 r w :
  Generator.prepare env cfg task_id data w0 = (Ok p, w1) →
  Generator.generate_all env cfg sched task_id data progress_callback w0 = Some (r, w) →
  Generator.error r = None →
  ∃ s,
    render_inv cfg task_id p progress_callback
      (Generator.with_total (Generator.total_variants p) Generator.empty_results)
      (Generator.report_progress progress_callback 0 (Generator.total_variants p) w1)
      s ∧
    Generator.all_finished s = true ∧
    r = Generator.results s ∧
    w = Generator.rmtree (Generator.temp_dir p) (Generator.world s).
Proof.
  intros Hprep Hrun Herror. unfold Generator.generate_all in Hrun.
  rewrite Hprep in Hrun. case_bool_decide; [by simplify_eq|].
  match type of Hrun with context [Generator.all_finished ?s0] =>
    exists s0; destruct (Generator.all_finished s0) eqn:Hfin end; [|done].
  simplify_eq. split_and!; try done.
  apply run_schedule_inv, start_render_inv.
Qed.

(** C1: when the rendering stage is reached, the mix list holds exactly
    the pairings whose mix succeeded (a failed pairing is left out), of
    the [|audio files| * |voice files|] pairings attempted; so there are
    at most that many mixes, and exactly that many iff no mix failed.
    From then on, at every point of the rendering stage and for every
    order in which the coroutines are resumed, the [total] of the results
    is the number of concatenated blocks times the number of mixes, and
    the progress reports made so far are [(0, total)] to
    [(completed, total)]: every one of them has that denominator.  So
    has every result that is returned; and a result is returned, unless
    the concurrency budget is 0 while there is a variant to render. *)
Theorem total_counts_successful_mixes (env : Env) (cfg : Settings)
    (task_id : string) (data : gmap string json) (w0 : World)
    (p : Generator.prep) (w1 : World) :
  Generator.prepare env cfg task_id data w0 = (Ok p, w1) →
  let attempts := pairings (Generator.audio_files p) (Generator.tts_files p) in
  let blocks := length (Generator.base_videos p) in
  let mixes := length (Generator.mixed_audio_files p) in
  let bound := length (Generator.audio_files p) * length (Generator.tts_files p) in
  let rendering progress_callback sched :=
    Generator.run_schedule env cfg task_id p progress_callback sched
      (Generator.start_render cfg p
         (Generator.with_total (Generator.total_variants p) Generator.empty_results)
         (Generator.report_progress progress_callback 0
            (Generator.total_variants p) w1)) in
  Generator.mixed_audio_files p
  = (λ a, Generator.mixed_path (Generator.temp_dir p) a.1)
    <$> filter (mix_succeeds env (Generator.temp_dir p)) attempts ∧
  length attempts = bound ∧
  blocks = length (Generator.parse_blocks data).1.1 ∧
  bound = length (Generator.parse_blocks data).1.2
          * length (Generator.parse_blocks data).2 ∧
  mixes ≤ bound ∧
  (mixes = bound ↔ Forall (mix_succeeds env (Generator.temp_dir p)) attempts) ∧
  (∀ sched progress_callback,
     let s := rendering progress_callback sched in
     Generator.total (Generator.results s) = blocks * mixes ∧
     progress_log (trace (Generator.world s))
     = progress_log (trace w0)
       ++ (if progress_callback
           then (λ c, (c, blocks * mixes)) <$> seq 0 (S (Generator.completed s))
           else [])) ∧
  (∀ sched progress_callback r w,
     Generator.generate_all env cfg sched task_id data progress_callback w0
     = Some (r, w) →
     Generator.total r = blocks * mixes ∧
     ∃ reported,
       progress_log (trace w)
       = progress_log (trace w0) ++ ((λ c, (c, blocks * mixes)) <$> reported)) ∧
  (max_concurrent_jobs cfg ≠ 0%Z ∨ blocks * mixes = 0 →
   ∀ sched progress_callback,
     ∃ sched' r w,
       Generator.generate_all env cfg (sched ++ sched') task_id data
         progress_callback w0 = Some (r, w) ∧
       Generator.total r = blocks * mixes).
Proof.
  intros Hprep attempts blocks mixes bound rendering.
  destruct (prepare_reaches_rendering _ _ _ _ _ _ _ Hprep)
    as (Hblocks & Haudio & Hvoices & Hmixed).
  assert (length attempts = bound) as Hattempts by apply length_pairings.
  assert (mixes = length (filter (mix_succeeds env (Generator.temp_dir p)) attempts))
    as Hmixes by (unfold mixes; by rewrite Hmixed, length_fmap).
  pose proof (prepare_silent _ _ _ _ _ _ _ Hprep) as Hquiet.
  assert (∀ sched progress_callback r w,
            Generator.generate_all env cfg sched task_id data progress_callback w0
            = Some (r, w) →
            Generator.total r = blocks * mixes ∧
            ∃ reported,
              progress_log (trace w)
              = progress_log (trace w0) ++ ((λ c, (c, blocks * mixes)) <$> reported))
    as Hreturned.
  { intros sched progress_callback r w Hrun.
    destruct (Generator.error r) as [msg|] eqn:Herror.
    + unfold Generator.generate_all in Hrun. rewrite Hprep in Hrun.
      case_bool_decide.
      * simplify_eq. split; [done|].
        exists (if progress_callback then [0] else []).
        rewrite progress_log_first_report, Hquiet. by destruct progress_callback.
      * destruct (Generator.all_finished _) eqn:Hfin; [|done]. simplify_eq.
        match type of Herror with context [Generator.run_schedule _ _ _ _ _ _ ?s0] =>
          pose proof (run_schedule_inv env cfg task_id p progress_callback _ _ sched s0
                        (start_render_inv cfg task_id p progress_callback _ _)) as Hinv
        end.
        rewrite (inv_error _ _ _ _ _ _ _ Hinv) in Herror. done.
    + destruct (generate_all_completed _ _ _ _ _ _ _ _ _ _ _ Hprep Hrun Herror)
        as (s & Hinv & Hfin & -> & ->).
      rewrite (inv_total _ _ _ _ _ _ _ Hinv). split; [done|].
      exists (if progress_callback then seq 0 (S (Generator.completed s)) else []).
      rewrite progress_log_rmtree, (inv_progress _ _ _ _ _ _ _ Hinv).
      rewrite progress_log_first_report, Hquiet, <-app_assoc.
      by destruct progress_callback. }
  split_and!; try done.
  - unfold bound. by rewrite Haudio, Hvoices.
  - rewrite Hmixes, <-Hattempts. apply length_filter.
  - rewrite Hmixes, <-Hattempts. apply length_filter_eq_iff.
  - intros sched progress_callback s. subst s rendering. cbv beta.
    match goal with |- context [Generator.run_schedule _ _ _ _ _ _ ?s0] =>
      pose proof (run_schedule_inv env cfg task_id p progress_callback _ _ sched s0
                    (start_render_inv cfg task_id p progress_callback _ _)) as Hinv
    end.
    rewrite (inv_total _ _ _ _ _ _ _ Hinv), (inv_progress _ _ _ _ _ _ _ Hinv).
    split; [done|].
    rewrite progress_log_first_report, Hquiet, <-app_assoc.
    by destruct progress_callback.
  - intros Hbudget sched progress_callback.
    assert (∃ sched' out,
              Generator.generate_all env cfg (sched ++ sched') task_id data
                progress_callback w0 = Some out) as (sched' & [r w] & Hrun).
    { destruct (decide (max_concurrent_jobs cfg = 0%Z)) as [Hzero|Hpositive];
        [|by apply generate_all_can_return].
      destruct Hbudget as [?|Hnone]; [done|]. exists [].
      rewrite (generate_all_rendering _ _ _ _ _ _ _ _ _ Hprep) by lia.
      cbv zeta. rewrite zero_budget_blocks by done.
      unfold Generator.all_finished, Generator.start_render. cbn [Generator.phases].
      rewrite length_make_tasks. unfold Generator.total_variants.
      fold blocks mixes. rewrite Hnone. simpl. by eexists. }
    exists sched', r, w. split; [done|]. by destruct (Hreturned _ _ _ _ Hrun).
Qed.


(** The small request, run to the rendering stage and to the end. *)
Example small_request_prepared :
  Generator.prepare (constant_server 200 "clip") default_settings "t1"
    small_request empty_world = (Ok small_prep, small_world).
Proof. vm_compute. reflexivity. Qed.

Lemma total_counts_successful_mixes_witness :
  length (Generator.mixed_audio_files one_mix_prep) = 1 ∧
  length (Generator.audio_files one_mix_prep)
  * length (Generator.tts_files one_mix_prep) = 2 ∧
  ¬ Forall (mix_succeeds second_mix_fails (Generator.temp_dir one_mix_prep))
      (pairings (Generator.audio_files one_mix_prep)
         (Generator.tts_files one_mix_prep)) ∧
  Generator.generate_all second_mix_fails default_settings
    (Generator.sequential_schedule 1) "t1" small_request true empty_world
  = Some one_mix_result ∧
  Generator.total one_mix_result.1 = 1 * 1 ∧
  progress_log (trace one_mix_result.2) = [(0, 1); (1, 1)].
Proof.
  destruct (total_counts_successful_mixes second_mix_fails default_settings "t1"
              small_request empty_world one_mix_prep one_mix_world)
    as (_ & _ & _ & _ & _ & Hall & _ & Hreturned & _).
  - vm_compute. reflexivity.
  - assert (Generator.generate_all second_mix_fails default_settings
              (Generator.sequential_schedule 1) "t1" small_request true empty_world
            = Some one_mix_result) as Hrun by (vm_compute; reflexivity).
    split; [reflexivity|]. split; [reflexivity|]. split.
    { intros Hforall. apply Hall in Hforall. vm_compute in Hforall. discriminate. }
    split; [exact Hrun|].
    destruct (Hreturned _ true one_mix_result.1 one_mix_result.2 Hrun) as [Htotal _].
    split; [exact Htotal | reflexivity].
Defined.

Example small_request_completed :
  Generator.generate_all (constant_server 200 "clip") default_settings
    (Generator.sequential_schedule 2) "t1" small_request true empty_world
  = Some small_result.
Proof. vm_compute. reflexivity. Qed.

(** Two coroutines interleaved, the render of the first one failing: one
    variant in each collection, reports 0, 1, 2. *)
Example partial_failure_run :
  ∃ w,
    Generator.generate_all first_mix_unusable default_settings [1; 0; 1; 0; 1]
      "t1" small_request true empty_world
    = Some ({| Generator.successful :=
                 [("t1_block1_v2_url",
                   "https://storage.googleapis.com/bucket/t1/t1_block1_v2.mp4")];
               Generator.failed := ["t1_block1_v1"];
               Generator.total := 2;
               Generator.urls := [];
               Generator.error := None |}, w) ∧
    progress_log (trace w) = [(0, 2); (1, 2); (2, 2)].
Proof. eexists. split; vm_compute; reflexivity. Qed.

(** C2: in a completed run every scheduled variant has exactly one entry,
    either a URL record in [successful] (under the key of the variant) or
    its identity in [failed]: the entries of the two collections together
    are a rearrangement of the list of variants, which has no duplicates;
    so no variant is in both, and the two sizes add up to [total]. *)
Theorem every_variant_recorded_once (env : Env) (cfg : Settings) (sched : list nat)
    (task_id : string) (data : gmap string json) (progress_callback : bool)
    (w0 : World) (p : Generator.prep) (w1 : World) (r : Generator.Results) (w : World) :
  Generator.prepare env cfg task_id data w0 = (Ok p, w1) →
  Generator.generate_all env cfg sched task_id data progress_callback w0 = Some (r, w) →
  Generator.error r = None →
  let variants := Generator.variant_id task_id <$> Generator.make_tasks p in
  length variants = Generator.total r ∧
  NoDup variants ∧
  (fst <$> Generator.successful r) ++ (url_key <$> Generator.failed r)
    ≡ₚ url_key <$> variants ∧
  length (Generator.successful r) + length (Generator.failed r) = Generator.total r ∧
  (∀ v url, (url_key v, url) ∈ Generator.successful r → v ∉ Generator.failed r).
Proof.
  intros Hprep Hrun Herror variants.
  destruct (generate_all_completed _ _ _ _ _ _ _ _ _ _ _ Hprep Hrun Herror)
    as (s & Hinv & Hfin & -> & ->).
  destruct Hinv as [Hlen _ _ Hentries Htotal _ _]. simpl in Hentries, Htotal.
  apply all_finished_Forall in Hfin.
  rewrite (finished_tasks_all _ _ Hlen Hfin) in Hentries.
  rewrite (list_fmap_compose (Generator.variant_id task_id) url_key) in Hentries.
  fold variants in Hentries.
  assert (length variants = Generator.total (Generator.results s)) as Hcount.
  { unfold variants. by rewrite length_fmap, length_make_tasks, Htotal. }
  assert (NoDup variants) as Hnodup by apply NoDup_variant_ids.
  split_and!; try done.
  - apply Permutation_length in Hentries.
    rewrite length_app, !length_fmap in Hentries. lia.
  - intros v url Hok Hfailed.
    assert (NoDup ((fst <$> Generator.successful (Generator.results s))
                   ++ (url_key <$> Generator.failed (Generator.results s)))) as Hnd.
    { rewrite Hentries. apply NoDup_fmap_2; [apply url_key_inj | done]. }
    apply NoDup_app in Hnd as (_ & Hdisjoint & _).
    apply (Hdisjoint (url_key v)).
    + apply list_elem_of_fmap. by exists (url_key v, url).
    + by apply list_elem_of_fmap_2.
Qed.

Lemma every_variant_recorded_once_witness :
  length (Generator.successful small_result.1) + length (Generator.failed small_result.1)
  = Generator.total small_result.1
  ∧ NoDup (Generator.variant_id "t1" <$> Generator.make_tasks small_prep).
Proof.
  destruct (every_variant_recorded_once (constant_server 200 "clip") default_settings
              (Generator.sequential_schedule 2) "t1" small_request true empty_world
              small_prep small_world small_result.1 small_result.2)
    as (_ & Hnodup & _ & Hsum & _).
  - vm_compute. reflexivity.
  - vm_compute. reflexivity.
  - reflexivity.
  - split; [exact Hsum | exact Hnodup].
Defined.

(** C3: at every moment of the rendering stage the callback has been
    given the values 0, 1, ..., [completed], in this order, each with the
    same total: a sequence that never decreases.  [completed] is the
    number of units that have finished, whether they succeeded or failed;
    it never exceeds the total and equals it exactly when all units have
    finished.  A completed run has reported 0, 1, ..., [total]. *)
Theorem progress_counts_finished_units (env : Env) (cfg : Settings)
    (task_id : string) (data : gmap string json) (w0 : World)
    (p : Generator.prep) (w1 : World) :
  Generator.prepare env cfg task_id data w0 = (Ok p, w1) →
  (∀ sched,
     let s := Generator.run_schedule env cfg task_id p true sched
                (Generator.start_render cfg p
                   (Generator.with_total (Generator.total_variants p)
                      Generator.empty_results)
                   (Generator.report_progress true 0 (Generator.total_variants p) w1)) in
     (∃ reports,
        progress_log (trace (Generator.world s)) = progress_log (trace w0) ++ reports ∧
        reports = (λ c, (c, Generator.total_variants p))
                  <$> seq 0 (S (Generator.completed s)) ∧
        non_decreasing (fst <$> reports)) ∧
     Generator.completed s = tally is_finished (Generator.phases s) ∧
     Generator.completed s ≤ Generator.total_variants p ∧
     (Generator.completed s = Generator.total_variants p
      ↔ Generator.all_finished s = true))
  ∧ (∀ sched r w,
       Generator.generate_all env cfg sched task_id data true w0 = Some (r, w) →
       Generator.error r = None →
       progress_log (trace w)
       = progress_log (trace w0)
         ++ ((λ c, (c, Generator.total r)) <$> seq 0 (S (Generator.total r)))).
Proof.
  intros Hprep.
  pose proof (prepare_silent _ _ _ _ _ _ _ Hprep) as Hquiet.
  assert (∀ s,
    render_inv cfg task_id p true
      (Generator.with_total (Generator.total_variants p) Generator.empty_results)
      (Generator.report_progress true 0 (Generator.total_variants p) w1) s →
    progress_log (trace (Generator.world s))
    = progress_log (trace w0)
      ++ ((λ c, (c, Generator.total_variants p)) <$> seq 0 (S (Generator.completed s))))
    as Hlog.
  { intros s Hinv. rewrite (inv_progress _ _ _ _ _ _ _ Hinv).
    rewrite progress_log_first_report, Hquiet, <-app_assoc. done. }
  split.
  - intros sched s.
    assert (render_inv cfg task_id p true
              (Generator.with_total (Generator.total_variants p) Generator.empty_results)
              (Generator.report_progress true 0 (Generator.total_variants p) w1) s)
      as Hinv by apply run_schedule_inv, start_render_inv.
    pose proof (inv_length _ _ _ _ _ _ _ Hinv) as Hlen.
    pose proof (inv_completed _ _ _ _ _ _ _ Hinv) as Hcompleted.
    rewrite length_make_tasks in Hlen.
    split_and!.
    + eexists. split; [by apply Hlog|]. split; [done|].
      intros i j a b Hij Ha Hb.
      rewrite <-list_fmap_compose, list_lookup_fmap in Ha, Hb.
      destruct (seq 0 _ !! i) as [ci|] eqn:Hi; [|done].
      destruct (seq 0 _ !! j) as [cj|] eqn:Hj; [|done].
      apply lookup_seq in Hi as [-> _]. apply lookup_seq in Hj as [-> _].
      simpl in *. simplify_eq. lia.
    + done.
    + rewrite Hcompleted, <-Hlen. apply tally_finished_le.
    + rewrite Hcompleted, <-Hlen, tally_finished_all. symmetry.
      apply all_finished_Forall.
  - intros sched r w Hrun Herror.
    destruct (generate_all_completed _ _ _ _ _ _ _ _ _ _ _ Hprep Hrun Herror)
      as (s & Hinv & Hfin & -> & ->).
    rewrite progress_log_rmtree, (Hlog s Hinv).
    pose proof (inv_length _ _ _ _ _ _ _ Hinv) as Hlen.
    rewrite length_make_tasks in Hlen.
    apply all_finished_Forall, tally_finished_all in Hfin.
    rewrite <-(inv_completed _ _ _ _ _ _ _ Hinv), Hlen in Hfin.
    by rewrite (inv_total _ _ _ _ _ _ _ Hinv), Hfin.
Qed.

Lemma progress_counts_finished_units_witness :
  progress_log (trace small_result.2) = [(0, 2); (1, 2); (2, 2)].
Proof.
  destruct (progress_counts_finished_units (constant_server 200 "clip")
              default_settings "t1" small_request empty_world small_prep small_world)
    as [_ Hfinal].
  - vm_compute. reflexivity.
  - rewrite (Hfinal (Generator.sequential_schedule 2) small_result.1 small_result.2).
    + reflexivity.
    + vm_compute. reflexivity.
    + reflexivity.
Defined.

(** * Further properties of the services *)

(** ** services/download.py: what a failed download leaves behind *)

(** X1: a download touches no file but its destination and makes exactly
    one request.  A transport error, a status other than 200 or a
    destination that cannot be opened leave the files as they were; a body
    that cannot be read after the destination was opened leaves an empty
    destination file behind, with the result [False]. *)
Theorem download_file_leaves (env : Env) (url : json) (dest_path : Path)
    (timeout : Z) (w : World) :
  let w' := (Download.download_file env url dest_path timeout w).2 in
  (∀ p, p ≠ dest_path → files w' !! p = files w !! p) ∧
  dirs w' = dirs w ∧
  trace w' = trace w ++ [EvHttpGet url timeout] ∧
  (http_get env url timeout = HttpError → files w' = files w) ∧
  (∀ status body, http_get env url timeout = HttpResponse status body →
     status ≠ 200%Z → files w' = files w) ∧
  (∀ body, http_get env url timeout = HttpResponse 200 body →
     open_wb_ok env dest_path = false → files w' = files w) ∧
  (http_get env url timeout = HttpResponse 200 None →
     open_wb_ok env dest_path = true →
     (Download.download_file env url dest_path timeout w).1 = Ok false ∧
     files w' !! dest_path = Some "").
Proof.
  unfold Download.download_file, bind, emit, modify, ret.
  destruct (http_get env url timeout) as [|status body]; simpl.
  { split_and!; intros; by simplify_eq/=. }
  case_bool_decide as Hst; simpl.
  - subst. destruct (open_wb_ok env dest_path); simpl.
    + destruct body as [content|]; simpl.
      * split_and!; try (intros; by simplify_eq/=).
        intros p Hp. by rewrite !lookup_insert_ne.
      * split_and!; try (intros; by simplify_eq/=).
        -- intros p Hp. by rewrite lookup_insert_ne.
        -- intros _ _. split; [done|]. apply lookup_insert_eq.
    + split_and!; intros; by simplify_eq/=.
  - split_and!; intros; by simplify_eq/=.
Qed.

Lemma download_file_leaves_witness :
  (Download.download_file (constant_server 404 "gone") (JStr "http://host/v1.mp4")
     "/clips/a.mp4" 300 two_clips).1 = Ok false ∧
  files (Download.download_file (constant_server 404 "gone")
           (JStr "http://host/v1.mp4") "/clips/a.mp4" 300 two_clips).2
  = files two_clips.
Proof.
  split; [reflexivity|].
  destruct (download_file_leaves (constant_server 404 "gone")
              (JStr "http://host/v1.mp4") "/clips/a.mp4" 300 two_clips)
    as (_ & _ & _ & _ & Hstatus & _).
  apply (Hstatus 404%Z (Some "gone")); [reflexivity | discriminate].
Defined.

(** ** services/video.py: the two concatenation methods and their order *)

Lemma path_exists_files w1 w2 p :
  files w1 = files w2 → path_exists w1 p = path_exists w2 p.
Proof. unfold path_exists. by intros ->. Qed.

Lemma concatenate_with_demuxer_result env video_paths output_path w :
  let r := ffmpeg_demuxer env video_paths output_path in
  let ok := exit_ok r && output_present output_path r w in
  ∃ w',
    Video.concatenate_with_demuxer env video_paths output_path w = (Ok ok, w') ∧
    files w' = files (keep_output output_path (produced r) w) ∧
    trace w' = trace w ++ EvDemuxer video_paths output_path
                 :: (if ok then [EvFfprobe output_path] else []).
Proof.
  intros r ok. subst ok. unfold output_present.
  unfold Video.concatenate_with_demuxer, Video.get_video_info, bind, emit, modify,
    gets, ret. fold r.
  assert (∀ o, path_exists (keep_output output_path o (log (EvDemuxer video_paths
            output_path) w)) output_path = path_exists (keep_output output_path o w)
            output_path) as Hsame.
  { intros o. apply path_exists_files. by destruct o. }
  destruct (exit_ok r); simpl.
  - rewrite Hsame. destruct (path_exists _ _); simpl.
    + eexists. split; [done|]. simpl. rewrite trace_keep_output. simpl.
      split; [by destruct (produced r) | by rewrite <-app_assoc].
    + eexists. split; [done|]. rewrite trace_keep_output. simpl.
      split; [by destruct (produced r) | done].
  - eexists. split; [done|]. rewrite trace_keep_output. simpl.
    split; [by destruct (produced r) | done].
Qed.

Lemma concatenate_with_filter_result env first rest output_path w :
  let tw := Video.target_width (ffprobe env first) in
  let th := Video.target_height (ffprobe env first) in
  let r := ffmpeg_filter env (first :: rest) tw th output_path in
  let ok := exit_ok r && output_present output_path r w in
  ∃ w',
    Video.concatenate_with_filter env (first :: rest) output_path w = (Ok ok, w') ∧
    files w' = files (keep_output output_path (produced r) w) ∧
    trace w' = trace w ++ EvFfprobe first
                 :: EvFilter (first :: rest) tw th output_path
                 :: (if ok then EvFfprobe <$> output_path :: first :: rest else []).
Proof.
  intros tw th r ok. subst ok. unfold output_present.
  unfold Video.concatenate_with_filter, Video.get_video_info, bind, emit, modify,
    gets, ret. fold tw th r.
  assert (∀ o w1, files w1 = files w →
            path_exists (keep_output output_path o w1) output_path
            = path_exists (keep_output output_path o w) output_path) as Hsame.
  { intros o w1 Hw1. apply path_exists_files. destruct o; simpl; by rewrite ?Hw1. }
  destruct (exit_ok r); cbn [andb].
  - rewrite Hsame by done. destruct (path_exists _ _).
    + rewrite probe_all_run. eexists. split; [done|]. simpl.
      rewrite trace_keep_output. simpl.
      split; [by destruct (produced r) | by rewrite <-!app_assoc].
    + eexists. split; [done|]. rewrite trace_keep_output. simpl.
      split; [by destruct (produced r) | by rewrite <-!app_assoc].
  - eexists. split; [done|]. rewrite trace_keep_output. simpl.
    split; [by destruct (produced r) | by rewrite <-!app_assoc].
Qed.

Lemma output_present_kept out r w w' :
  files w' = files (keep_output out (produced r) w) →
  output_present out r w = true → path_exists w' out = true.
Proof.
  intros Hfiles Hpresent. unfold output_present in Hpresent.
  by rewrite (path_exists_files w' _ out Hfiles).
Qed.

(** X2: exactly one input is copied as it is: the output gets the bytes of
    the input and nothing is probed or encoded; a copy that fails raises
    instead of returning [False]. *)
Theorem single_input_is_copied (env : Env) (vp output_path : Path) (w : World)
    (content : bytes) :
  files w !! vp = Some content →
  (copy2_ok env vp output_path = true →
     ∃ w', Video.concatenate_videos env [vp] output_path w = (Ok true, w') ∧
           files w' = <[output_path := content]> (files w) ∧
           trace w' = trace w ++ [EvCopy vp output_path]) ∧
  (copy2_ok env vp output_path = false →
     ∃ e w', Video.concatenate_videos env [vp] output_path w = (Raise e, w')).
Proof.
  intros Hfile.
  assert (path_exists w vp = true) as Hexists.
  { unfold path_exists. rewrite Hfile. by apply bool_decide_eq_true_2. }
  unfold Video.concatenate_videos, Video.copy2, bind, gets, emit, modify, ret, raise.
  simpl. rewrite Hexists. simpl. rewrite Hfile.
  split; intros ->; eauto.
Qed.

Lemma single_input_is_copied_witness :
  ∃ w', Video.concatenate_videos (constant_server 200 "") ["/clips/a.mp4"]
          "/clips/out.mp4" two_clips = (Ok true, w') ∧
        files w' = <["/clips/out.mp4" := "A"]> (files two_clips) ∧
        trace w' = trace two_clips ++ [EvCopy "/clips/a.mp4" "/clips/out.mp4"].
Proof.
  apply (single_input_is_copied (constant_server 200 "") "/clips/a.mp4"
           "/clips/out.mp4" two_clips "A"); reflexivity.
Defined.

(** X3: for files that exist and match the first one, the stream copy is
    tried first; if it succeeds nothing is re-encoded, and if it fails the
    re-encoding runs next, on the same inputs and towards the first
    file's resolution, and decides the result. *)
Theorem stream_copy_then_reencode (env : Env) (first second : Path)
    (others : list Path) (output_path : Path) (w : World) :
  let video_paths := first :: second :: others in
  let fast := ffmpeg_demuxer env video_paths output_path in
  let tw := Video.target_width (ffprobe env first) in
  let th := Video.target_height (ffprobe env first) in
  let safe := ffmpeg_filter env video_paths tw th output_path in
  forallb (path_exists w) video_paths = true →
  Forall (λ vp, matches_first (ffprobe env first) (ffprobe env vp)) (second :: others) →
  ∃ ok w' evs,
    Video.concatenate_videos env video_paths output_path w = (Ok ok, w') ∧
    trace w' = trace w ++ (EvFfprobe <$> video_paths)
                 ++ EvDemuxer video_paths output_path :: evs ∧
    if exit_ok fast && output_present output_path fast w
    then ok = true ∧ evs = [EvFfprobe output_path]
    else ok = exit_ok safe
              && output_present output_path safe
                   (keep_output output_path (produced fast) w) ∧
         ∃ probes, evs = EvFfprobe first
                           :: EvFilter video_paths tw th output_path :: probes.
Proof.
  intros video_paths fast tw th safe Hexist Hmatch.
  assert (Video.compare_with_first (ffprobe env first)
            (ffprobe env <$> second :: others) = true) as Hcompatible.
  { by rewrite compare_with_first_spec, Forall_fmap. }
  subst video_paths. unfold Video.concatenate_videos, bind, gets.
  rewrite Hexist. change (negb true) with false. cbv beta iota.
  rewrite check_videos_compatible_run, Hcompatible.
  set (w1 := {| files := files w; dirs := dirs w; trace := _ |}).
  destruct (concatenate_with_demuxer_result env (first :: second :: others)
              output_path w1) as (w2 & Hfast & Hfiles2 & Htrace2).
  rewrite Hfast. cbv beta iota. fold fast in Hfiles2, Htrace2 |- *.
  assert (∀ o, output_present output_path o w1 = output_present output_path o w)
    as Hsame.
  { intros o. unfold output_present. apply path_exists_files.
    by destruct (produced o). }
  rewrite Hsame in Htrace2 |- *.
  destruct (exit_ok fast && output_present output_path fast w) eqn:Hok.
  - eexists true, w2, _. split; [done|]. split; [|done].
    rewrite Htrace2. simpl. by rewrite <-app_assoc.
  - destruct (concatenate_with_filter_result env first (second :: others)
                output_path w2) as (w3 & Hsafe & Hfiles3 & Htrace3).
    fold tw th safe in Hsafe, Hfiles3, Htrace3. rewrite Hsafe.
    eexists _, w3, _. split; [done|]. split.
    + rewrite Htrace3, Htrace2. simpl. by rewrite <-!app_assoc.
    + split; [|by eexists].
      f_equal. unfold output_present. apply path_exists_files.
      destruct (produced safe); simpl; [|rewrite Hfiles2; by destruct (produced fast)].
      rewrite Hfiles2. by destruct (produced fast).
Qed.

Lemma stream_copy_then_reencode_witness :
  ∃ w' evs,
    Video.concatenate_videos broken_demuxer ["/clips/a.mp4"; "/clips/b.mp4"]
      "/clips/out.mp4" two_clips = (Ok true, w') ∧
    trace w' = trace two_clips
                 ++ (EvFfprobe <$> ["/clips/a.mp4"; "/clips/b.mp4"])
                 ++ EvDemuxer ["/clips/a.mp4"; "/clips/b.mp4"] "/clips/out.mp4"
                 :: EvFfprobe "/clips/a.mp4"
                 :: EvFilter ["/clips/a.mp4"; "/clips/b.mp4"] (Some 1920%Z)
                      (Some 1080%Z) "/clips/out.mp4" :: evs.
Proof.
  destruct (stream_copy_then_reencode broken_demuxer "/clips/a.mp4" "/clips/b.mp4"
              [] "/clips/out.mp4" two_clips)
    as (ok & w' & evs & Hrun & Htrace & Hcase).
  - reflexivity.
  - repeat constructor.
  - simpl in Hcase. destruct Hcase as [-> [probes ->]].
    exists w', probes. split; [exact Hrun | exact Htrace].
Defined.

(** X4: files that cannot be probed all look alike: when [ffprobe] fails on
    every input the probe answers [True] and the stream copy is tried. *)
Theorem unprobed_files_count_as_compatible (env : Env) (first second : Path)
    (others : list Path) (w : World) :
  (∀ vp, vp ∈ first :: second :: others → ffprobe env vp = None) →
  (Video.check_videos_compatible env (first :: second :: others) w).1 = Ok true.
Proof.
  intros Hnone. rewrite check_videos_compatible_run. cbn [fst]. f_equal.
  apply compare_with_first_spec, Forall_fmap, Forall_forall. intros vp Hin.
  unfold matches_first. cbn [compose].
  rewrite (Hnone first) by (by left). rewrite (Hnone vp) by (by right).
  by split_and!.
Qed.

Lemma unprobed_files_count_as_compatible_witness :
  (Video.check_videos_compatible (constant_server 200 "")
     ["/clips/a.mp4"; "/clips/b.mp4"] two_clips).1 = Ok true.
Proof.
  apply (unprobed_files_count_as_compatible (constant_server 200 "")
           "/clips/a.mp4" "/clips/b.mp4" [] two_clips).
  intros vp _. reflexivity.
Defined.

(** ** services/generator.py: the download loops *)

Lemma for_enumerate_app {A St} (body : nat → A → St → M St) xs ys idx acc w :
  for_enumerate body idx (xs ++ ys) acc w
  = bind (for_enumerate body idx xs acc)
      (λ acc', for_enumerate body (idx + length xs) ys acc') w.
Proof.
  revert idx acc w. induction xs as [|x xs IH]; intros idx acc w; simpl.
  - unfold bind, ret. by rewrite Nat.add_0_r.
  - unfold bind. destruct (body idx x acc w) as [[acc'|e] w1]; [|done].
    rewrite IH. unfold bind.
    by replace (S idx + length xs) with (idx + S (length xs)) by lia.
Qed.

Lemma download_file_run env url dest timeout w :
  ∃ w',
    Download.download_file env url dest timeout w
    = (Ok (fetched env url dest timeout), w') ∧
    trace w' = trace w ++ [EvHttpGet url timeout] ∧
    dirs w' = dirs w ∧
    (∀ p, p ≠ dest → files w' !! p = files w !! p) ∧
    (∀ p, is_Some (files w !! p) → is_Some (files w' !! p)) ∧
    (fetched env url dest timeout = true → is_Some (files w' !! dest)).
Proof.
  unfold Download.download_file, fetched, bind, emit, modify, ret.
  destruct (http_get env url timeout) as [|status body]; simpl.
  { eexists. split; [done|]. by split_and!. }
  case_bool_decide; simpl.
  - destruct (open_wb_ok env dest); simpl.
    + destruct body as [content|]; simpl.
      * eexists. split; [done|]. simpl. split_and!; try done.
        -- intros p Hp. by rewrite !lookup_insert_ne.
        -- intros p Hp. destruct (decide (p = dest)) as [->|?].
           ++ rewrite lookup_insert_eq. by eexists.
           ++ by rewrite !lookup_insert_ne.
        -- intros _. rewrite lookup_insert_eq. by eexists.
      * eexists. split; [done|]. simpl. split_and!; try done.
        -- intros p Hp. by rewrite lookup_insert_ne.
        -- intros p Hp. destruct (decide (p = dest)) as [->|?].
           ++ rewrite lookup_insert_eq. by eexists.
           ++ by rewrite lookup_insert_ne.
    + destruct body; eexists; (split; [done|]); by split_and!.
  - destruct body; eexists; (split; [done|]); by split_and!.
Qed.


(** Every URL can be fetched: the loop returns the destinations in order. *)
Lemma download_loop_ok env timeout name failure urls idx acc w :
  (∀ j url, urls !! j = Some url → fetched env url (name (idx + j)) timeout = true) →
  ∃ w',
    for_enumerate (download_each env timeout name failure) idx urls acc w
    = (Ok (acc ++ (name <$> seq idx (length urls))), w') ∧
    trace w' = trace w ++ requests timeout urls ∧
    dirs w' = dirs w ∧
    (∀ p, p ∉ name <$> seq idx (length urls) → files w' !! p = files w !! p) ∧
    (∀ p, is_Some (files w !! p) → is_Some (files w' !! p)) ∧
    (∀ p, p ∈ name <$> seq idx (length urls) → is_Some (files w' !! p)).
Proof.
  revert idx acc w. induction urls as [|url urls IH]; intros idx acc w Hall.
  - exists w. simpl. unfold ret. rewrite !app_nil_r. split_and!; try done.
    intros p Hp. by apply elem_of_nil in Hp.
  - simpl. unfold download_each at 1. unfold bind.
    destruct (download_file_run env url (name idx) timeout w)
      as (w1 & -> & Htrace1 & Hdirs1 & Hother1 & Hmono1 & Hdest1).
    pose proof (Hall 0 url eq_refl) as Hfetched. rewrite Nat.add_0_r in Hfetched.
    rewrite Hfetched. unfold ret at 1.
    destruct (IH (S idx) (acc ++ [name idx]) w1) as
      (w' & -> & Htrace & Hdirs & Hother & Hmono & Hdest).
    { intros j u Hj. replace (S idx + j) with (idx + S j) by lia. by apply Hall. }
    exists w'. rewrite <-app_assoc. split; [done|]. split_and!.
    + rewrite Htrace, Htrace1. unfold requests. simpl. by rewrite <-app_assoc.
    + by rewrite Hdirs.
    + intros p Hp. rewrite not_elem_of_cons in Hp. destruct Hp as [Hne Hp].
      rewrite Hother by done. by apply Hother1.
    + intros p Hp. by apply Hmono, Hmono1.
    + intros p Hp. apply elem_of_cons in Hp as [->|Hp]; [|by apply Hdest].
      by apply Hmono, Hdest1.
Qed.

(** The first URL that cannot be fetched ends the loop with its index. *)
Lemma download_loop_fail env timeout name failure pre url post idx acc w :
  (∀ j u, pre !! j = Some u → fetched env u (name (idx + j)) timeout = true) →
  fetched env url (name (idx + length pre)) timeout = false →
  ∃ w',
    for_enumerate (download_each env timeout name failure) idx (pre ++ url :: post) acc w
    = (Raise (failure (idx + length pre)), w') ∧
    trace w' = trace w ++ requests timeout (pre ++ [url]) ∧
    dirs w' = dirs w.
Proof.
  intros Hpre Hurl. rewrite for_enumerate_app. unfold bind at 1.
  destruct (download_loop_ok env timeout name failure pre idx acc w Hpre)
    as (w1 & -> & Htrace1 & Hdirs1 & _).
  simpl. unfold download_each at 1. unfold bind.
  destruct (download_file_run env url (name (idx + length pre)) timeout w1)
    as (w2 & -> & Htrace2 & Hdirs2 & _).
  rewrite Hurl. exists w2. split; [done|]. split.
  - rewrite Htrace2, Htrace1. unfold requests. by rewrite fmap_app, <-app_assoc.
  - by rewrite Hdirs2.
Qed.

(** A loop that returned has fetched every URL. *)
Lemma download_loop_inv env timeout name failure urls idx acc w r w' :
  for_enumerate (download_each env timeout name failure) idx urls acc w = (Ok r, w') →
  ∀ j url, urls !! j = Some url → fetched env url (name (idx + j)) timeout = true.
Proof.
  revert idx acc w. induction urls as [|url urls IH]; intros idx acc w Hrun j u Hj.
  - done.
  - simpl in Hrun. unfold download_each at 1 in Hrun. unfold bind in Hrun.
    destruct (download_file_run env url (name idx) timeout w) as (w1 & Hdl & _).
    rewrite Hdl in Hrun.
    destruct (fetched env url (name idx) timeout) eqn:Hfetched; [|done].
    unfold ret at 1 in Hrun. destruct j as [|j]; simplify_eq/=.
    + by rewrite Nat.add_0_r.
    + replace (idx + S j) with (S idx + j) by lia. by eapply IH.
Qed.

(** ** services/video.py: only the output path is written *)

Lemma concatenate_with_demuxer_frame env video_paths output_path w p :
  p ≠ output_path →
  files (Video.concatenate_with_demuxer env video_paths output_path w).2 !! p
  = files w !! p.
Proof.
  intros Hne.
  destruct (concatenate_with_demuxer_result env video_paths output_path w)
    as (w' & Hrun & Hfiles & _).
  rewrite Hrun. cbn [snd]. rewrite Hfiles. by apply files_keep_output_ne.
Qed.

Lemma concatenate_with_filter_frame env video_paths output_path w p :
  p ≠ output_path →
  files (Video.concatenate_with_filter env video_paths output_path w).2 !! p
  = files w !! p.
Proof.
  intros Hne. destruct video_paths as [|first rest]; [done|].
  destruct (concatenate_with_filter_result env first rest output_path w)
    as (w' & Hrun & Hfiles & _).
  rewrite Hrun. cbn [snd]. rewrite Hfiles. by apply files_keep_output_ne.
Qed.

Lemma concatenate_videos_frame env video_paths output_path w p :
  p ≠ output_path →
  files (Video.concatenate_videos env video_paths output_path w).2 !! p
  = files w !! p.
Proof.
  intros Hne. destruct video_paths as [|first [|second others]].
  - done.
  - unfold Video.concatenate_videos, Video.copy2, bind, gets, emit, modify, ret, raise.
    destruct (forallb _ _); simpl; [|done].
    destruct (files w !! first) as [c|]; simpl; [|done].
    destruct (copy2_ok env first output_path); simpl; [|done].
    by rewrite lookup_insert_ne.
  - unfold Video.concatenate_videos, bind, gets.
    destruct (forallb _ _); [|done]. change (negb true) with false. cbv beta iota.
    rewrite check_videos_compatible_run.
    set (w1 := {| files := files w; dirs := dirs w; trace := _ |}).
    assert (∀ w3, files w3 !! p = files w !! p →
              files (Video.concatenate_with_filter env (first :: second :: others)
                       output_path w3).2 !! p = files w !! p) as Hsafe.
    { intros w3 <-. by apply concatenate_with_filter_frame. }
    destruct (Video.compare_with_first _ _); [|by apply Hsafe].
    pose proof (concatenate_with_demuxer_frame env (first :: second :: others)
                  output_path w1 p Hne) as Hfast.
    destruct (Video.concatenate_with_demuxer env (first :: second :: others)
                output_path w1) as [[[]|e] w2]; simpl in *; [done| |done].
    by apply Hsafe.
Qed.

Lemma concatenate_videos_output env video_paths output_path w w' :
  Video.concatenate_videos env video_paths output_path w = (Ok true, w') →
  path_exists w' output_path = true.
Proof.
  destruct video_paths as [|first [|second others]].
  - done.
  - unfold Video.concatenate_videos, Video.copy2, bind, gets, emit, modify, ret, raise.
    destruct (forallb _ _); simpl; [|done].
    destruct (files w !! first) as [c|]; simpl; [|done].
    destruct (copy2_ok env first output_path); [|done].
    intros [= <-]. unfold path_exists. simpl. rewrite lookup_insert_eq.
    by apply bool_decide_eq_true_2.
  - unfold Video.concatenate_videos, bind, gets.
    destruct (forallb _ _); [|done]. change (negb true) with false. cbv beta iota.
    rewrite check_videos_compatible_run.
    set (w1 := {| files := files w; dirs := dirs w; trace := _ |}).
    destruct (concatenate_with_demuxer_result env (first :: second :: others)
                output_path w1) as (w2 & Hfast & Hfiles2 & _).
    assert (∀ w3 w4,
      Video.concatenate_with_filter env (first :: second :: others) output_path w3
      = (Ok true, w4) → path_exists w4 output_path = true) as Hsafe.
    { intros w3 w4. destruct (concatenate_with_filter_result env first
        (second :: others) output_path w3) as (w5 & -> & Hfiles5 & _).
      intros [= Hok <-]. apply andb_true_iff in Hok as [_ Hok].
      by eapply output_present_kept. }
    destruct (Video.compare_with_first _ _); [|by apply Hsafe].
    rewrite Hfast. cbv beta iota.
    destruct (exit_ok _ && output_present _ _ w1) eqn:Hok; [|by apply Hsafe].
    intros [= <-]. apply andb_true_iff in Hok as [_ Hok].
    by eapply output_present_kept.
Qed.
(** X5: when [concatenate_videos] returns [True] the output file is on
    disk, whichever method produced it; and whatever it returns, no file
    other than the output has been created, changed or removed. *)
Theorem concatenation_success_means_output (env : Env) (video_paths : list Path)
    (output_path : Path) (w w' : World) (ok : res bool) :
  Video.concatenate_videos env video_paths output_path w = (ok, w') →
  (ok = Ok true → path_exists w' output_path = true) ∧
  (∀ p, p ≠ output_path → files w' !! p = files w !! p).
Proof.
  intros Hrun. split.
  - intros ->. by eapply concatenate_videos_output.
  - intros p Hne.
    pose proof (concatenate_videos_frame env video_paths output_path w p Hne) as H.
    by rewrite Hrun in H.
Qed.

Lemma concatenation_success_means_output_witness :
  ∃ w', Video.concatenate_videos same_properties ["/clips/a.mp4"; "/clips/b.mp4"]
          "/clips/out.mp4" two_clips = (Ok true, w') ∧
        path_exists w' "/clips/out.mp4" = true ∧
        files w' !! "/clips/a.mp4" = Some "A".
Proof.
  eexists. split; [vm_compute; reflexivity|].
  destruct (concatenation_success_means_output same_properties
              ["/clips/a.mp4"; "/clips/b.mp4"] "/clips/out.mp4" two_clips _ _
              ltac:(vm_compute; reflexivity)) as [Hout Hframe].
  split; [by apply Hout|]. by rewrite Hframe.
Defined.


(** ** services/generator.py: [process_video_block] *)

Lemma concatenated_not_downloaded temp_dir block_name idx :
  concatenated_path temp_dir block_name ≠ video_path temp_dir block_name idx.
Proof.
  unfold concatenated_path, video_path, path_join. intros Heq.
  apply (f_equal String.list_ascii_of_string) in Heq.
  rewrite !chars_app in Heq. do 3 apply app_inv_head in Heq. done.
Qed.

Lemma unlink_loop_inv paths idx w u w' :
  for_enumerate (λ _ video_path _, Generator.unlink video_path) idx paths tt w
  = (Ok u, w') →
  (∀ p, p ∈ paths → files w' !! p = None) ∧
  (∀ p, p ∉ paths → files w' !! p = files w !! p) ∧
  trace w' = trace w ++ (EvUnlink <$> paths).
Proof.
  revert idx w. induction paths as [|vp paths IH]; intros idx w Hrun.
  - simpl in Hrun. unfold ret in Hrun. simplify_eq. split_and!.
    + intros p Hp. by apply elem_of_nil in Hp.
    + done.
    + simpl. by rewrite app_nil_r.
  - simpl in Hrun. unfold bind, Generator.unlink, bind, emit, gets, modify, raise
      in Hrun. simpl in Hrun.
    destruct (path_exists _ vp); [|done].
    apply IH in Hrun as (Hgone & Hkept & Htrace). split_and!.
    + intros p Hp. destruct (decide (p ∈ paths)) as [Hin|Hnotin]; [by apply Hgone|].
      apply elem_of_cons in Hp as [->|?]; [|done].
      rewrite Hkept by done. simpl. apply lookup_delete_eq.
    + intros p Hp. apply not_elem_of_cons in Hp as [Hne Hp].
      rewrite Hkept by done. simpl. by rewrite lookup_delete_ne.
    + rewrite Htrace. simpl. by rewrite <-app_assoc.
Qed.

(** X6: a block that was processed leaves its concatenated file on disk
    and none of its downloaded clips; every other file is as before. *)
Theorem process_video_block_cleans_up (env : Env) (cfg : Settings)
    (video_urls : list json) (block_name : string) (temp_dir : Path)
    (w w' : World) (p : Path) :
  Generator.process_video_block env cfg video_urls block_name temp_dir w
  = (Ok p, w') →
  p = concatenated_path temp_dir block_name ∧
  path_exists w' p = true ∧
  (∀ idx, idx < length video_urls →
     path_exists w' (video_path temp_dir block_name idx) = false) ∧
  (∀ q, q ≠ p → (∀ idx, q ≠ video_path temp_dir block_name idx) →
     files w' !! q = files w !! q).
Proof.
  unfold Generator.process_video_block. intros Hrun.
  apply bind_ok_inv in Hrun as (downloaded & w1 & Hloop & Hrun).
  pose proof (download_loop_inv env (download_timeout cfg)
                (video_path temp_dir block_name)
                (λ idx, Exception ("Failed to download " +:+ block_name
                                   +:+ " video " +:+ pretty idx))
                video_urls 0 [] w _ _ Hloop) as Hfetched.
  destruct (download_loop_ok env (download_timeout cfg)
              (video_path temp_dir block_name)
              (λ idx, Exception ("Failed to download " +:+ block_name
                                 +:+ " video " +:+ pretty idx))
              video_urls 0 [] w Hfetched)
    as (w1' & Hloop' & _ & _ & Hother1 & _ & _).
  assert (downloaded = video_path temp_dir block_name <$> seq 0 (length video_urls)
          ∧ w1' = w1) as [-> ->].
  { assert ((Ok downloaded, w1)
            = (Ok (video_path temp_dir block_name <$> seq 0 (length video_urls)), w1'))
      as Hsame by (rewrite <-Hloop; exact Hloop').
    by simplify_eq. }
  apply bind_ok_inv in Hrun as (ok & w2 & Hconcat & Hrun).
  destruct ok; [|done].
  apply bind_ok_inv in Hrun as (u & w3 & Hunlink & Hrun).
  unfold ret in Hrun. simplify_eq.
  apply unlink_loop_inv in Hunlink as (Hgone & Hkept & _).
  fold (concatenated_path temp_dir block_name) in *.
  assert (concatenated_path temp_dir block_name
          ∉ video_path temp_dir block_name <$> seq 0 (length video_urls)) as Hout.
  { intros (idx & Heq & _)%list_elem_of_fmap. by eapply concatenated_not_downloaded. }
  split; [done|]. split_and!.
  - unfold path_exists. rewrite Hkept by done.
    by apply (concatenate_videos_output _ _ _ _ _ Hconcat).
  - intros idx Hidx. unfold path_exists. rewrite Hgone; [by apply bool_decide_eq_false_2, is_Some_None|].
    apply list_elem_of_fmap. exists idx. split; [done|].
    apply elem_of_seq. lia.
  - intros q Hq Hclips. rewrite Hkept.
    + pose proof (concatenate_videos_frame env
        (video_path temp_dir block_name <$> seq 0 (length video_urls))
        (concatenated_path temp_dir block_name) w1 q Hq) as Hframe.
      rewrite Hconcat in Hframe. cbn [snd] in Hframe. rewrite Hframe.
      apply Hother1. intros (idx & -> & _)%list_elem_of_fmap. by eapply Hclips.
    + intros (idx & -> & _)%list_elem_of_fmap. by eapply Hclips.
Qed.

Lemma process_video_block_cleans_up_witness :
  block_processed.1 = Ok "/tmp/t/block1_concatenated.mp4" ∧
  path_exists block_processed.2 "/tmp/t/block1_concatenated.mp4" = true ∧
  path_exists block_processed.2 "/tmp/t/block1_video_1.mp4" = false.
Proof.
  destruct (process_video_block_cleans_up (constant_server 200 "clip")
              default_settings two_urls "block1" "/tmp/t" empty_world
              block_processed.2 "/tmp/t/block1_concatenated.mp4")
    as (_ & Hout & Hclips & _).
  - vm_compute. reflexivity.
  - split; [reflexivity|]. split; [exact Hout|]. apply (Hclips 1). simpl. lia.
Defined.

(** X7: the first clip that cannot be fetched aborts the block with its
    index in the message; the clips after it are never requested and
    nothing is concatenated. *)
Theorem process_video_block_stops_at_first_failure (env : Env) (cfg : Settings)
    (pre post : list json) (url : json) (block_name : string) (temp_dir : Path)
    (w : World) :
  (∀ j u, pre !! j = Some u →
     fetched env u (video_path temp_dir block_name j) (download_timeout cfg) = true) →
  fetched env url (video_path temp_dir block_name (length pre))
    (download_timeout cfg) = false →
  ∃ w',
    Generator.process_video_block env cfg (pre ++ url :: post) block_name temp_dir w
    = (Raise (Exception ("Failed to download " +:+ block_name +:+ " video "
                         +:+ pretty (length pre))), w') ∧
    trace w' = trace w ++ requests (download_timeout cfg) (pre ++ [url]).
Proof.
  intros Hpre Hurl.
  destruct (download_loop_fail env (download_timeout cfg)
              (video_path temp_dir block_name)
              (λ idx, Exception ("Failed to download " +:+ block_name
                                 +:+ " video " +:+ pretty idx))
              pre url post 0 [] w Hpre Hurl) as (w' & Hloop & Htrace & _).
  exists w'. split; [|done].
  unfold Generator.process_video_block. apply bind_raise. exact Hloop.
Qed.

Lemma process_video_block_stops_at_first_failure_witness :
  ∃ w',
    Generator.process_video_block second_unreachable default_settings
      (two_urls ++ [JStr "http://host/v3.mp4"]) "block1" "/tmp/t" empty_world
    = (Raise (Exception "Failed to download block1 video 1"), w') ∧
    trace w' = requests 300 two_urls.
Proof.
  apply (process_video_block_stops_at_first_failure second_unreachable
           default_settings [JStr "http://host/v1.mp4"] [JStr "http://host/v3.mp4"]
           (JStr "http://host/v2.mp4") "block1" "/tmp/t" empty_world).
  - intros [|[|j]] u Hj; simplify_eq/=. reflexivity.
  - reflexivity.
Defined.

(** ** services/generator.py: [download_all_audio] *)

(** X8: the background tracks are fetched in order, one request each; the
    call returns exactly when every track could be fetched, and then with
    the files [audio_0.mp3], [audio_1.mp3], ... in order, all on disk. *)
Theorem download_all_audio_all_or_nothing (env : Env) (cfg : Settings)
    (audio_urls : list json) (temp_dir : Path) (w : World) :
  let all_fetched :=
    ∀ j url, audio_urls !! j = Some url →
      fetched env url (audio_path temp_dir j) (download_timeout cfg) = true in
  (all_fetched →
     ∃ w',
       Generator.download_all_audio env cfg audio_urls temp_dir w
       = (Ok (audio_path temp_dir <$> seq 0 (length audio_urls)), w') ∧
       trace w' = trace w ++ requests (download_timeout cfg) audio_urls ∧
       ∀ idx, idx < length audio_urls →
         path_exists w' (audio_path temp_dir idx) = true) ∧
  (∀ audio_files w',
     Generator.download_all_audio env cfg audio_urls temp_dir w
     = (Ok audio_files, w') → all_fetched).
Proof.
  intros all_fetched. subst all_fetched. split.
  - intros Hall.
    destruct (download_loop_ok env (download_timeout cfg) (audio_path temp_dir)
                (λ idx, Exception ("Failed to download audio " +:+ pretty idx))
                audio_urls 0 [] w Hall)
      as (w' & Hloop & Htrace & _ & _ & _ & Hdest).
    exists w'. split; [exact Hloop|]. split; [done|].
    intros idx Hidx. unfold path_exists. apply bool_decide_eq_true_2, Hdest.
    apply list_elem_of_fmap. exists idx. split; [done|]. apply elem_of_seq. lia.
  - intros audio_files w' Hrun.
    exact (download_loop_inv env (download_timeout cfg) (audio_path temp_dir)
             (λ idx, Exception ("Failed to download audio " +:+ pretty idx))
             audio_urls 0 [] w _ _ Hrun).
Qed.

Lemma download_all_audio_all_or_nothing_witness :
  ∃ w',
    Generator.download_all_audio (constant_server 200 "clip") default_settings
      two_urls "/tmp/t" empty_world
    = (Ok ["/tmp/t/audio_0.mp3"; "/tmp/t/audio_1.mp3"], w') ∧
    trace w' = requests 300 two_urls ∧
    ∀ idx, idx < 2 → path_exists w' (audio_path "/tmp/t" idx) = true.
Proof.
  apply (download_all_audio_all_or_nothing (constant_server 200 "clip")
           default_settings two_urls "/tmp/t" empty_world).
  intros [|[|j]] url Hj; simplify_eq/=; reflexivity.
Defined.

(** X9: the first background track that cannot be fetched aborts the call
    with its index in the message, and no later track is requested. *)
Theorem download_all_audio_stops_at_first_failure (env : Env) (cfg : Settings)
    (pre post : list json) (url : json) (temp_dir : Path) (w : World) :
  (∀ j u, pre !! j = Some u →
     fetched env u (audio_path temp_dir j) (download_timeout cfg) = true) →
  fetched env url (audio_path temp_dir (length pre)) (download_timeout cfg) = false →
  ∃ w',
    Generator.download_all_audio env cfg (pre ++ url :: post) temp_dir w
    = (Raise (Exception ("Failed to download audio " +:+ pretty (length pre))), w') ∧
    trace w' = trace w ++ requests (download_timeout cfg) (pre ++ [url]).
Proof.
  intros Hpre Hurl.
  destruct (download_loop_fail env (download_timeout cfg) (audio_path temp_dir)
              (λ idx, Exception ("Failed to download audio " +:+ pretty idx))
              pre url post 0 [] w Hpre Hurl) as (w' & Hloop & Htrace & _).
  exists w'. split; [exact Hloop | done].
Qed.

Lemma download_all_audio_stops_at_first_failure_witness :
  ∃ w',
    Generator.download_all_audio second_unreachable default_settings
      (two_urls ++ [JStr "http://host/v3.mp4"]) "/tmp/t" empty_world
    = (Raise (Exception "Failed to download audio 1"), w') ∧
    trace w' = requests 300 two_urls.
Proof.
  apply (download_all_audio_stops_at_first_failure second_unreachable
           default_settings [JStr "http://host/v1.mp4"] [JStr "http://host/v3.mp4"]
           (JStr "http://host/v2.mp4") "/tmp/t" empty_world).
  - intros [|[|j]] u Hj; simplify_eq/=. reflexivity.
  - reflexivity.
Defined.

(** ** services/tts.py *)

Lemma dict_get_Some voices name voice_id :
  Tts.dict_get voices name = Some voice_id → (name, voice_id) ∈ voices.
Proof.
  induction voices as [|[k v] voices IH]; simpl; [done|].
  case_bool_decide; [intros [= <-]; subst; by left|].
  intros Hget. right. by apply IH.
Qed.

Lemma dict_get_None voices name :
  name ∉ voices.*1 → Tts.dict_get voices name = None.
Proof.
  induction voices as [|[k v] voices IH]; simpl; [done|].
  rewrite not_elem_of_cons. intros [Hne Hrest].
  rewrite bool_decide_eq_false_2 by done. by apply IH.
Qed.

Lemma dict_get_is_None voices name :
  Tts.dict_get voices name = None → name ∉ voices.*1.
Proof.
  induction voices as [|[k v] voices IH]; simpl; [intros _; apply not_elem_of_nil|].
  case_bool_decide; [done|]. intros Hget. rewrite not_elem_of_cons.
  split; [done | by apply IH].
Qed.

(** A dictionary has one value per key. *)
Lemma unique_keys_functional {A} (l : list (string * A)) k v1 v2 :
  NoDup l.*1 → (k, v1) ∈ l → (k, v2) ∈ l → v1 = v2.
Proof.
  induction l as [|[k' v'] l IH]; simpl.
  - intros _ Hin. by apply elem_of_nil in Hin.
  - rewrite NoDup_cons. intros [Hfresh Hnodup].
    rewrite !elem_of_cons. intros [?|Hin1] [?|Hin2]; simplify_eq.
    + done.
    + destruct Hfresh. apply list_elem_of_fmap. by eexists (_, _).
    + destruct Hfresh. apply list_elem_of_fmap. by eexists (_, _).
    + by apply IH.
Qed.

Lemma get_voice_id_listed env voice_name first_name first_id others :
  Tts.get_available_voices env = (first_name, first_id) :: others →
  ∃ voice_id,
    Tts.get_voice_id env (JStr voice_name) = inr (Some voice_id) ∧
    voice_id ∈ (Tts.get_available_voices env).*2.
Proof.
  intros Hvoices. unfold Tts.get_voice_id. rewrite Hvoices. cbn [Tts.voices_get].
  destruct (Tts.dict_get ((first_name, first_id) :: others) voice_name)
    as [voice_id|] eqn:Hget.
  - cbn [Tts.falsy]. case_bool_decide as Hempty.
    + exists first_id. split; [done|]. rewrite fmap_cons. by left.
    + exists voice_id. split; [done|]. apply dict_get_Some in Hget.
      apply list_elem_of_fmap. by exists (voice_name, voice_id).
  - exists first_id. split; [done|]. rewrite fmap_cons. by left.
Qed.

(** X10: as soon as the backend lists a voice, every voice name resolves to
    a listed id: the id listed under that name when it is not empty, and
    the first id of the listing when the name is unknown. *)
Theorem resolved_voice_is_listed (env : Env) (voice_name first_name first_id : string)
    (others : list (string * string)) :
  let voices := Tts.get_available_voices env in
  voices = (first_name, first_id) :: others →
  NoDup voices.*1 →
  ∃ voice_id,
    Tts.get_voice_id env (JStr voice_name) = inr (Some voice_id) ∧
    voice_id ∈ voices.*2 ∧
    (∀ listed_id, (voice_name, listed_id) ∈ voices → listed_id ≠ "" →
       voice_id = listed_id) ∧
    (voice_name ∉ voices.*1 → voice_id = first_id).
Proof.
  intros voices Hvoices Hnodup. subst voices.
  unfold Tts.get_voice_id. rewrite Hvoices in Hnodup |- *. cbn [Tts.voices_get].
  destruct (Tts.dict_get ((first_name, first_id) :: others) voice_name)
    as [voice_id|] eqn:Hget.
  - apply dict_get_Some in Hget. cbn [Tts.falsy]. case_bool_decide as Hempty.
    + exists first_id. split; [done|]. split_and!; [rewrite fmap_cons; by left| |done].
      intros listed_id Hin Hne. destruct Hne. subst voice_id. symmetry.
      by eapply unique_keys_functional.
    + exists voice_id. split; [done|]. split_and!.
      * apply list_elem_of_fmap. by exists (voice_name, voice_id).
      * intros listed_id Hin _. by eapply unique_keys_functional.
      * intros Hnot. destruct Hnot. apply list_elem_of_fmap.
        by exists (voice_name, voice_id).
  - apply dict_get_is_None in Hget.
    exists first_id. split; [done|]. split_and!; [rewrite fmap_cons; by left| |done].
    intros listed_id Hin _. destruct Hget. apply list_elem_of_fmap.
    by exists (voice_name, listed_id).
Qed.

Lemma resolved_voice_is_listed_witness :
  Tts.get_voice_id two_voices (JStr "Nobody") = inr (Some "id-rachel")
  ∧ Tts.get_voice_id two_voices (JStr "Adam") = inr (Some "id-adam").
Proof.
  split.
  - destruct (resolved_voice_is_listed two_voices "Nobody" "Rachel" "id-rachel"
                [("Adam", "id-adam")] eq_refl) as (voice_id & -> & _ & _ & Hfirst).
    + apply (bool_decide_unpack _). by vm_compute.
    + rewrite Hfirst; [done|].
      rewrite !list_elem_of_In. simpl. intuition discriminate.
  - destruct (resolved_voice_is_listed two_voices "Adam" "Rachel" "id-rachel"
                [("Adam", "id-adam")] eq_refl) as (voice_id & -> & _ & Hlisted & _).
    + apply (bool_decide_unpack _). by vm_compute.
    + rewrite (Hlisted "id-adam"); [done| |done].
      apply list_elem_of_In. simpl. tauto.
Defined.

(** X11: without any listed voice (no API key, a listing that fails, or an
    empty listing) [generate_speech] answers [False] for every text and
    voice, requests nothing and writes nothing. *)
Theorem generate_speech_needs_voices (env : Env) (text voice : json)
    (output_path : Path) (w : World) :
  Tts.get_available_voices env = [] →
  Tts.generate_speech env text voice output_path w = (Ok false, w).
Proof.
  intros Hvoices. unfold Tts.generate_speech, Tts.get_voice_id.
  rewrite Hvoices. by destruct (tts_client env).
Qed.

Lemma generate_speech_needs_voices_witness :
  Tts.generate_speech
    (with_speech true None (λ _ _ _, Some "speech") (λ _, None)
       (constant_server 200 ""))
    (JStr "hi") (JList []) "/tmp/t/tts_0.mp3" empty_world
  = (Ok false, empty_world).
Proof.
  by apply (generate_speech_needs_voices
              (with_speech true None (λ _ _ _, Some "speech") (λ _, None)
                 (constant_server 200 ""))).
Defined.

(** X12: speech reported as generated is on disk: the file holds what the
    backend streamed for a listed, non-empty voice id, no other file has
    changed, and exactly one synthesis request was made, for that text,
    that id and that file.  (The listing of the voices, which the backend
    is asked for first while the cache is empty, is not a synthesis
    request.) *)
Theorem generated_speech_is_written (env : Env) (text : json) (voice : string)
    (output_path : Path) (w w' : World) :
  Tts.generate_speech env text (JStr voice) output_path w = (Ok true, w') →
  ∃ voice_id audio,
    voice_id ∈ (Tts.get_available_voices env).*2 ∧
    voice_id ≠ "" ∧
    tts_convert env text voice_id output_path = Some audio ∧
    files w' = <[output_path := audio]> (files w) ∧
    synthesis_requests (trace w')
    = synthesis_requests (trace w) ++ [(text, voice_id, output_path)].
Proof.
  unfold Tts.generate_speech. destruct (tts_client env) eqn:Hclient; [|done].
  cbn [negb].
  destruct (Tts.get_available_voices env) as [|[first_name first_id] others]
    eqn:Hvoices.
  { unfold Tts.get_voice_id. by rewrite Hvoices. }
  destruct (get_voice_id_listed env voice first_name first_id others Hvoices)
    as (voice_id & Hresolve & Hlisted).
  rewrite Hresolve. unfold bind, lift_exn, ret, emit, modify. simpl.
  case_bool_decide as Hempty; [done|].
  destruct (tts_convert env text voice_id output_path) as [audio|] eqn:Hconvert;
    [|done].
  intros [= <-]. exists voice_id, audio. rewrite Hvoices in Hlisted.
  split_and!; try done. unfold synthesis_requests. simpl. by rewrite omap_app.
Qed.

Lemma generated_speech_is_written_witness :
  ∃ w',
    Tts.generate_speech two_voices (JStr "hi") (JStr "Adam") "/tmp/t/tts_0.mp3"
      empty_world = (Ok true, w') ∧
    ∃ voice_id audio,
      voice_id ∈ (Tts.get_available_voices two_voices).*2 ∧
      voice_id ≠ "" ∧
      tts_convert two_voices (JStr "hi") voice_id "/tmp/t/tts_0.mp3" = Some audio ∧
      files w' = <["/tmp/t/tts_0.mp3" := audio]> (files empty_world) ∧
      synthesis_requests (trace w')
      = synthesis_requests (trace empty_world)
        ++ [(JStr "hi", voice_id, "/tmp/t/tts_0.mp3")].
Proof.
  eexists. split; [vm_compute; reflexivity|].
  apply (generated_speech_is_written two_voices (JStr "hi") "Adam").
  vm_compute. reflexivity.
Defined.

(** ** services/generator.py: [generate_all_tts] *)

(** X13: when the lines before it are well formed and the silent clip can
    be asked for wherever their synthesis fails, a voice line that lacks
    ["text"], or else ["voice"], raises [KeyError] for that key; the
    lines before it have been served and nothing is done for it or for
    the lines after it. *)
Theorem voice_line_without_key_aborts (env : Env) (before after : list json)
    (m : gmap string json) (temp_dir : Path) (w : World) :
  Forall voice_line before →
  silence_can_start env temp_dir before →
  m !! "text" = None ∨ m !! "voice" = None →
  let missing := if bool_decide (m !! "text" = None) then "text" else "voice" in
  Generator.generate_all_tts env (before ++ JObj m :: after) temp_dir w
  = (Raise (KeyError missing), (Generator.generate_all_tts env before temp_dir w).2).
Proof.
  intros Hbefore Hsilence Hmissing missing.
  destruct (generate_all_tts_served env before temp_dir w Hbefore Hsilence)
    as (w1 & evs & Hrun & _).
  rewrite Hrun. cbn [snd].
  unfold Generator.generate_all_tts. rewrite for_enumerate_app.
  erewrite bind_ok by exact Hrun.
  cbn [for_enumerate]. apply bind_raise. subst missing.
  unfold bind, lift_exn, subscript, raise, ret.
  destruct (m !! "text") as [text|] eqn:Htext.
  - rewrite bool_decide_eq_false_2 by done.
    destruct Hmissing as [?|Hvoice]; [done|]. by rewrite Hvoice.
  - by rewrite bool_decide_eq_true_2.
Qed.

Lemma voice_line_without_key_aborts_witness :
  Generator.generate_all_tts (constant_server 200 "clip")
    [voice_hi; voice_without_text; voice_bye] "/tmp/t" empty_world
  = (Raise (KeyError "text"),
     (Generator.generate_all_tts (constant_server 200 "clip") [voice_hi] "/tmp/t"
        empty_world).2).
Proof.
  assert (Forall voice_line [voice_hi]) as Hbefore.
  { repeat constructor. by eexists _, "hi", "X". }
  assert (silence_can_start (constant_server 200 "clip") "/tmp/t" [voice_hi])
    as Hsilence.
  { intros idx text voice _ _. reflexivity. }
  exact (voice_line_without_key_aborts (constant_server 200 "clip") [voice_hi]
           [voice_bye] (<["voice" := JStr "X"]> ∅) "/tmp/t" empty_world
           Hbefore Hsilence (or_introl eq_refl)).
Defined.

(** ** services/generator.py: the order and the outcome of the render units *)

Lemma length_schedule_mixes block_name base_video mixed counter :
  length (Generator.schedule_mixes block_name base_video mixed counter).1
  = length mixed.
Proof.
  pose proof (schedule_mixes_nums block_name base_video mixed counter) as [Hnums _].
  apply (f_equal length) in Hnums. by rewrite length_fmap, length_seq in Hnums.
Qed.

Lemma schedule_mixes_lookup block_name base_video mixes counter k mixed :
  mixes !! k = Some mixed →
  (Generator.schedule_mixes block_name base_video mixes counter).1 !! k
  = Some (Generator.Task block_name base_video mixed (counter + k + 1)).
Proof.
  revert counter k. induction mixes as [|m mixes IH]; intros counter [|k] Hk;
    simplify_eq/=.
  - destruct (Generator.schedule_mixes _ _ mixes (counter + 1)). simpl.
    do 2 f_equal. lia.
  - specialize (IH (counter + 1) k Hk).
    destruct (Generator.schedule_mixes _ _ mixes (counter + 1)). simpl in *.
    rewrite IH. do 2 f_equal. lia.
Qed.

Lemma schedule_blocks_lookup base_videos mixes counter b k block_name base_video mixed :
  base_videos !! b = Some (block_name, base_video) →
  mixes !! k = Some mixed →
  (Generator.schedule_blocks base_videos mixes counter).1 !! (b * length mixes + k)
  = Some (Generator.Task block_name base_video mixed
            (counter + b * length mixes + k + 1)).
Proof.
  revert counter b. induction base_videos as [|[name video] base_videos IH];
    intros counter [|b] Hb Hk; simplify_eq/=.
  - pose proof (schedule_mixes_lookup block_name base_video mixes counter k mixed Hk)
      as Hlookup.
    destruct (Generator.schedule_mixes _ _ mixes counter) as [tasks c] eqn:Hmixes.
    destruct (Generator.schedule_blocks base_videos mixes c) as [tasks' final].
    cbn [fst] in *. rewrite lookup_app_l by (by eapply lookup_lt_Some).
    rewrite Hlookup. do 2 f_equal. lia.
  - pose proof (length_schedule_mixes name video mixes counter) as Hlen.
    pose proof (schedule_mixes_nums name video mixes counter) as [_ Hcounter].
    destruct (Generator.schedule_mixes _ _ mixes counter) as [tasks c] eqn:Hmixes.
    cbn [fst snd] in *. subst c.
    specialize (IH (counter + length mixes) b Hb Hk).
    destruct (Generator.schedule_blocks base_videos mixes _) as [tasks' final].
    cbn [fst] in *. rewrite lookup_app_r by lia.
    replace (length mixes + b * length mixes + k - length tasks)
      with (b * length mixes + k) by lia.
    rewrite IH. do 2 f_equal. lia.
Qed.

(** X14: the render units are created block by block and, within a block,
    mix by mix; the unit at position [i] gets the variant number [i + 1]. *)
Theorem make_tasks_block_major (p : Generator.prep) (b k : nat)
    (block_name : string) (base_video mixed : Path) :
  Generator.base_videos p !! b = Some (block_name, base_video) →
  Generator.mixed_audio_files p !! k = Some mixed →
  let i := b * length (Generator.mixed_audio_files p) + k in
  Generator.make_tasks p !! i
  = Some (Generator.Task block_name base_video mixed (i + 1)).
Proof.
  intros Hb Hk i. subst i. unfold Generator.make_tasks.
  by rewrite (schedule_blocks_lookup _ _ 0 b k block_name base_video mixed).
Qed.

Lemma make_tasks_block_major_witness :
  Generator.make_tasks small_prep !! 1
  = Some (Generator.Task "block1" "/tmp/task_t1_/block1_concatenated.mp4"
            "/tmp/task_t1_/mixed_1.mp3" 2).
Proof.
  apply (make_tasks_block_major small_prep 0 1); reflexivity.
Defined.

(** X15: whatever the order in which the event loop resumes the render
    units, the units that render or upload and the free permits always
    add up to [max_concurrent_jobs]: never more than that many units are
    past the semaphore. *)
Theorem permits_never_exceed_budget (env : Env) (cfg : Settings) (task_id : string)
    (p : Generator.prep) (progress_callback : bool) (r : Generator.Results)
    (w : World) (sched : list nat) :
  let s := Generator.run_schedule env cfg task_id p progress_callback sched
             (Generator.start_render cfg p r w) in
  tally holds_permit (Generator.phases s) + Generator.sem_value s
  = Z.to_nat (max_concurrent_jobs cfg)
  ∧ tally holds_permit (Generator.phases s) ≤ Z.to_nat (max_concurrent_jobs cfg).
Proof.
  intros s.
  destruct (run_schedule_inv env cfg task_id p progress_callback r w sched _
              (start_render_inv cfg task_id p progress_callback r w))
    as [_ _ Hsem _ _ _ _].
  fold s in Hsem. lia.
Qed.

Lemma public_url_not_empty cfg task_id t : public_url cfg task_id t ≠ "".
Proof. done. Qed.

Lemma successful_entries_cons env cfg task_id p t ts :
  successful_entries env cfg task_id p (t :: ts)
  = successful_entries env cfg task_id p [t] ++ successful_entries env cfg task_id p ts.
Proof.
  unfold successful_entries.
  rewrite (filter_cons _ t ts), (filter_cons _ t []), filter_nil.
  by case_decide.
Qed.

Lemma failed_entries_cons env task_id p t ts :
  failed_entries env task_id p (t :: ts)
  = failed_entries env task_id p [t] ++ failed_entries env task_id p ts.
Proof.
  unfold failed_entries.
  rewrite (filter_cons _ t ts), (filter_cons _ t []), filter_nil.
  by case_decide.
Qed.

Lemma outcome_inv_start env cfg task_id p r w :
  outcome_inv env cfg task_id p r (Generator.start_render cfg p r w).
Proof.
  unfold outcome_inv, successful_entries, failed_entries. simpl.
  rewrite finished_tasks_none. simpl. rewrite !app_nil_r. split_and!; [done..|].
  intros i t _ Hph. apply lookup_replicate in Hph as [? _]. done.
Qed.

Lemma outcome_inv_resumed env cfg task_id p progress_callback r0 i s s' :
  outcome_inv env cfg task_id p r0 s →
  Generator.generate_final_video env cfg task_id p progress_callback i s = Some s' →
  outcome_inv env cfg task_id p r0 s'.
Proof.
  intros (Hsucc & Hfail & Hup). unfold Generator.generate_final_video.
  destruct (Generator.make_tasks p !! i) as [t|] eqn:Ht; [|done].
  destruct (Generator.phases s !! i) as [ph|] eqn:Hph; [|done].
  assert (∀ ph', ph ≠ Generator.Finished → ph' ≠ Generator.Uploading →
            ∀ j t', Generator.make_tasks p !! j = Some t' →
                    <[i := ph']> (Generator.phases s) !! j = Some Generator.Uploading →
                    rendered env task_id p t' = true) as Hothers.
  { intros ph' _ Hne j t' Ht' [(_ & ? & _)|[_ Hj]]%list_lookup_insert_Some; [done|].
    by eapply Hup. }
  assert (∀ r w, ph ≠ Generator.Finished →
            Generator.successful r
            ≡ₚ Generator.successful (Generator.results s)
               ++ successful_entries env cfg task_id p [t] →
            Generator.failed r
            ≡ₚ Generator.failed (Generator.results s)
               ++ failed_entries env task_id p [t] →
            outcome_inv env cfg task_id p r0
              (Generator.finish_unit p progress_callback i r w s)) as Hfinish.
  { intros r w Hne Hr1 Hr2. unfold outcome_inv. cbn [Generator.finish_unit
      Generator.phases Generator.results].
    pose proof (finished_tasks_insert_finished _ _ _ _ _ Ht Hph Hne) as Hperm.
    split_and!.
    - rewrite Hr1, Hsucc.
      assert (successful_entries env cfg task_id p
                (finished_tasks (Generator.make_tasks p)
                   (<[i := Generator.Finished]> (Generator.phases s)))
              ≡ₚ successful_entries env cfg task_id p
                   (t :: finished_tasks (Generator.make_tasks p) (Generator.phases s)))
        as -> by (unfold successful_entries; by rewrite Hperm).
      rewrite (successful_entries_cons _ _ _ _ t (finished_tasks _ _)), <-app_assoc.
      apply Permutation_app_head, Permutation_app_comm.
    - rewrite Hr2, Hfail.
      assert (failed_entries env task_id p
                (finished_tasks (Generator.make_tasks p)
                   (<[i := Generator.Finished]> (Generator.phases s)))
              ≡ₚ failed_entries env task_id p
                   (t :: finished_tasks (Generator.make_tasks p) (Generator.phases s)))
        as -> by (unfold failed_entries; by rewrite Hperm).
      rewrite (failed_entries_cons _ _ _ t (finished_tasks _ _)), <-app_assoc.
      apply Permutation_app_head, Permutation_app_comm.
    - by apply Hothers. }
  destruct ph; try done.
  - destruct (Generator.sem_value s) as [|value]; [done|]. intros [= <-].
    unfold outcome_inv. simpl.
    rewrite (finished_tasks_insert_other _ _ _ _ _ Hph) by done.
    split_and!; [done..|]. by apply Hothers.
  - unfold Generator.add_audio_to_video.
    destruct (exit_ok _) eqn:Hok; intros [= <-].
    + unfold outcome_inv. simpl.
      rewrite (finished_tasks_insert_other _ _ _ _ _ Hph) by done.
      split_and!; [done..|].
      intros j t' Ht' [(-> & _ & _)|[_ Hj]]%list_lookup_insert_Some;
        [by simplify_eq | by eapply Hup].
    + apply Hfinish; [done|..].
      * unfold successful_entries, delivered, rendered, local_output_path.
        rewrite filter_cons, filter_nil, Hok. cbn [andb].
        rewrite decide_False by done. simpl. by rewrite app_nil_r.
      * unfold failed_entries, delivered, rendered, local_output_path.
        rewrite filter_cons, filter_nil, Hok. cbn [andb].
        by rewrite decide_True by done.
  - pose proof (Hup i t Ht Hph) as Hrendered.
    unfold Storage.upload_file.
    destruct (gcs_upload_ok _ _ _) eqn:Hupload.
    + rewrite bool_decide_eq_false_2
        by apply (public_url_not_empty cfg task_id t).
      intros [= <-]. apply Hfinish; [done|..].
      * unfold successful_entries, delivered.
        rewrite filter_cons, filter_nil, Hrendered. cbn [andb].
        unfold local_output_path, gcs_path. rewrite Hupload.
        by rewrite decide_True by done.
      * unfold failed_entries, delivered.
        rewrite filter_cons, filter_nil, Hrendered. cbn [andb].
        unfold local_output_path, gcs_path. rewrite Hupload.
        rewrite decide_False by done. simpl. by rewrite app_nil_r.
    + intros [= <-]. apply Hfinish; [done|..].
      * unfold successful_entries, delivered.
        rewrite filter_cons, filter_nil, Hrendered. cbn [andb].
        unfold local_output_path, gcs_path. rewrite Hupload.
        rewrite decide_False by done. simpl. by rewrite app_nil_r.
      * unfold failed_entries, delivered.
        rewrite filter_cons, filter_nil, Hrendered. cbn [andb].
        unfold local_output_path, gcs_path. rewrite Hupload.
        by rewrite decide_True by done.
Qed.

Lemma outcome_inv_run env cfg task_id p progress_callback r0 sched s :
  outcome_inv env cfg task_id p r0 s →
  outcome_inv env cfg task_id p r0
    (Generator.run_schedule env cfg task_id p progress_callback sched s).
Proof.
  revert s. induction sched as [|i sched IH]; intros s Hinv; simpl; [done|].
  apply IH.
  destruct (Generator.generate_final_video env cfg task_id p progress_callback i s)
    as [s'|] eqn:Hstep; simpl; [|done].
  by eapply outcome_inv_resumed.
Qed.

(** X16: in a completed run a variant is recorded in [successful] exactly
    when both its render and its upload succeeded, under the key
    [{variant_id}_url] and with the public URL of its blob; every other
    variant is in [failed].  The order of the entries is the only thing
    the schedule decides. *)
Theorem results_follow_render_and_upload (env : Env) (cfg : Settings)
    (sched : list nat) (task_id : string) (data : gmap string json)
    (progress_callback : bool) (w0 w1 w : World) (p : Generator.prep)
    (r : Generator.Results) :
  Generator.prepare env cfg task_id data w0 = (Ok p, w1) →
  Generator.generate_all env cfg sched task_id data progress_callback w0
  = Some (r, w) →
  Generator.error r = None →
  Generator.successful r
  ≡ₚ successful_entries env cfg task_id p (Generator.make_tasks p) ∧
  Generator.failed r ≡ₚ failed_entries env task_id p (Generator.make_tasks p).
Proof.
  intros Hprep Hrun Herror. unfold Generator.generate_all in Hrun.
  rewrite Hprep in Hrun. case_bool_decide as Hneg; [by simplify_eq/=|].
  set (r0 := Generator.with_total _ _) in Hrun.
  set (w2 := Generator.report_progress _ _ _ _) in Hrun.
  set (s := Generator.run_schedule _ _ _ _ _ _ _) in Hrun.
  destruct (Generator.all_finished s) eqn:Hfinished; [|done]. simplify_eq.
  pose proof (run_schedule_inv env cfg task_id p progress_callback r0 w2 sched _
                (start_render_inv cfg task_id p progress_callback r0 w2))
    as [Hlen _ _ _ _ _ _].
  pose proof (outcome_inv_run env cfg task_id p progress_callback r0 sched _
                (outcome_inv_start env cfg task_id p r0 w2))
    as (Hsucc & Hfail & _).
  fold s in Hlen, Hsucc, Hfail.
  rewrite finished_tasks_all in Hsucc, Hfail
    by (done || by apply all_finished_Forall).
  done.
Qed.

Lemma results_follow_render_and_upload_witness :
  Generator.successful second_upload_result.1
  ≡ₚ [("t1_block1_v1_url", "https://storage.googleapis.com/bucket/t1/t1_block1_v1.mp4")]
  ∧ Generator.failed second_upload_result.1 ≡ₚ ["t1_block1_v2"].
Proof.
  apply (results_follow_render_and_upload second_upload_fails default_settings
           (Generator.sequential_schedule 2) "t1" small_request true empty_world
           small_world second_upload_result.2 small_prep second_upload_result.1).
  - vm_compute. reflexivity.
  - vm_compute. reflexivity.
  - reflexivity.
Defined.

(** ** services/generator.py: how a run ends *)

Lemma prepare_temp_dir env cfg task_id data w0 p w1 :
  Generator.prepare env cfg task_id data w0 = (Ok p, w1) →
  Generator.temp_dir p = mkdtemp_name env ("task_" +:+ task_id +:+ "_").
Proof.
  unfold Generator.prepare. destruct (Generator.parse_blocks data) as [[vb au] vc].
  repeat (case_bool_decide; [done|]).
  unfold Generator.mkdtemp, Generator.stages. intros Hrun.
  apply bind_ok_inv in Hrun as (dir & w2 & Hdir & Hrun).
  unfold bind, emit, modify, ret in Hdir. simplify_eq/=.
  repeat (apply bind_ok_inv in Hrun as (? & ? & _ & Hrun)).
  unfold ret in Hrun. by simplify_eq/=.
Qed.

Lemma rmtree_log_app tr1 tr2 : rmtree_log (tr1 ++ tr2) = rmtree_log tr1 ++ rmtree_log tr2.
Proof. apply omap_app. Qed.

Lemma rmtree_log_report progress_callback completed total w :
  rmtree_log (trace (Generator.report_progress progress_callback completed total w))
  = rmtree_log (trace w).
Proof.
  unfold Generator.report_progress. destruct progress_callback; [|done].
  simpl. by rewrite rmtree_log_app, app_nil_r.
Qed.

Lemma resumed_rmtree_log env cfg task_id p progress_callback i s s' :
  Generator.generate_final_video env cfg task_id p progress_callback i s = Some s' →
  rmtree_log (trace (Generator.world s')) = rmtree_log (trace (Generator.world s)).
Proof.
  unfold Generator.generate_final_video.
  destruct (Generator.make_tasks p !! i) as [t|]; [|done].
  destruct (Generator.phases s !! i) as [[]|]; try done.
  - destruct (Generator.sem_value s); [done|]. by intros [= <-].
  - unfold Generator.add_audio_to_video.
    destruct (exit_ok _); intros [= <-]; simpl;
      rewrite ?rmtree_log_report, trace_keep_output; simpl;
      by rewrite rmtree_log_app, app_nil_r.
  - unfold Storage.upload_file.
    destruct (gcs_upload_ok _ _ _); [case_bool_decide|]; intros [= <-]; simpl;
      rewrite rmtree_log_report; simpl;
      by rewrite !rmtree_log_app, !app_nil_r.
Qed.

Lemma run_schedule_rmtree_log env cfg task_id p progress_callback sched s :
  rmtree_log (trace (Generator.world
    (Generator.run_schedule env cfg task_id p progress_callback sched s)))
  = rmtree_log (trace (Generator.world s)).
Proof.
  revert s. induction sched as [|i sched IH]; intros s; simpl; [done|].
  rewrite IH.
  destruct (Generator.generate_final_video env cfg task_id p progress_callback i s)
    as [s'|] eqn:Hstep; simpl; [|done].
  by eapply resumed_rmtree_log.
Qed.

(** X17: a run that completes without error removes the task directory
    once, as its very last call, whatever the schedule was; with
    [rmtree] doing its work, no file under the directory is left. *)
Theorem completed_run_removes_task_directory (env : Env) (cfg : Settings)
    (sched : list nat) (task_id : string) (data : gmap string json)
    (progress_callback : bool) (w0 w : World) (r : Generator.Results) :
  Generator.generate_all env cfg sched task_id data progress_callback w0
  = Some (r, w) →
  Generator.error r = None →
  let dir := mkdtemp_name env ("task_" +:+ task_id +:+ "_") in
  last (trace w) = Some (EvRmtree dir) ∧
  rmtree_log (trace w) = rmtree_log (trace w0) ++ [dir] ∧
  (dir ∉ dirs w) ∧
  ∀ path, under dir path = true → files w !! path = None.
Proof.
  intros Hrun Herror dir. unfold Generator.generate_all in Hrun.
  destruct (Generator.prepare env cfg task_id data w0) as [[p|e] w1] eqn:Hprep;
    [|by simplify_eq/=].
  case_bool_decide as Hneg; [by simplify_eq/=|].
  destruct (Generator.all_finished _) eqn:Hfinished; [|done]. simplify_eq.
  rewrite (prepare_temp_dir _ _ _ _ _ _ _ Hprep). fold dir.
  unfold Generator.rmtree. cbn [trace dirs files]. split_and!.
  - apply last_snoc.
  - rewrite rmtree_log_app, run_schedule_rmtree_log. simpl.
    rewrite rmtree_log_report. f_equal.
    destruct (Generator.parse_blocks data) as [[vb au] vc] eqn:Hparse.
    assert (vb ≠ [] ∧ au ≠ [] ∧ vc ≠ []) as (Hvb & Hau & Hvc).
    { unfold Generator.prepare in Hprep. rewrite Hparse in Hprep.
      repeat (case_bool_decide; [done|]). done. }
    eapply (prepare_creates_directory env cfg task_id data w0); [..|exact Hprep];
      by rewrite Hparse.
  - set_solver.
  - intros path Hunder. apply map_lookup_filter_None. right.
    intros content _. simpl. rewrite Hunder. simpl. tauto.
Qed.

Lemma completed_run_removes_task_directory_witness :
  last (trace small_result.2) = Some (EvRmtree "/tmp/task_t1_") ∧
  rmtree_log (trace small_result.2) = ["/tmp/task_t1_"] ∧
  ("/tmp/task_t1_" ∉ dirs small_result.2) ∧
  ∀ path, under "/tmp/task_t1_" path = true → files small_result.2 !! path = None.
Proof.
  apply (completed_run_removes_task_directory (constant_server 200 "clip")
           default_settings (Generator.sequential_schedule 2) "t1" small_request
           true empty_world small_result.2 small_result.1).
  - vm_compute. reflexivity.
  - reflexivity.
Defined.

(** X18: with [max_concurrent_jobs = 0] no render unit ever gets past the
    semaphore: as soon as there is one variant to render, [generate_all]
    does not return, whatever the order in which the event loop resumes
    the units. *)
Theorem zero_budget_never_returns (env : Env) (cfg : Settings) (sched : list nat)
    (task_id : string) (data : gmap string json) (progress_callback : bool)
    (w0 w1 : World) (p : Generator.prep) :
  Generator.prepare env cfg task_id data w0 = (Ok p, w1) →
  max_concurrent_jobs cfg = 0%Z →
  Generator.total_variants p ≠ 0 →
  Generator.generate_all env cfg sched task_id data progress_callback w0 = None.
Proof.
  intros Hprep Hzero Hsome.
  rewrite (generate_all_rendering _ _ _ _ _ _ _ _ _ Hprep) by lia.
  cbv zeta. rewrite zero_budget_blocks by done.
  unfold Generator.all_finished, Generator.start_render. cbn [Generator.phases].
  rewrite length_make_tasks.
  destruct (Generator.total_variants p) as [|n]; [done|]. done.
Qed.

Lemma zero_budget_never_returns_witness :
  Generator.generate_all (constant_server 200 "clip") zero_jobs
    (Generator.sequential_schedule 2) "t1" small_request true empty_world = None.
Proof.
  apply (zero_budget_never_returns (constant_server 200 "clip") zero_jobs
           (Generator.sequential_schedule 2) "t1" small_request true empty_world
           small_world small_prep).
  - vm_compute. reflexivity.
  - reflexivity.
  - vm_compute. discriminate.
Defined.

Lemma run_schedule_no_task env cfg task_id p progress_callback sched s :
  Generator.make_tasks p = [] →
  Generator.run_schedule env cfg task_id p progress_callback sched s = s.
Proof.
  intros Hnone. revert s. induction sched as [|i sched IH]; intros s; simpl; [done|].
  unfold Generator.generate_final_video. rewrite Hnone, lookup_nil. simpl.
  apply IH.
Qed.

(** X19: when every audio mix fails there is nothing to render: the run
    completes at once, without error, with [total = 0] and two empty
    lists, after reporting the progress [(0, 0)]. *)
Theorem no_mix_no_variant (env : Env) (cfg : Settings) (sched : list nat)
    (task_id : string) (data : gmap string json) (progress_callback : bool)
    (w0 w1 : World) (p : Generator.prep) :
  Generator.prepare env cfg task_id data w0 = (Ok p, w1) →
  Generator.mixed_audio_files p = [] →
  (0 ≤ max_concurrent_jobs cfg)%Z →
  Generator.generate_all env cfg sched task_id data progress_callback w0
  = Some (Generator.empty_results,
          Generator.rmtree (Generator.temp_dir p)
            (Generator.report_progress progress_callback 0 0 w1)).
Proof.
  intros Hprep Hnone Hbudget.
  rewrite (generate_all_rendering _ _ _ _ _ _ _ _ _ Hprep) by done.
  assert (Generator.total_variants p = 0) as Htotal.
  { unfold Generator.total_variants. rewrite Hnone. simpl. lia. }
  assert (Generator.make_tasks p = []) as Htasks.
  { apply length_zero_iff_nil. by rewrite length_make_tasks. }
  cbv zeta. rewrite run_schedule_no_task by done.
  unfold Generator.all_finished, Generator.start_render. cbn [Generator.phases].
  rewrite Htasks, Htotal. simpl. done.
Qed.

Lemma no_mix_no_variant_witness :
  ∃ w,
    Generator.generate_all no_mixer default_settings [] "t1" small_request true
      empty_world = Some (Generator.empty_results, w) ∧
    progress_log (trace w) = [(0, 0)].
Proof.
  eexists. split.
  - eapply (no_mix_no_variant no_mixer default_settings [] "t1" small_request true
              empty_world).
    + vm_compute. reflexivity.
    + reflexivity.
    + vm_compute. discriminate.
  - vm_compute. reflexivity.
Defined.

(** ** services/generator.py: [parse_blocks] *)

Lemma scanned_unique family data vs1 vs2 :
  scanned family data vs1 → scanned family data vs2 → vs1 = vs2.
Proof.
  intros [Hvs1 Hend1] [Hvs2 Hend2].
  assert (length vs1 = length vs2) as Hlen.
  { destruct (Nat.lt_trichotomy (length vs1) (length vs2)) as [Hlt|[?|Hlt]]; [|done|].
    - rewrite (Hvs2 _ Hlt) in Hend1. by apply lookup_lt_is_Some_2 in Hlt as [? ?];
        simplify_eq.
    - rewrite (Hvs1 _ Hlt) in Hend2. by apply lookup_lt_is_Some_2 in Hlt as [? ?];
        simplify_eq. }
  apply list_eq. intros j. destruct (decide (j < length vs1)) as [Hj|Hj].
  - rewrite <-Hvs1 by done. apply Hvs2. lia.
  - rewrite !lookup_ge_None_2; [done|lia..].
Qed.

Lemma scanned_insert_other family data k v vs :
  (∀ i, k ≠ indexed_key family i) →
  scanned family data vs → scanned family (<[k := v]> data) vs.
Proof.
  intros Hk [Hvs Hend]. split.
  - intros j Hj. rewrite lookup_insert_ne by apply Hk. by apply Hvs.
  - by rewrite lookup_insert_ne by apply Hk.
Qed.

Lemma while_key_insert_other {A} family data k v (body : json → A → A) acc :
  (∀ i, k ≠ indexed_key family i) →
  Generator.while_key family (<[k := v]> data) body (S (size (<[k := v]> data))) 1 acc
  = Generator.while_key family data body (S (size data)) 1 acc.
Proof.
  intros Hk.
  destruct (while_key_scanned family (<[k := v]> data) body acc) as (vs1 & Hvs1 & ->).
  destruct (while_key_scanned family data body acc) as (vs2 & Hvs2 & ->).
  by rewrite (scanned_unique _ _ _ _ Hvs1 (scanned_insert_other _ _ k v _ Hk Hvs2)).
Qed.

(** X20: only the keys [block{i}], [audio{i}] and [voice{i}] matter: adding
    or changing any other entry of the request leaves the parsed blocks,
    audio URLs and voice lines as they are. *)
Theorem parse_blocks_ignores_other_keys (data : gmap string json) (k : string)
    (v : json) :
  (∀ family i, family ∈ ["block"; "audio"; "voice"] → k ≠ indexed_key family i) →
  Generator.parse_blocks (<[k := v]> data) = Generator.parse_blocks data.
Proof.
  intros Hk. unfold Generator.parse_blocks.
  rewrite !while_key_insert_other; [done|intros i; apply Hk..].
  - apply list_elem_of_In. simpl. tauto.
  - apply list_elem_of_In. simpl. tauto.
  - apply list_elem_of_In. simpl. tauto.
Qed.

Lemma parse_blocks_ignores_other_keys_witness :
  Generator.parse_blocks (<["title" := JStr "demo"]> small_request)
  = Generator.parse_blocks small_request.
Proof.
  apply (parse_blocks_ignores_other_keys small_request "title" (JStr "demo")).
  intros family i Hfamily. apply list_elem_of_In in Hfamily. simpl in Hfamily.
  destruct Hfamily as [<-|[<-|[<-|[]]]]; discriminate.
Defined.

(** ** services/generator.py: [create_audio_mixes] *)

Lemma product_lookup audio_files tts_files i j audio tts :
  audio_files !! i = Some audio → tts_files !! j = Some tts →
  Generator.product audio_files tts_files !! (i * length tts_files + j)
  = Some (audio, tts).
Proof.
  unfold Generator.product. revert i.
  induction audio_files as [|a audio_files IH]; intros [|i] Hi Hj; simplify_eq/=.
  - rewrite lookup_app_l by (rewrite length_fmap; by eapply lookup_lt_Some).
    by rewrite list_lookup_fmap, Hj.
  - rewrite lookup_app_r by (rewrite length_fmap; lia).
    rewrite length_fmap.
    replace (length tts_files + i * length tts_files + j - length tts_files)
      with (i * length tts_files + j) by lia.
    by apply IH.
Qed.

Lemma enumerate_from_lookup {A} start (xs : list A) k :
  enumerate_from start xs !! k = (λ x, (start + k, x)) <$> xs !! k.
Proof.
  revert start k. induction xs as [|x xs IH]; intros start [|k]; try done.
  - rewrite enumerate_from_cons. simpl. by rewrite Nat.add_0_r.
  - rewrite enumerate_from_cons. simpl. rewrite IH.
    by replace (S start + k) with (start + S k) by lia.
Qed.

Lemma mixed_path_inj temp_dir : Inj (=) (=) (Generator.mixed_path temp_dir).
Proof.
  intros i j Heq. unfold Generator.mixed_path, path_join in Heq.
  apply (f_equal String.list_ascii_of_string) in Heq. rewrite !chars_app in Heq.
  do 3 apply app_inv_head in Heq. apply app_inv_tail in Heq.
  by apply chars_inj, (inj pretty) in Heq.
Qed.

Lemma create_audio_mixes_trace_from env temp_dir combinations idx acc w :
  trace (for_enumerate (λ idx '(audio, tts) mixed_audio_files,
           let mixed_path := Generator.mixed_path temp_dir idx in
           success <- Generator.lift_total
                        (Generator.mix_audio_tracks env audio tts mixed_path) ;;
           if success then ret (mixed_audio_files ++ [mixed_path])
           else ret mixed_audio_files)
           idx combinations acc w).2
  = trace w ++ (mix_call temp_dir <$> enumerate_from idx combinations).
Proof.
  revert idx acc w. induction combinations as [|[audio tts] combinations IH];
    intros idx acc w.
  - simpl. by rewrite app_nil_r.
  - rewrite enumerate_from_cons. cbn [for_enumerate]. unfold bind at 1.
    unfold bind at 1, Generator.lift_total, Generator.mix_audio_tracks.
    destruct (exit_ok _); unfold ret at 1; rewrite IH, trace_keep_output; simpl;
      by rewrite <-app_assoc.
Qed.

(** X21: the mix file number [i * len(tts_files) + j] is made from
    background track [i] and voice file [j], one [ffmpeg] run per pairing
    in that order, and it is in the returned list exactly when that run
    succeeded. *)
Theorem mixes_pair_audio_major (env : Env) (audio_files tts_files : list Path)
    (temp_dir : Path) (w : World) (i j : nat) (audio tts : Path) :
  audio_files !! i = Some audio →
  tts_files !! j = Some tts →
  let idx := i * length tts_files + j in
  let run := Generator.create_audio_mixes env audio_files tts_files temp_dir w in
  pairings audio_files tts_files !! idx = Some (idx, (audio, tts)) ∧
  trace run.2 = trace w ++ (mix_call temp_dir <$> pairings audio_files tts_files) ∧
  ∃ mixed_audio_files,
    run.1 = Ok mixed_audio_files ∧
    (Generator.mixed_path temp_dir idx ∈ mixed_audio_files
     ↔ exit_ok (ffmpeg_mix env audio tts (Generator.mixed_path temp_dir idx)) = true).
Proof.
  intros Hi Hj idx run.
  assert (pairings audio_files tts_files !! idx = Some (idx, (audio, tts))) as Hidx.
  { unfold pairings. rewrite enumerate_from_lookup.
    subst idx. by rewrite (product_lookup _ _ _ _ _ _ Hi Hj). }
  split; [done|]. split.
  - subst run. unfold Generator.create_audio_mixes, pairings.
    apply create_audio_mixes_trace_from.
  - destruct (create_audio_mixes_run env audio_files tts_files temp_dir w)
      as (w' & Hrun).
    subst run. rewrite Hrun. eexists. split; [done|].
    rewrite list_elem_of_fmap. split.
    + intros ([idx' inputs] & Heq & Hin). apply mixed_path_inj in Heq.
      cbn [fst] in Heq. subst idx'.
      apply list_elem_of_filter in Hin as [Hok Hin].
      apply list_elem_of_lookup in Hin as [k Hk].
      unfold pairings in Hk. rewrite enumerate_from_lookup in Hk.
      destruct (Generator.product audio_files tts_files !! k) eqn:Hprod;
        simplify_eq/=.
      unfold pairings in Hidx. rewrite enumerate_from_lookup, Hprod in Hidx.
      simplify_eq/=. unfold mix_succeeds in Hok. simpl in Hok.
      by apply Is_true_true in Hok.
    + intros Hok. exists (idx, (audio, tts)). split; [done|].
      apply list_elem_of_filter. split.
      * unfold mix_succeeds. simpl. by apply Is_true_true.
      * by eapply list_elem_of_lookup_2.
Qed.

Lemma mixes_pair_audio_major_witness :
  ∃ mixed_audio_files,
    (Generator.create_audio_mixes second_voice_unmixable
       ["/tmp/t/audio_0.mp3"; "/tmp/t/audio_1.mp3"]
       ["/tmp/t/tts_0.mp3"; "/tmp/t/tts_1.mp3"] "/tmp/t" empty_world).1
    = Ok mixed_audio_files ∧
    (Generator.mixed_path "/tmp/t" 2 ∈ mixed_audio_files
     ↔ exit_ok (ffmpeg_mix second_voice_unmixable "/tmp/t/audio_1.mp3"
                  "/tmp/t/tts_0.mp3" (Generator.mixed_path "/tmp/t" 2)) = true).
Proof.
  apply (mixes_pair_audio_major second_voice_unmixable
           ["/tmp/t/audio_0.mp3"; "/tmp/t/audio_1.mp3"]
           ["/tmp/t/tts_0.mp3"; "/tmp/t/tts_1.mp3"] "/tmp/t" empty_world 1 0);
    reflexivity.
Defined.

(** ** services/tts.py: the voices cache is transparent *)

(** X22: against a backend that always gives the same answer, the cached
    [get_available_voices] returns, at every call, what the cache-free
    reading returns; and once a non-empty listing is cached the backend
    is not asked again. *)
Theorem voices_cache_is_transparent (env : Env) (n : nat) :
  let cache := TTSService.cache_after (tts_client env) (tts_voices env) n in
  let call := TTSService.get_available_voices (tts_client env) (tts_voices env) cache in
  call.1.1 = Tts.get_available_voices env ∧
  (TTSService.truthy cache = true → call.2 = false ∧ call.1.2 = cache).
Proof.
  intros cache call.
  assert (cache = None ∨ tts_client env = true ∧ cache = tts_voices env) as Hcache.
  { subst cache call. induction n as [|n IH]; [by left|].
    unfold TTSService.cache_after in *. simpl.
    set (c := Nat.iter n _ None) in *.
    unfold TTSService.get_available_voices.
    destruct IH as [->|[Hclient ->]]; simpl.
    - destruct (tts_client env) eqn:Hclient; simpl; [|by left].
      destruct (tts_voices env) eqn:Hvoices; simpl; [by right | by left].
    - destruct (TTSService.truthy (tts_voices env)); simpl; [by right|].
      rewrite Hclient. simpl.
      destruct (tts_voices env) eqn:Hvoices; simpl; by right. }
  subst call. unfold TTSService.get_available_voices, Tts.get_available_voices.
  split.
  - destruct Hcache as [->|[Hclient ->]]; simpl.
    + destruct (tts_client env); simpl; [|done]. by destruct (tts_voices env).
    + rewrite Hclient. simpl.
      destruct (tts_voices env) as [[|v vs]|]; simpl; done.
  - intros Htruthy. by rewrite Htruthy.
Qed.

(** ** services/generator.py: a clip of the first block that cannot be fetched *)

(** X23: when a clip of the first block cannot be fetched, [generate_all]
    returns the error ["Failed to download block1 video {k}"], with the
    block counted from one and the clip from zero; after creating the
    task directory it has requested the clips up to that one and nothing
    else. *)
Theorem unreachable_clip_is_reported (env : Env) (cfg : Settings) (sched : list nat)
    (task_id : string) (data : gmap string json) (progress_callback : bool)
    (w0 : World) (pre post : list json) (url : json) (later_blocks : list (list json))
    (audio_urls voice_configs : list json) :
  let dir := mkdtemp_name env ("task_" +:+ task_id +:+ "_") in
  Generator.parse_blocks data
  = ((pre ++ url :: post) :: later_blocks, audio_urls, voice_configs) →
  audio_urls ≠ [] →
  voice_configs ≠ [] →
  (∀ j u, pre !! j = Some u →
     fetched env u (video_path dir "block1" j) (download_timeout cfg) = true) →
  fetched env url (video_path dir "block1" (length pre)) (download_timeout cfg)
  = false →
  ∃ w,
    Generator.generate_all env cfg sched task_id data progress_callback w0
    = Some (Generator.with_error
              (Exception ("Failed to download block1 video " +:+ pretty (length pre)))
              Generator.empty_results, w) ∧
    trace w = trace w0 ++ EvMkdtemp dir :: requests (download_timeout cfg) (pre ++ [url]).
Proof.
  intros dir Hparse Haudio Hvoice Hpre Hurl.
  set (w1 := {| files := files w0; dirs := {[dir]} ∪ dirs w0;
                trace := trace w0 ++ [EvMkdtemp dir] |}).
  destruct (download_loop_fail env (download_timeout cfg) (video_path dir "block1")
              (λ idx, Exception ("Failed to download " +:+ "block1"
                                 +:+ " video " +:+ pretty idx))
              pre url post 0 [] w1 Hpre Hurl) as (w & Hloop & Htrace & _).
  exists w. split.
  - apply generate_all_aborted. unfold Generator.prepare. rewrite Hparse.
    rewrite bool_decide_eq_false_2 by done.
    rewrite !bool_decide_eq_false_2 by done.
    unfold Generator.mkdtemp, Generator.stages.
    unfold bind at 1. unfold bind at 1. unfold bind at 1. unfold emit, modify, ret.
    cbn [log files dirs trace]. fold dir. fold w1.
    apply bind_raise. cbn [for_enumerate]. apply bind_raise, bind_raise.
    unfold Generator.process_video_block. apply bind_raise. exact Hloop.
  - rewrite Htrace. simpl. by rewrite <-app_assoc.
Qed.

Lemma unreachable_clip_is_reported_witness :
  ∃ w,
    Generator.generate_all second_unreachable default_settings [] "t1"
      unreachable_clip_request true empty_world
    = Some (Generator.with_error (Exception "Failed to download block1 video 1")
              Generator.empty_results, w) ∧
    trace w = [EvMkdtemp "/tmp/task_t1_"; EvHttpGet (JStr "http://host/v1.mp4") 300;
               EvHttpGet (JStr "http://host/v2.mp4") 300].
Proof.
  apply (unreachable_clip_is_reported second_unreachable default_settings [] "t1"
           unreachable_clip_request true empty_world [JStr "http://host/v1.mp4"]
           [JStr "http://host/v3.mp4"] (JStr "http://host/v2.mp4") []
           [JStr "http://host/a1.mp3"] [voice_hi]).
  - vm_compute. reflexivity.
  - discriminate.
  - discriminate.
  - intros [|[|j]] u Hj; simplify_eq/=. reflexivity.
  - reflexivity.
Defined.

(** ** services/generator.py: a voice line whose synthesis fails *)






